(** * Gravity bridge: checkpoints, confirmations and the send-to-Ethereum pool

    A shallow embedding of
      - [module/x/gravity/types/batch.go]   ([BatchTx.GetCheckpoint],
        [LogicCallTx.GetCheckpoint]),
      - [module/x/gravity/types/confirm.go] (the [Confirm] interface and its
        three implementations),
      - the keeper's pool file ([CreateSendToEthereum],
        [CancelSendToEthereum], the iterators and the id counter),
    together with models of the library functions they call: Go's
    [encoding/hex], go-ethereum's [common.HexToAddress], [abi.Pack] and
    [crypto.Keccak256Hash], the SDK's [Coin.Add], the KV store and the bank
    keeper interface. *)

From Stdlib Require Import String Ascii.
From Stdlib Require Import ZArith List Bool Lia Arith.
From Stdlib Require Import Sorting.Sorted.
Import ListNotations.

Local Open Scope string_scope.
Local Open Scope list_scope.
Local Open Scope Z_scope.

(** ** Bytes and Go values *)

(** A Go [byte] is kept as an integer in [0, 256); a [[]byte] or a [string]
    seen as bytes is a list of them. *)
Definition bytes := list Z.

Definition byte_of_ascii (c : ascii) : Z := Z.of_N (N_of_ascii c).

Fixpoint bytes_of_string (s : string) : bytes :=
  match s with
  | EmptyString => []
  | String c s' => byte_of_ascii c :: bytes_of_string s'
  end.

(** What a Go call can do: return its value, return a non-nil [error], or
    panic. *)
Inductive outcome (A : Type) : Type :=
| Ret (a : A)
| Err (e : string)
| Panic (e : string).
Arguments Ret {A} a.
Arguments Err {A} e.
Arguments Panic {A} e.

(** [uint64] arithmetic wraps. *)
Definition uint64_max : Z := 2 ^ 64 - 1.
Definition wrap64 (z : Z) : Z := z mod 2 ^ 64.

(** The conversion [int64(x)] of a [uint64]: same bits, read as two's
    complement. *)
Definition int64_of_uint64 (x : Z) : Z :=
  if x <? 2 ^ 63 then x else x - 2 ^ 64.

(** Big-endian, fixed width: the [n] low-order bytes of [v], most significant
    first ([big.Int.FillBytes], [sdk.Uint64ToBigEndian],
    [math.PaddedBigBytes]). *)
Fixpoint be_bytes (n : nat) (v : Z) : bytes :=
  match n with
  | O => []
  | S n' => (v / 256 ^ Z.of_nat n') mod 256 :: be_bytes n' v
  end.

(** [binary.BigEndian.Uint64] and, generally, the number a big-endian byte
    string denotes. *)
Definition be_value (bs : bytes) : Z :=
  fold_left (fun acc b => acc * 256 + b) bs 0.

(** ** Keccak-256 ([crypto.Keccak256Hash])

    The sponge of FIPS 202 over Keccak-f[1600] with rate 136 bytes and the
    original Keccak padding byte [0x01]; lanes are 64-bit words, the state is
    the list of its 25 lanes, lane [(x, y)] at index [x + 5 * y]. *)
Module Keccak.

Definition mask64 : Z := 2 ^ 64 - 1.

Definition rotl64 (x : Z) (n : Z) : Z :=
    Z.land (Z.lor (Z.shiftl x n) (Z.shiftr x (64 - n))) mask64.

Definition lane (st : list Z) (i : nat) : Z := nth i st 0.

Definition rotc : list Z :=
    [ 0;  1; 62; 28; 27;
     36; 44;  6; 55; 20;
      3; 10; 43; 25; 39;
     41; 45; 15; 21;  8;
     18;  2; 61; 56; 14].

Definition RC : list Z :=
    [0x0000000000000001; 0x0000000000008082; 0x800000000000808A;
     0x8000000080008000; 0x000000000000808B; 0x0000000080000001;
     0x8000000080008081; 0x8000000000008009; 0x000000000000008A;
     0x0000000000000088; 0x0000000080008009; 0x000000008000000A;
     0x000000008000808B; 0x800000000000008B; 0x8000000000008089;
     0x8000000000008003; 0x8000000000008002; 0x8000000000000080;
     0x000000000000800A; 0x800000008000000A; 0x8000000080008081;
     0x8000000000008080; 0x0000000080000001; 0x8000000080008008].

Definition idx25 : list nat := seq 0 25.

Definition theta (st : list Z) : list Z :=
    let c := map (fun x =>
                Z.lxor (lane st x)
               (Z.lxor (lane st (x + 5))
               (Z.lxor (lane st (x + 10))
               (Z.lxor (lane st (x + 15)) (lane st (x + 20))))))
               (seq 0 5) in
    let d := map (fun x =>
                Z.lxor (nth ((x + 4) mod 5) c 0)
                       (rotl64 (nth ((x + 1) mod 5) c 0) 1))
               (seq 0 5) in
    map (fun i => Z.lxor (lane st i) (nth (i mod 5) d 0)) idx25.

  (** B[y, 2x+3y] = rot(A[x, y]); read backwards, the lane at (X, Y) comes
      from (x, y) = (X + 3Y mod 5, X). *)
Definition rho_pi (st : list Z) : list Z :=
    map (fun j =>
           let X := (j mod 5)%nat in
           let Y := (j / 5)%nat in
           let src := (((X + 3 * Y) mod 5) + 5 * X)%nat in
           rotl64 (lane st src) (nth src rotc 0))
        idx25.

Definition chi (st : list Z) : list Z :=
    map (fun j =>
           let x := (j mod 5)%nat in
           let y := (j / 5)%nat in
           Z.lxor (lane st j)
                  (Z.ldiff (lane st (((x + 2) mod 5) + 5 * y))
                           (lane st (((x + 1) mod 5) + 5 * y))))
        idx25.

Definition iota (rc : Z) (st : list Z) : list Z :=
    match st with
    | [] => []
    | a :: rest => Z.lxor a rc :: rest
    end.

Definition round (st : list Z) (rc : Z) : list Z :=
    iota rc (chi (rho_pi (theta st))).

Definition keccak_f (st : list Z) : list Z := fold_left round RC st.

Definition rate : nat := 136.

  (** little-endian lane from 8 bytes *)
Definition le_value (bs : bytes) : Z :=
    fold_right (fun b acc => b + 256 * acc) 0 bs.

Fixpoint lanes_of_bytes (n : nat) (bs : bytes) : list Z :=
    match n with
    | O => []
    | S n' => le_value (firstn 8 bs) :: lanes_of_bytes n' (skipn 8 bs)
    end.

Definition xor_block (st : list Z) (block : bytes) : list Z :=
    let ls := lanes_of_bytes 17 block in
    map (fun i => Z.lxor (lane st i) (nth i ls 0)) idx25.

Definition pad (msg : bytes) : bytes :=
    let q := (rate - (length msg mod rate))%nat in
    if (q =? 1)%nat then msg ++ [0x81]
    else msg ++ [0x01] ++ repeat 0 (q - 2) ++ [0x80].

Fixpoint absorb (fuel : nat) (st : list Z) (msg : bytes) : list Z :=
    match fuel with
    | O => st
    | S fuel' =>
        match msg with
        | [] => st
        | _ => absorb fuel' (keccak_f (xor_block st (firstn rate msg)))
                      (skipn rate msg)
        end
    end.

Definition squeeze_byte (st : list Z) (i : nat) : Z :=
    Z.land (Z.shiftr (lane st (i / 8)) (8 * Z.of_nat (i mod 8))) 255.

Definition Keccak256 (msg : bytes) : bytes :=
    let p := pad msg in
    let st := absorb (length p) (repeat 0 25) p in
    map (squeeze_byte st) (seq 0 32).

End Keccak.

(** ** [encoding/hex] and [common.HexToAddress] *)

Definition hex_digit (c : ascii) : option Z :=
  let n := byte_of_ascii c in
  if (48 <=? n) && (n <=? 57) then Some (n - 48)
  else if (97 <=? n) && (n <=? 102) then Some (n - 87)
  else if (65 <=? n) && (n <=? 70) then Some (n - 55)
  else None.

(** [hex.DecodeString]: the bytes decoded before the first problem, and
    whether there was one (a character that is no hex digit, or an odd
    length). *)
Fixpoint hex_DecodeString (s : string) : bytes * bool :=
  match s with
  | EmptyString => ([], true)
  | String p EmptyString => ([], false)
  | String p (String q rest) =>
      match hex_digit p, hex_digit q with
      | Some a, Some b =>
          let (bs, ok) := hex_DecodeString rest in (a * 16 + b :: bs, ok)
      | _, _ => ([], false)
      end
  end.

Definition is_hex (s : string) : bool := snd (hex_DecodeString s).

Definition has0xPrefix (s : string) : bool :=
  match s with
  | String a (String b _) =>
      (byte_of_ascii a =? 48) && ((byte_of_ascii b =? 120) || (byte_of_ascii b =? 88))
  | _ => false
  end.

Definition FromHex (s : string) : bytes :=
  let s1 := if has0xPrefix s then substring 2 (String.length s - 2) s else s in
  let s2 := if Nat.odd (String.length s1) then String "0" s1 else s1 in
  fst (hex_DecodeString s2).

Definition AddressLength : nat := 20.

(** [Address.SetBytes]: the last 20 bytes, left-padded with zeros. *)
Definition BytesToAddress (b : bytes) : bytes :=
  let b' := skipn (length b - AddressLength) b in
  repeat 0 (AddressLength - length b') ++ b'.

Definition HexToAddress (s : string) : bytes := BytesToAddress (FromHex s).

(** [copy(dst[:], src)] into a zeroed [[32]byte]: the first 32 bytes of
    [src], right-padded with zeros. *)
Definition copy32 (src : bytes) : bytes :=
  firstn 32 src ++ repeat 0 (32 - length src).

(** ** Contract ABI encoding ([abi.Pack]) *)
Module ABI.

Inductive ty : Type :=
  | TBytes32 | TUint256 | TAddress | TUint256Arr | TAddressArr | TBytes.

  (** The Go values [GetCheckpoint] hands to [Pack]. *)
Inductive value : Type :=
  | VBytes32 (b : bytes)            (* [32]uint8 *)
  | VBigInt (z : Z)                 (* *big.Int *)
  | VAddress (a : bytes)            (* common.Address *)
  | VBigIntSlice (l : list Z)       (* []*big.Int *)
  | VAddressSlice (l : list bytes)  (* []common.Address *)
  | VByteSlice (b : bytes).         (* []byte *)

Record method : Type := { name : string; inputs : list ty }.

Definition ty_name (t : ty) : string :=
    match t with
    | TBytes32 => "bytes32" | TUint256 => "uint256" | TAddress => "address"
    | TUint256Arr => "uint256[]" | TAddressArr => "address[]"
    | TBytes => "bytes"
    end.

Fixpoint join_names (ts : list ty) : string :=
    match ts with
    | [] => ""
    | [t] => ty_name t
    | t :: rest => ty_name t ++ "," ++ join_names rest
    end.

Definition sig (m : method) : string :=
    name m ++ "(" ++ join_names (inputs m) ++ ")".

  (** [method.ID]: the 4-byte selector. *)
Definition ID (m : method) : bytes :=
    firstn 4 (Keccak.Keccak256 (bytes_of_string (sig m))).

  (** [math.U256Bytes]: the value reduced to 256 bits (two's complement for
      a negative [big.Int]), 32 bytes big-endian. *)
Definition U256Bytes (z : Z) : bytes := be_bytes 32 (z mod 2 ^ 256).

Definition packNum (n : nat) : bytes := U256Bytes (Z.of_nat n).

Definition LeftPad32 (b : bytes) : bytes := repeat 0 (32 - length b) ++ b.

Definition RightPad (n : nat) (b : bytes) : bytes := b ++ repeat 0 (n - length b).

Definition ceil32 (n : nat) : nat := ((n + 31) / 32 * 32)%nat.

Definition isDynamic (t : ty) : bool :=
    match t with
    | TUint256Arr | TAddressArr | TBytes => true
    | _ => false
    end.

  (** [Type.pack]: type check, then the encoding of one argument. *)
Definition pack (t : ty) (v : value) : option bytes :=
    match t, v with
    | TBytes32, VBytes32 b => Some (RightPad 32 b)
    | TUint256, VBigInt z => Some (U256Bytes z)
    | TAddress, VAddress a => Some (LeftPad32 a)
    | TUint256Arr, VBigIntSlice l =>
        Some (packNum (length l) ++ concat (map U256Bytes l))
    | TAddressArr, VAddressSlice l =>
        Some (packNum (length l) ++ concat (map LeftPad32 l))
    | TBytes, VByteSlice b =>
        Some (packNum (length b) ++ RightPad (ceil32 (length b)) b)
    | _, _ => None
    end.

  (** [Arguments.Pack]: heads in order (an offset for a dynamic argument),
      then the tails of the dynamic arguments. *)
Fixpoint packArgs (ts : list ty) (vs : list value) (offset : nat)
    : option (bytes * bytes) :=
    match ts, vs with
    | [], [] => Some ([], [])
    | t :: ts', v :: vs' =>
        match pack t v with
        | None => None
        | Some packed =>
            if isDynamic t then
              match packArgs ts' vs' (offset + length packed) with
              | None => None
              | Some (h, tl) => Some (packNum offset ++ h, packed ++ tl)
              end
            else
              match packArgs ts' vs' offset with
              | None => None
              | Some (h, tl) => Some (packed ++ h, tl)
              end
        end
    | _, _ => None
    end.

Definition encode (ts : list ty) (vs : list value) : option bytes :=
    match packArgs ts vs (32 * length ts) with
    | Some (h, tl) => Some (h ++ tl)
    | None => None
    end.

  (** [ABI.Pack(name, args...)] for an ABI with the one method [m]. *)
Definition Pack (m : method) (nm : string) (args : list value)
    : outcome bytes :=
    if String.eqb nm (name m) then
      match encode (inputs m) args with
      | Some enc => Ret (ID m ++ enc)
      | None => Err "abi: cannot use argument"
      end
    else Err "method not found".

End ABI.

(** ** The protobuf messages (fields as in the generated Go structs) *)

(** [sdk.Int] is an arbitrary-precision signed integer: [Z]. *)
Record ERC20Token : Type := { Contract : string; Amount : Z }.

Record Coin : Type := { Denom : string; CoinAmount : Z }.

Record SendToEthereum : Type := {
  Id : Z;
  Sender : string;
  EthereumRecipient : string;
  Erc20Token : ERC20Token;
  Erc20Fee : ERC20Token
}.

Record BatchTx : Type := {
  b_Nonce : Z;
  b_Timeout : Z;
  b_Transactions : list SendToEthereum;
  b_TokenContract : string
}.

Record LogicCallTx : Type := {
  c_Tokens : list Coin;
  c_Fees : list Coin;
  c_LogicContractAddress : string;
  c_Payload : bytes;
  c_Timeout : Z;
  c_InvalidationId : bytes;
  c_InvalidationNonce : Z
}.

(** ** Loops that fill a slice made with [make] *)

(** [s[i] = x] on a slice (within range everywhere it is used here). *)
Fixpoint store_at {A : Type} (i : nat) (x : A) (l : list A) : list A :=
  match l, i with
  | [], _ => []
  | _ :: r, O => x :: r
  | y :: r, S i' => y :: store_at i' x r
  end.

(** [for i, x := range l { body }] with the loop state passed along. *)
Fixpoint range_loop {A St : Type} (body : nat -> A -> St -> St)
         (i : nat) (l : list A) (st : St) : St :=
  match l with
  | [] => st
  | x :: r => range_loop body (S i) r (body i x st)
  end.

(** ** Checkpoints ([batch.go]) *)

(** Modelled from the spec: [strToFixByteArray] is not in the sources at
    hand. The chain identifier must fit in a fixed 32-byte field under its
    natural (UTF-8) encoding, else the call fails; the bytes are copied into
    a zeroed [[32]byte]. *)
Definition strToFixByteArray (s : string) : outcome bytes :=
  if (32 <? String.length s)%nat then Err "string too long"
  else Ret (copy32 (bytes_of_string s)).

(** Modelled from the spec: the two ABI definitions
    [OutgoingBatchTxCheckpointABIJSON] and [OutgoingLogicCallABIJSON] are
    constants declared outside the sources at hand. Section 4.1 gives the
    tuples: chain id, domain tag, amounts, destinations, fees, nonce, contract,
    timeout for a batch; chain id, domain tag, transfer amounts, transfer
    tokens, fee amounts, fee tokens, target contract, payload, timeout,
    invalidation id, invalidation nonce for a call. The method names are the
    ones [Pack] is called with. *)
Definition OutgoingBatchTxCheckpointABI : ABI.method :=
  {| ABI.name := "submitBatch";
     ABI.inputs := [ABI.TBytes32; ABI.TBytes32; ABI.TUint256Arr;
                    ABI.TAddressArr; ABI.TUint256Arr; ABI.TUint256;
                    ABI.TAddress; ABI.TUint256] |}.

Definition OutgoingLogicCallABI : ABI.method :=
  {| ABI.name := "checkpoint";
     ABI.inputs := [ABI.TBytes32; ABI.TBytes32; ABI.TUint256Arr;
                    ABI.TAddressArr; ABI.TUint256Arr; ABI.TAddressArr;
                    ABI.TAddress; ABI.TBytes; ABI.TUint256; ABI.TBytes32;
                    ABI.TUint256] |}.

Definition zeroAddress : bytes := repeat 0 AddressLength.

Definition batchMethodName : bytes := copy32 (bytes_of_string "transactionBatch").
Definition logicCallMethodName : bytes := copy32 (bytes_of_string "logicCall").

(** The first loop of [BatchTx.GetCheckpoint]. *)
Definition batch_loop_body (i : nat) (tx : SendToEthereum)
           (st : list Z * list bytes * list Z) : list Z * list bytes * list Z :=
  let '(txAmounts, txDestinations, txFees) := st in
  (store_at i (Amount (Erc20Token tx)) txAmounts,
   store_at i (HexToAddress (EthereumRecipient tx)) txDestinations,
   store_at i (Amount (Erc20Fee tx)) txFees).

(** The arguments [BatchTx.GetCheckpoint] passes to [abi.Pack]. *)
Definition BatchTx_packArgs (b : BatchTx) (gravityID : bytes) : list ABI.value :=
  let n := length (b_Transactions b) in
  let '(txAmounts, txDestinations, txFees) :=
    range_loop batch_loop_body 0 (b_Transactions b)
               (repeat 0 n, repeat zeroAddress n, repeat 0 n) in
  [ABI.VBytes32 gravityID;
   ABI.VBytes32 batchMethodName;
   ABI.VBigIntSlice txAmounts;
   ABI.VAddressSlice txDestinations;
   ABI.VBigIntSlice txFees;
   ABI.VBigInt (int64_of_uint64 (b_Nonce b));
   ABI.VAddress (HexToAddress (b_TokenContract b));
   ABI.VBigInt (int64_of_uint64 (b_Timeout b))].

(** [abi.JSON] parses a constant and does not fail; the method-name bytes
    and the loop are in [BatchTx_packArgs]. *)
Definition BatchTx_GetCheckpoint (b : BatchTx) (gravityIDstring : string)
  : outcome bytes :=
  match strToFixByteArray gravityIDstring with
  | Err e | Panic e => Panic e
  | Ret gravityID =>
      match ABI.Pack OutgoingBatchTxCheckpointABI "submitBatch"
                     (BatchTx_packArgs b gravityID) with
      | Ret abiEncodedBatch => Ret (Keccak.Keccak256 (skipn 4 abiEncodedBatch))
      | Err _ => Err "packing checkpoint"
      | Panic e => Panic e
      end
  end.

Definition call_loop_body (i : nat) (tx : Coin)
           (st : list Z * list bytes) : list Z * list bytes :=
  let '(amounts, contracts) := st in
  (store_at i (CoinAmount tx) amounts,
   store_at i (HexToAddress (Denom tx)) contracts).

Definition LogicCallTx_packArgs (c : LogicCallTx) (gravityID : bytes)
  : list ABI.value :=
  let nt := length (c_Tokens c) in
  let nf := length (c_Fees c) in
  let '(transferAmounts, transferTokenContracts) :=
    range_loop call_loop_body 0 (c_Tokens c) (repeat 0 nt, repeat zeroAddress nt) in
  let '(feeAmounts, feeTokenContracts) :=
    range_loop call_loop_body 0 (c_Fees c) (repeat 0 nf, repeat zeroAddress nf) in
  let payload := c_Payload c in
  let invalidationID := copy32 (c_InvalidationId c) in
  [ABI.VBytes32 gravityID;
   ABI.VBytes32 logicCallMethodName;
   ABI.VBigIntSlice transferAmounts;
   ABI.VAddressSlice transferTokenContracts;
   ABI.VBigIntSlice feeAmounts;
   ABI.VAddressSlice feeTokenContracts;
   ABI.VAddress (HexToAddress (c_LogicContractAddress c));
   ABI.VByteSlice payload;
   ABI.VBigInt (int64_of_uint64 (c_Timeout c));
   ABI.VBytes32 invalidationID;
   ABI.VBigInt (int64_of_uint64 (c_InvalidationNonce c))].

Definition LogicCallTx_GetCheckpoint (c : LogicCallTx) (gravityIDstring : string)
  : outcome bytes :=
  match strToFixByteArray gravityIDstring with
  | Err e | Panic e => Panic e
  | Ret gravityID =>
      match ABI.Pack OutgoingLogicCallABI "checkpoint"
                     (LogicCallTx_packArgs c gravityID) with
      | Ret abiEncodedCall => Ret (Keccak.Keccak256 (skipn 4 abiEncodedCall))
      | Err _ => Err "packing checkpoint"
      | Panic e => Panic e
      end
  end.

(** ** Confirmations ([confirm.go]) *)

Record ConfirmBatch : Type := {
  cb_Nonce : Z;
  cb_TokenContract : string;
  cb_EthSigner : string;
  cb_OrchestratorAddress : string;
  cb_Signature : string
}.

Record ConfirmLogicCall : Type := {
  cl_InvalidationId : string;
  cl_InvalidationNonce : Z;
  cl_EthSigner : string;
  cl_OrchestratorAddress : string;
  cl_Signature : string
}.

Record ConfirmValset : Type := {
  cv_Nonce : Z;
  cv_OrchestratorAddress : string;
  cv_EthAddress : string;
  cv_Signature : string
}.

(** The errors [Validate] builds: a registered SDK error wrapped with a
    description, or the error of [ValidateEthAddress] wrapped with one. *)
Inductive error : Type :=
| ErrInvalidAddress (description : string)
| ErrUnknownRequest (description : string)
| ErrWrapped (inner : string) (description : string).

(** The accessors written in [confirm.go]. *)
Definition ConfirmBatch_GetType (msg : ConfirmBatch) : string := "batch".
Definition ConfirmBatch_GetInvalidationNonce (msg : ConfirmBatch) : Z := 0.
Definition ConfirmBatch_GetInvalidationId (msg : ConfirmBatch) : string := "".

Definition ConfirmLogicCall_GetType (msg : ConfirmLogicCall) : string := "logic_Call".
Definition ConfirmLogicCall_GetNonce (msg : ConfirmLogicCall) : Z := 0.
Definition ConfirmLogicCall_GetTokenContract (msg : ConfirmLogicCall) : string := "".

Definition ConfirmValset_GetType (msg : ConfirmValset) : string := "valset".
Definition ConfirmValset_GetInvalidationNonce (msg : ConfirmValset) : Z := 0.
Definition ConfirmValset_GetInvalidationId (msg : ConfirmValset) : string := "".
Definition ConfirmValset_GetTokenContract (msg : ConfirmValset) : string := "".

(** The remaining accessors are the getters protobuf generates: they return
    the field. *)
Definition ConfirmBatch_GetNonce (msg : ConfirmBatch) : Z := cb_Nonce msg.
Definition ConfirmBatch_GetTokenContract (msg : ConfirmBatch) : string := cb_TokenContract msg.
Definition ConfirmLogicCall_GetInvalidationId (msg : ConfirmLogicCall) : string :=
  cl_InvalidationId msg.
Definition ConfirmLogicCall_GetInvalidationNonce (msg : ConfirmLogicCall) : Z :=
  cl_InvalidationNonce msg.
Definition ConfirmValset_GetNonce (msg : ConfirmValset) : Z := cv_Nonce msg.

(** The [Confirm] interface. *)
Class Confirm (M : Type) : Type := {
  GetType : M -> string;
  GetOrchestratorAddress : M -> string;
  GetNonce : M -> Z;
  GetSignature : M -> string;
  Validate : M -> option error;
  GetTokenContract : M -> string;
  GetInvalidationId : M -> string;
  GetInvalidationNonce : M -> Z
}.

Section Validation.

  (** The two address checks are made by code outside these sources:
      [sdk.AccAddressFromBech32] (does the string parse?) and
      [ValidateEthAddress] (its error, if any). *)
Variable AccAddressFromBech32 : string -> bool.
Variable ValidateEthAddress : string -> option string.

Definition ConfirmBatch_Validate (msg : ConfirmBatch) : option error :=
    if negb (AccAddressFromBech32 (cb_OrchestratorAddress msg)) then
      Some (ErrInvalidAddress (cb_OrchestratorAddress msg))
    else
      match ValidateEthAddress (cb_EthSigner msg) with
      | Some err => Some (ErrWrapped err "eth signer")
      | None =>
          match ValidateEthAddress (cb_TokenContract msg) with
          | Some err => Some (ErrWrapped err "token contract")
          | None =>
              if negb (is_hex (cb_Signature msg)) then
                Some (ErrUnknownRequest
                        ("could not decode hex string " ++ cb_Signature msg))
              else None
          end
      end.

Definition ConfirmLogicCall_Validate (msg : ConfirmLogicCall) : option error :=
    if negb (AccAddressFromBech32 (cl_OrchestratorAddress msg)) then
      Some (ErrInvalidAddress (cl_OrchestratorAddress msg))
    else
      match ValidateEthAddress (cl_EthSigner msg) with
      | Some err => Some (ErrWrapped err "eth signer")
      | None =>
          if negb (is_hex (cl_Signature msg)) then
            Some (ErrUnknownRequest
                    ("Could not decode hex string " ++ cl_Signature msg))
          else if negb (is_hex (cl_InvalidationId msg)) then
            Some (ErrUnknownRequest
                    ("Could not decode hex string " ++ cl_InvalidationId msg))
          else None
      end.

Definition ConfirmValset_Validate (msg : ConfirmValset) : option error :=
    if negb (AccAddressFromBech32 (cv_OrchestratorAddress msg)) then
      Some (ErrInvalidAddress (cv_OrchestratorAddress msg))
    else
      match ValidateEthAddress (cv_EthAddress msg) with
      | Some err => Some (ErrWrapped err "ethereum address")
      | None => None
      end.

#[export] Instance ConfirmBatch_Confirm : Confirm ConfirmBatch := {
    GetType := ConfirmBatch_GetType;
    GetOrchestratorAddress := cb_OrchestratorAddress;
    GetNonce := ConfirmBatch_GetNonce;
    GetSignature := cb_Signature;
    Validate := ConfirmBatch_Validate;
    GetTokenContract := ConfirmBatch_GetTokenContract;
    GetInvalidationId := ConfirmBatch_GetInvalidationId;
    GetInvalidationNonce := ConfirmBatch_GetInvalidationNonce
  }.

#[export] Instance ConfirmLogicCall_Confirm : Confirm ConfirmLogicCall := {
    GetType := ConfirmLogicCall_GetType;
    GetOrchestratorAddress := cl_OrchestratorAddress;
    GetNonce := ConfirmLogicCall_GetNonce;
    GetSignature := cl_Signature;
    Validate := ConfirmLogicCall_Validate;
    GetTokenContract := ConfirmLogicCall_GetTokenContract;
    GetInvalidationId := ConfirmLogicCall_GetInvalidationId;
    GetInvalidationNonce := ConfirmLogicCall_GetInvalidationNonce
  }.

#[export] Instance ConfirmValset_Confirm : Confirm ConfirmValset := {
    GetType := ConfirmValset_GetType;
    GetOrchestratorAddress := cv_OrchestratorAddress;
    GetNonce := ConfirmValset_GetNonce;
    GetSignature := cv_Signature;
    Validate := ConfirmValset_Validate;
    GetTokenContract := ConfirmValset_GetTokenContract;
    GetInvalidationId := ConfirmValset_GetInvalidationId;
    GetInvalidationNonce := ConfirmValset_GetInvalidationNonce
  }.

End Validation.

(** ** The KV store

    An ordered map from byte-string keys to values, kept as an association
    list in ascending key order ([bytes.Compare]). A marshalled
    [SendToEthereum] is kept as the message itself, so that
    [MustUnmarshalBinaryBare] after [MustMarshalBinaryBare] is the identity. *)

Inductive value : Type :=
| VRaw (bz : bytes)
| VSend (ste : SendToEthereum).

Definition KVStore : Type := list (bytes * value).

Fixpoint bytes_compare (a b : bytes) : comparison :=
  match a, b with
  | [], [] => Eq
  | [], _ :: _ => Lt
  | _ :: _, [] => Gt
  | x :: a', y :: b' =>
      match x ?= y with
      | Eq => bytes_compare a' b'
      | c => c
      end
  end.

Definition bytes_eqb (a b : bytes) : bool :=
  match bytes_compare a b with Eq => true | _ => false end.

Definition bytes_lt (a b : bytes) : Prop := bytes_compare a b = Lt.

Fixpoint store_Get (k : bytes) (st : KVStore) : option value :=
  match st with
  | [] => None
  | (k', v) :: r => if bytes_eqb k k' then Some v else store_Get k r
  end.

Fixpoint store_Set (k : bytes) (v : value) (st : KVStore) : KVStore :=
  match st with
  | [] => [(k, v)]
  | (k', v') :: r =>
      match bytes_compare k k' with
      | Lt => (k, v) :: st
      | Eq => (k, v) :: r
      | Gt => (k', v') :: store_Set k v r
      end
  end.

Definition store_Delete (k : bytes) (st : KVStore) : KVStore :=
  filter (fun e => negb (bytes_eqb k (fst e))) st.

Fixpoint has_prefix (p k : bytes) : bool :=
  match p, k with
  | [], _ => true
  | _ :: _, [] => false
  | x :: p', y :: k' => (x =? y) && has_prefix p' k'
  end.

(** [prefix.NewStore(store, p).ReverseIterator(nil, nil)]: the entries whose
    key starts with [p], from the greatest key down. *)
Definition ReverseIterator (p : bytes) (st : KVStore) : list (bytes * value) :=
  rev (filter (fun e => has_prefix p (fst e)) st).

(** ** The bank keeper

    A reference ledger for the [bankKeeper] collaborator: balances per
    account and denomination; a transfer or a burn fails, changing nothing,
    when the coins are not all positive or the funds do not suffice. *)

Definition Bank : Type := string -> string -> Z.

Definition coins_valid (cs : list Coin) : bool :=
  forallb (fun c => 0 <? CoinAmount c) cs.

Definition credit (b : Bank) (acct : string) (c : Coin) : Bank :=
  fun a d =>
    if String.eqb a acct && String.eqb d (Denom c) then b a d + CoinAmount c
    else b a d.

Fixpoint addCoins (b : Bank) (acct : string) (cs : list Coin) : Bank :=
  match cs with
  | [] => b
  | c :: r => addCoins (credit b acct c) acct r
  end.

Fixpoint subCoins (b : Bank) (acct : string) (cs : list Coin) : option Bank :=
  match cs with
  | [] => Some b
  | c :: r =>
      if b acct (Denom c) <? CoinAmount c then None
      else subCoins (credit b acct {| Denom := Denom c; CoinAmount := - CoinAmount c |})
                    acct r
  end.

Definition SendCoins (b : Bank) (from to : string) (cs : list Coin) : outcome Bank :=
  if negb (coins_valid cs) then Err "invalid coins"
  else match subCoins b from cs with
       | None => Err "insufficient funds"
       | Some b1 => Ret (addCoins b1 to cs)
       end.

Definition SendCoinsFromAccountToModule (b : Bank) (sender moduleName : string)
           (cs : list Coin) : outcome Bank := SendCoins b sender moduleName cs.

Definition SendCoinsFromModuleToAccount (b : Bank) (moduleName recipient : string)
           (cs : list Coin) : outcome Bank := SendCoins b moduleName recipient cs.

Definition BurnCoins (b : Bank) (moduleName : string) (cs : list Coin) : outcome Bank :=
  if negb (coins_valid cs) then Err "invalid coins"
  else match subCoins b moduleName cs with
       | None => Err "insufficient funds"
       | Some b1 => Ret b1
       end.

Definition MintCoins (b : Bank) (moduleName : string) (cs : list Coin) : outcome Bank :=
  if negb (coins_valid cs) then Err "invalid coins"
  else Ret (addCoins b moduleName cs).

(** [Coin.Add] panics when the denominations differ. *)
Definition Coin_Add (a b : Coin) : outcome Coin :=
  if String.eqb (Denom a) (Denom b)
  then Ret {| Denom := Denom a; CoinAmount := CoinAmount a + CoinAmount b |}
  else Panic "invalid coin denominations".

(** [sdk.NewCoins] of one coin: a zero coin is dropped, a negative one
    panics. *)
Definition NewCoins (c : Coin) : outcome (list Coin) :=
  if CoinAmount c <? 0 then Panic "invalid coin set"
  else if CoinAmount c =? 0 then Ret []
  else Ret [c].

(** ** [Address.Hex]: the EIP-55 mixed-case rendering *)

Definition hex_char (n : Z) : ascii :=
  ascii_of_N (Z.to_N (if n <? 10 then 48 + n else 87 + n)).

Fixpoint hex_lower (bs : bytes) : string :=
  match bs with
  | [] => EmptyString
  | b :: r => String (hex_char (b / 16)) (String (hex_char (b mod 16)) (hex_lower r))
  end.

Fixpoint checksum_case (i : nat) (hash : bytes) (s : string) : string :=
  match s with
  | EmptyString => EmptyString
  | String c r =>
      let hashByte := nth (i / 2) hash 0 in
      let nib := if Nat.even i then hashByte / 16 else hashByte mod 16 in
      let c' := if (57 <? byte_of_ascii c) && (7 <? nib)
                then ascii_of_N (Z.to_N (byte_of_ascii c - 32)) else c in
      String c' (checksum_case (S i) hash r)
  end.

Definition Address_Hex (a : bytes) : string :=
  let low := hex_lower a in
  String "0" (String "x"
    (checksum_case 0 (Keccak.Keccak256 (bytes_of_string low)) low)).

(** ** The keeper's pool of unbatched transfers *)

Record Context : Type := { ctx_store : KVStore; ctx_bank : Bank }.

(** A keeper call returns with the context it left behind, returns an error
    (the context as changed so far) or panics. *)
Inductive kresult (A : Type) : Type :=
| KOk (ctx : Context) (a : A)
| KErr (ctx : Context) (e : string)
| KPanic (e : string).
Arguments KOk {A} ctx a.
Arguments KErr {A} ctx e.
Arguments KPanic {A} e.

Section Keeper.

(** Declared outside the sources at hand and taken as parameters: the two
    key-prefix bytes, the module's name, the asset lookups (they read the
    store) and the denomination of the voucher coin of a token contract
    ([ERC20Token.GravityCoin] sees the token only, not the store). *)
Variable SendToEthereumKey : Z.
Variable LastSendToEthereumIDKey : Z.
Variable ModuleName : string.
Variable DenomToERC20Lookup : KVStore -> string -> outcome (bool * bytes).
Variable ERC20ToDenomLookup : KVStore -> string -> bool * string.
Variable GravityDenom : string -> string.

(** Modelled from the spec: [ERC20Token.GravityCoin] is not in the sources at
    hand. A token value is an amount tied to a contract address (section 3);
    its coin on this chain carries the same amount, in the denomination the
    parameter [GravityDenom] gives for the contract. *)
Definition GravityCoin (e : ERC20Token) : Coin :=
  {| Denom := GravityDenom (Contract e); CoinAmount := Amount e |}.

(** Modelled from the spec: [NewSDKIntERC20Token] is not in the sources at
    hand. It makes the token value of section 3 from an amount and a contract
    address, the address written in hex. *)
Definition NewSDKIntERC20Token (amount : Z) (contract : bytes) : ERC20Token :=
  {| Contract := Address_Hex contract; Amount := amount |}.

(** Modelled from the spec: [GetSendToEthereumKey] is not in the sources at
    hand. Section 6 keys the pending-request table by destination contract,
    fee and id, for per-contract iteration from the highest fee down; the
    prefix of a contract's entries is the one
    [IterateUnbatchedSendToEthereumsByContract] builds, and that iterator
    walks the keys in reverse, so the fee is stored as it is, big-endian on
    32 bytes. Amounts are unsigned and fit 32 bytes, ids are [uint64]. *)
Definition GetSendToEthereumKey (id : Z) (fee : ERC20Token) : bytes :=
  [SendToEthereumKey] ++ HexToAddress (Contract fee)
    ++ be_bytes 32 (Amount fee) ++ be_bytes 8 id.

Definition SetUnbatchedSendToEthereum (st : KVStore) (ste : SendToEthereum) : KVStore :=
  store_Set (GetSendToEthereumKey (Id ste) (Erc20Fee ste)) (VSend ste) st.

Definition DeleteUnbatchedSendToEthereum (st : KVStore) (id : Z) (fee : ERC20Token)
  : KVStore :=
  store_Delete (GetSendToEthereumKey id fee) st.

(** [binary.BigEndian.Uint64] of a stored value: the first 8 bytes; it
    panics on a shorter slice. *)
Definition Uint64 (v : value) : outcome Z :=
  match v with
  | VRaw bz => if (length bz <? 8)%nat then Panic "index out of range"
               else Ret (be_value (firstn 8 bz))
  | VSend _ => Panic "index out of range"
  end.

Definition IncrementLastSendToEthereumIDKey (st : KVStore) : outcome (KVStore * Z) :=
  let bz := store_Get [LastSendToEthereumIDKey] st in
  match (match bz with
         | Some v => Uint64 v
         | None => Ret 0
         end) with
  | Ret id =>
      let newId := wrap64 (id + 1) in
      Ret (store_Set [LastSendToEthereumIDKey] (VRaw (be_bytes 8 newId)) st, newId)
  | Err e => Err e
  | Panic e => Panic e
  end.

Definition CreateSendToEthereum (ctx : Context) (sender counterpartReceiver : string)
           (amount fee : Coin) : kresult Z :=
  match Coin_Add amount fee with
  | Err e | Panic e => KPanic e
  | Ret totalAmount =>
  let totalInVouchers := [totalAmount] in
  match DenomToERC20Lookup (ctx_store ctx) (Denom totalAmount) with
  | Err e => KErr ctx e
  | Panic e => KPanic e
  | Ret (isCosmosOriginated, tokenContract) =>
  match SendCoinsFromAccountToModule (ctx_bank ctx) sender ModuleName totalInVouchers with
  | Err e | Panic e => KPanic e
  | Ret bank1 =>
  match (if negb isCosmosOriginated
         then BurnCoins bank1 ModuleName totalInVouchers else Ret bank1) with
  | Err e | Panic e => KPanic e
  | Ret bank2 =>
  match IncrementLastSendToEthereumIDKey (ctx_store ctx) with
  | Err e | Panic e => KPanic e
  | Ret (store1, nextID) =>
      let store2 :=
        SetUnbatchedSendToEthereum store1
          {| Id := nextID;
             Sender := sender;
             EthereumRecipient := counterpartReceiver;
             Erc20Token := NewSDKIntERC20Token (CoinAmount amount) tokenContract;
             Erc20Fee := NewSDKIntERC20Token (CoinAmount fee) tokenContract |} in
      KOk {| ctx_store := store2; ctx_bank := bank2 |} nextID
  end end end end end.

Definition CancelSendToEthereum (ctx : Context) (send : SendToEthereum) : kresult unit :=
  let totalToRefund :=
    {| Denom := Denom (GravityCoin (Erc20Token send));
       CoinAmount := CoinAmount (GravityCoin (Erc20Token send))
                     + Amount (Erc20Fee send) |} in
  match NewCoins totalToRefund with
  | Err e | Panic e => KPanic e
  | Ret totalToRefundCoins =>
  let isCosmosOriginated :=
    fst (ERC20ToDenomLookup (ctx_store ctx) (Contract (Erc20Token send))) in
  let sender := Sender send in
  match (if negb isCosmosOriginated
         then MintCoins (ctx_bank ctx) ModuleName totalToRefundCoins
         else Ret (ctx_bank ctx)) with
  | Err e | Panic e => KErr ctx "mint vouchers coins"
  | Ret bank1 =>
  match SendCoinsFromModuleToAccount bank1 ModuleName sender totalToRefundCoins with
  | Err e | Panic e =>
      KErr {| ctx_store := ctx_store ctx; ctx_bank := bank1 |}
           "sending coins from module account"
  | Ret bank2 =>
      KOk {| ctx_store :=
               DeleteUnbatchedSendToEthereum (ctx_store ctx) (Id send) (Erc20Fee send);
             ctx_bank := bank2 |} tt
  end end end.

(** The loop shared by the two iterators: decode each value, call [cb], stop
    when it returns [true]. The callback's captured variables are the state
    [S] passed along. *)
Fixpoint iterate {S : Type} (it : list (bytes * value))
         (cb : SendToEthereum -> S -> S * bool) (s : S) : outcome S :=
  match it with
  | [] => Ret s
  | (_, VSend ste) :: rest =>
      let (s', stop) := cb ste s in
      if stop then Ret s' else iterate rest cb s'
  | (_, VRaw _) :: _ => Panic "unmarshal"
  end.

Definition IterateUnbatchedSendToEthereumsByContract {S : Type} (st : KVStore)
           (contract : bytes) (cb : SendToEthereum -> S -> S * bool) (s : S)
  : outcome S :=
  iterate (ReverseIterator ([SendToEthereumKey] ++ contract) st) cb s.

Definition IterateUnbatchedSendToEthereums {S : Type} (st : KVStore)
           (cb : SendToEthereum -> S -> S * bool) (s : S) : outcome S :=
  iterate (ReverseIterator [SendToEthereumKey] st) cb s.

Definition GetUnbatchedSendToEthereums (st : KVStore) : outcome (list SendToEthereum) :=
  IterateUnbatchedSendToEthereums st (fun ste out => (out ++ [ste], false)) [].

End Keeper.

(** ** What the specification says the checkpoint is *)

(** The bytes [GetCheckpoint] hashes: the packed arguments without the
    selector. *)
Definition BatchTx_payload (b : BatchTx) (gravityIDstring : string) : option bytes :=
  ABI.encode (ABI.inputs OutgoingBatchTxCheckpointABI)
             (BatchTx_packArgs b (copy32 (bytes_of_string gravityIDstring))).

Definition LogicCallTx_payload (c : LogicCallTx) (gravityIDstring : string)
  : option bytes :=
  ABI.encode (ABI.inputs OutgoingLogicCallABI)
             (LogicCallTx_packArgs c (copy32 (bytes_of_string gravityIDstring))).

(** The [k]-th 32-byte word of an encoding and the integer it holds. *)
Definition word (k : nat) (payload : bytes) : bytes :=
  firstn 32 (skipn (32 * k) payload).

Definition word_value (k : nat) (payload : bytes) : Z := be_value (word k payload).

(** Section 4.1, step 3, for a batch: chain id, domain tag, array of amounts,
    array of destination addresses, array of fees, nonce, contract address,
    timeout, the arrays in the order of the batch's transactions. *)
Definition batch_tuple (chainId : string) (b : BatchTx) : list ABI.value :=
  [ABI.VBytes32 (copy32 (bytes_of_string chainId));
   ABI.VBytes32 batchMethodName;
   ABI.VBigIntSlice (map (fun tx => Amount (Erc20Token tx)) (b_Transactions b));
   ABI.VAddressSlice (map (fun tx => HexToAddress (EthereumRecipient tx))
                          (b_Transactions b));
   ABI.VBigIntSlice (map (fun tx => Amount (Erc20Fee tx)) (b_Transactions b));
   ABI.VBigInt (b_Nonce b);
   ABI.VAddress (HexToAddress (b_TokenContract b));
   ABI.VBigInt (b_Timeout b)].

(** Steps 4 and 5: encode the tuple, hash with Keccak-256. *)
Definition batch_checkpoint_spec (chainId : string) (b : BatchTx) : option bytes :=
  option_map Keccak.Keccak256
             (ABI.encode (ABI.inputs OutgoingBatchTxCheckpointABI)
                         (batch_tuple chainId b)).

(** ** Pool states and runs of operations *)

Definition fee_of (ste : SendToEthereum) : Z := Amount (Erc20Fee ste).

(** Fees never increase along the list. *)
Definition fee_descending (l : list SendToEthereum) : Prop :=
  StronglySorted (fun a b => fee_of b <= fee_of a) l.

Section Pool.

Variable SendToEthereumKey : Z.
Variable LastSendToEthereumIDKey : Z.
Variable ModuleName : string.
Variable DenomToERC20Lookup : KVStore -> string -> outcome (bool * bytes).
Variable ERC20ToDenomLookup : KVStore -> string -> bool * string.
Variable GravityDenom : string -> string.

(** A store entry as the keeper writes it: a pending request under the key
    made from its own id and fee, or the id counter as 8 bytes. *)
Definition entry_ok (e : bytes * value) : Prop :=
  match snd e with
  | VSend ste =>
      fst e = GetSendToEthereumKey SendToEthereumKey (Id ste) (Erc20Fee ste)
      /\ 0 <= Id ste < 2 ^ 64
  | VRaw bz =>
      fst e = [LastSendToEthereumIDKey]
      /\ exists n, 0 <= n < 2 ^ 64 /\ bz = be_bytes 8 n
  end.

Definition store_sorted (st : KVStore) : Prop :=
  StronglySorted (fun e1 e2 => bytes_lt (fst e1) (fst e2)) st.

Definition pool_ok (st : KVStore) : Prop :=
  store_sorted st /\ Forall entry_ok st.

(** Fees are unsigned integers of at most 256 bits. *)
Definition fees_in_range (st : KVStore) : Prop :=
  Forall (fun e => match snd e with
                   | VSend ste => 0 <= Amount (Erc20Fee ste) < 2 ^ 256
                   | VRaw _ => True
                   end) st.

(** The pending requests of a store and the value of its id counter. *)
Fixpoint pending (st : KVStore) : list SendToEthereum :=
  match st with
  | [] => []
  | (_, VSend ste) :: r => ste :: pending r
  | (_, VRaw _) :: r => pending r
  end.

Definition last_id (st : KVStore) : Z :=
  match store_Get [LastSendToEthereumIDKey] st with
  | Some (VRaw bz) => be_value (firstn 8 bz)
  | _ => 0
  end.

(** Every pending request has an id the counter has already passed, and no
    two share one. *)
Definition pool_inv (st : KVStore) : Prop :=
  pool_ok st
  /\ Forall (fun ste => Id ste <= last_id st) (pending st)
  /\ NoDup (map Id (pending st)).

(** An entry a per-contract iterator meets: a request under its own key,
    which starts with the iterator's prefix, with a fee in range. *)
Definition scoped (contract : bytes) (e : bytes * value) : Prop :=
  exists ste,
    snd e = VSend ste
    /\ fst e = ([SendToEthereumKey] ++ contract)
               ++ be_bytes 32 (fee_of ste) ++ be_bytes 8 (Id ste)
    /\ HexToAddress (Contract (Erc20Fee ste)) = contract
    /\ 0 <= fee_of ste < 2 ^ 256.

(** The request a successful submit puts in the pool. *)
Definition request_of (id : Z) (sender receiver : string) (amount fee : Coin)
           (tokenContract : bytes) : SendToEthereum :=
  {| Id := id;
     Sender := sender;
     EthereumRecipient := receiver;
     Erc20Token := NewSDKIntERC20Token (CoinAmount amount) tokenContract;
     Erc20Fee := NewSDKIntERC20Token (CoinAmount fee) tokenContract |}.

(** The sender's balance a keeper call leaves, the host discarding the
    changes of a call that fails: [before] on an error or a panic. *)
Definition balance_after {A : Type} (r : kresult A) (before : Context)
           (acct denom : string) : Z :=
  match r with
  | KOk ctx' _ => ctx_bank ctx' acct denom
  | _ => ctx_bank before acct denom
  end.

Inductive op : Type :=
| OpSubmit (sender counterpartReceiver : string) (amount fee : Coin)
| OpCancel (send : SendToEthereum).

(** One operation per transaction: a call that fails (error or panic) has
    its changes discarded by the host. The ids the submits returned are
    collected in order. *)
Fixpoint run (ops : list op) (ctx : Context) : Context * list Z :=
  match ops with
  | [] => (ctx, [])
  | OpSubmit sender receiver amount fee :: rest =>
      match CreateSendToEthereum SendToEthereumKey LastSendToEthereumIDKey
              ModuleName DenomToERC20Lookup ctx sender receiver amount fee with
      | KOk ctx' id => let (c, ids) := run rest ctx' in (c, id :: ids)
      | _ => run rest ctx
      end
  | OpCancel send :: rest =>
      match CancelSendToEthereum SendToEthereumKey ModuleName ERC20ToDenomLookup
              GravityDenom ctx send with
      | KOk ctx' _ => run rest ctx'
      | _ => run rest ctx
      end
  end.

Definition is_submit (o : op) : bool :=
  match o with OpSubmit _ _ _ _ => true | OpCancel _ => false end.

(** The callback [cb] made to record, next to its own state, the requests it
    is handed. *)
Definition logged {S : Type} (cb : SendToEthereum -> S -> S * bool)
  : SendToEthereum -> S * list SendToEthereum -> (S * list SendToEthereum) * bool :=
  fun ste st =>
    let (s', stop) := cb ste (fst st) in ((s', snd st ++ [ste]), stop).

End Pool.

(** ** A concrete instance

    Prefix bytes, module name, asset lookups, accounts and messages to run
    the code on. *)
Module Example.

Definition SendToEthereumKey : Z := 9.
Definition LastSendToEthereumIDKey : Z := 10.
Definition ModuleName : string := "gravity".

(** Modelled from the spec: the naming of voucher denominations is not in
    the sources at hand. A foreign-originated asset is represented here by
    mint/burn accounting of a coin of the module (glossary); its denomination
    is taken to be the module's name followed by the contract address. *)
Definition GravityDenom (contract : string) : string := ModuleName ++ contract.

Definition nativeContract : string := "0xCc00000000000000000000000000000000000002".
Definition voucherContract : string := "0x5aAeb6053F3E94C9b9A09f33669435E7Ef1BeAed".

(** The registered native assets: denomination and contract. *)
Definition registry : list (string * string) := [("ufoo", nativeContract)].

Definition GravityDenomToERC20 (denom : string) : option string :=
  if String.prefix (ModuleName ++ "0x") denom
  then Some (substring 7 (String.length denom - 7) denom) else None.

(** Modelled from the spec: [DenomToERC20Lookup] is not in the sources at
    hand. Section 4.3, step 2, resolves a denomination against the registered
    asset mapping: a voucher denomination names its contract and is
    foreign-originated, a registered native denomination has the contract
    deployed for it, anything else is an unknown asset. *)
Definition DenomToERC20Lookup (st : KVStore) (denom : string) : outcome (bool * bytes) :=
  match GravityDenomToERC20 denom with
  | Some c => Ret (false, HexToAddress c)
  | None =>
      match find (fun e => String.eqb (fst e) denom) registry with
      | Some e => Ret (true, HexToAddress (snd e))
      | None => Err "unknown asset"
      end
  end.

(** Modelled from the spec: [ERC20ToDenomLookup] is not in the sources at
    hand. The same mapping read from the contract: a contract registered for
    a native denomination gives that denomination, any other contract its
    voucher denomination. *)
Definition ERC20ToDenomLookup (st : KVStore) (contract : string) : bool * string :=
  match find (fun e => bytes_eqb (HexToAddress (snd e)) (HexToAddress contract))
             registry with
  | Some e => (true, fst e)
  | None => (false, GravityDenom contract)
  end.

Definition Create := CreateSendToEthereum SendToEthereumKey LastSendToEthereumIDKey
                       ModuleName DenomToERC20Lookup.
Definition Cancel := CancelSendToEthereum SendToEthereumKey ModuleName
                       ERC20ToDenomLookup GravityDenom.
Definition runOps := run SendToEthereumKey LastSendToEthereumIDKey ModuleName
                       DenomToERC20Lookup ERC20ToDenomLookup GravityDenom.

Definition alice : string := "cosmos1alice".

(** Alice holds 200 of the native [ufoo] and 200 vouchers. *)
Definition bank0 : Bank :=
  fun a d =>
    if String.eqb a alice
       && (String.eqb d "ufoo" || String.eqb d (GravityDenom voucherContract))
    then 200 else 0.

Definition ctx0 : Context := {| ctx_store := []; ctx_bank := bank0 |}.

Definition coin (d : string) (n : Z) : Coin := {| Denom := d; CoinAmount := n |}.

(** The request a submit leaves in the pool, read back through the
    iterator. *)
Definition firstPending (ctx : Context) : option SendToEthereum :=
  match GetUnbatchedSendToEthereums SendToEthereumKey (ctx_store ctx) with
  | Ret (ste :: _) => Some ste
  | _ => None
  end.

(** A store whose id counter is two short of the largest [uint64]. *)
Definition ctxNearMax : Context :=
  {| ctx_store := [([LastSendToEthereumIDKey], VRaw (be_bytes 8 (2 ^ 64 - 2)))];
     ctx_bank := bank0 |}.

Definition emptyBatch (nonce : Z) : BatchTx :=
  {| b_Nonce := nonce; b_Timeout := 0; b_Transactions := [];
     b_TokenContract := nativeContract |}.

Definition batch1 : BatchTx :=
  {| b_Nonce := 7; b_Timeout := 1000;
     b_Transactions :=
       [ {| Id := 1; Sender := alice;
            EthereumRecipient := "0xEF00000000000000000000000000000000000001";
            Erc20Token := {| Contract := nativeContract; Amount := 100 |};
            Erc20Fee := {| Contract := nativeContract; Amount := 5 |} |} ];
     b_TokenContract := nativeContract |}.

Definition call1 : LogicCallTx :=
  {| c_Tokens := [coin nativeContract 100]; c_Fees := [coin nativeContract 5];
     c_LogicContractAddress := voucherContract;
     c_Payload := [1; 2; 3];
     c_Timeout := 1000;
     c_InvalidationId := [7];
     c_InvalidationNonce := 1 |}.

Definition recipient : string := "0xEF00000000000000000000000000000000000001".

(** The request the first submit of 100 + 5 vouchers leaves in the pool. *)
Definition voucherRequest1 : SendToEthereum :=
  {| Id := 1; Sender := alice; EthereumRecipient := recipient;
     Erc20Token := {| Contract := voucherContract; Amount := 100 |};
     Erc20Fee := {| Contract := voucherContract; Amount := 5 |} |}.

Definition ops3 : list op :=
  [OpSubmit alice recipient (coin (GravityDenom voucherContract) 100)
            (coin (GravityDenom voucherContract) 5);
   OpCancel voucherRequest1;
   OpSubmit alice recipient (coin "ufoo" 10) (coin "ufoo" 1)].

Definition ops2 : list op :=
  [OpSubmit alice recipient (coin "ufoo" 10) (coin "ufoo" 1);
   OpSubmit alice recipient (coin "ufoo" 10) (coin "ufoo" 1)].

(** A pool with three requests for the native contract, fees 5, 7 and 5. *)
Definition ops567 : list op :=
  [OpSubmit alice recipient (coin "ufoo" 10) (coin "ufoo" 5);
   OpSubmit alice recipient (coin "ufoo" 10) (coin "ufoo" 7);
   OpSubmit alice recipient (coin "ufoo" 10) (coin "ufoo" 5)].

Definition store567 : KVStore := ctx_store (fst (runOps ops567 ctx0)).

(** Alice holds 200 of every denomination. *)
Definition bankAll : Bank := fun a _ => if String.eqb a alice then 200 else 0.

Definition ctxAll : Context := {| ctx_store := []; ctx_bank := bankAll |}.

(** The lookup of a chain on which the one registered asset is the native
    [denom], with the native contract deployed for it. *)
Definition nativeLookup (denom : string) (st : KVStore) (d : string)
  : outcome (bool * bytes) :=
  if String.eqb d denom then Ret (true, HexToAddress nativeContract)
  else Err "unknown asset".

Definition longId : string := "a-chain-identifier-of-33-bytes-xx".

(** Stand-ins for the two address checks, to run [Validate] on: an account
    address starts with the chain's prefix, an Ethereum address is [0x] and
    40 hex digits. *)
Definition AccAddressFromBech32 (s : string) : bool := String.prefix "cosmos1" s.
Definition ValidateEthAddress (s : string) : option string :=
  if has0xPrefix s && (String.length s =? 42)%nat
     && is_hex (substring 2 40 s)
  then None else Some "invalid address".

Definition valset1 : ConfirmValset :=
  {| cv_Nonce := 1; cv_OrchestratorAddress := alice;
     cv_EthAddress := voucherContract; cv_Signature := "not-hex" |}.

Definition confirmBatch1 : ConfirmBatch :=
  {| cb_Nonce := 0; cb_TokenContract := nativeContract;
     cb_EthSigner := voucherContract; cb_OrchestratorAddress := alice;
     cb_Signature := "0a1b" |}.

Definition confirmCall1 : ConfirmLogicCall :=
  {| cl_InvalidationId := ""; cl_InvalidationNonce := 0;
     cl_EthSigner := voucherContract; cl_OrchestratorAddress := alice;
     cl_Signature := "0a1b" |}.

(** [batch1] with other ids, another sender, other token contract strings
    on the transactions and the addresses spelled differently. *)
Definition batch1b : BatchTx :=
  {| b_Nonce := 7; b_Timeout := 1000;
     b_Transactions :=
       [ {| Id := 99; Sender := "cosmos1bob";
            EthereumRecipient := "ef00000000000000000000000000000000000001";
            Erc20Token := {| Contract := voucherContract; Amount := 100 |};
            Erc20Fee := {| Contract := ""; Amount := 5 |} |} ];
     b_TokenContract := "0XCC00000000000000000000000000000000000002" |}.

(** [call1] with the invalidation id zero-padded by hand. *)
Definition call1b : LogicCallTx :=
  {| c_Tokens := [coin "cc00000000000000000000000000000000000002" 100];
     c_Fees := [coin nativeContract 5];
     c_LogicContractAddress := voucherContract;
     c_Payload := [1; 2; 3];
     c_Timeout := 1000;
     c_InvalidationId := [7; 0; 0];
     c_InvalidationNonce := 1 |}.

(** Two submits for the native contract, the first with a negative fee (the
    total, 13, is positive), and the pool they leave. *)
Definition opsNegativeFee : list op :=
  [OpSubmit alice recipient (coin "ufoo" 20) (coin "ufoo" (-7));
   OpSubmit alice recipient (coin "ufoo" 10) (coin "ufoo" 5)].

Definition storeNegativeFee : KVStore := ctx_store (fst (runOps opsNegativeFee ctx0)).

(** [confirmBatch1] with its signature written with a [0x] prefix. *)
Definition confirmBatch0x : ConfirmBatch :=
  {| cb_Nonce := 0; cb_TokenContract := nativeContract;
     cb_EthSigner := voucherContract; cb_OrchestratorAddress := alice;
     cb_Signature := "0x0a1b" |}.

(** The state after Alice's submit of 100 + 5 vouchers, and the state after
    the cancel of the request it made. *)
Definition ctxVoucher1 : Context :=
  match Create ctx0 alice recipient (coin (GravityDenom voucherContract) 100)
               (coin (GravityDenom voucherContract) 5) with
  | KOk c _ => c
  | _ => ctx0
  end.

Definition ctxVoucher2 : Context :=
  match Cancel ctxVoucher1 voucherRequest1 with
  | KOk c _ => c
  | _ => ctxVoucher1
  end.

End Example.

(** ** What the two checkpoints read of their artifact *)

(** The tuple [LogicCallTx.GetCheckpoint] encodes, written with maps: chain
    id, method name, transfer amounts, transfer token addresses, fee amounts,
    fee token addresses, logic contract, payload, timeout, invalidation id,
    invalidation nonce. *)
Definition call_tuple (chainId : string) (c : LogicCallTx) : list ABI.value :=
  [ABI.VBytes32 (copy32 (bytes_of_string chainId));
   ABI.VBytes32 logicCallMethodName;
   ABI.VBigIntSlice (map CoinAmount (c_Tokens c));
   ABI.VAddressSlice (map (fun tx => HexToAddress (Denom tx)) (c_Tokens c));
   ABI.VBigIntSlice (map CoinAmount (c_Fees c));
   ABI.VAddressSlice (map (fun tx => HexToAddress (Denom tx)) (c_Fees c));
   ABI.VAddress (HexToAddress (c_LogicContractAddress c));
   ABI.VByteSlice (c_Payload c);
   ABI.VBigInt (c_Timeout c);
   ABI.VBytes32 (copy32 (c_InvalidationId c));
   ABI.VBigInt (c_InvalidationNonce c)].

Definition call_checkpoint_spec (chainId : string) (c : LogicCallTx) : option bytes :=
  option_map Keccak.Keccak256
             (ABI.encode (ABI.inputs OutgoingLogicCallABI) (call_tuple chainId c)).

(** What the batch checkpoint reads of a transaction: the amount and the fee
    as 256-bit words and the recipient as an address; not its id, its sender
    or the contract strings of its two tokens. *)
Definition tx_view (tx : SendToEthereum) : Z * bytes * Z :=
  (Amount (Erc20Token tx) mod 2 ^ 256,
   HexToAddress (EthereumRecipient tx),
   Amount (Erc20Fee tx) mod 2 ^ 256).

Definition batch_view (gravityID : string) (b : BatchTx)
  : bytes * Z * bytes * Z * list (Z * bytes * Z) :=
  (copy32 (bytes_of_string gravityID),
   int64_of_uint64 (b_Nonce b) mod 2 ^ 256,
   HexToAddress (b_TokenContract b),
   int64_of_uint64 (b_Timeout b) mod 2 ^ 256,
   map tx_view (b_Transactions b)).

Definition coin_view (c : Coin) : Z * bytes :=
  (CoinAmount c mod 2 ^ 256, HexToAddress (Denom c)).

Definition call_view (gravityID : string) (c : LogicCallTx)
  : bytes * list (Z * bytes) * list (Z * bytes) * bytes * bytes * Z * bytes * Z :=
  (copy32 (bytes_of_string gravityID),
   map coin_view (c_Tokens c),
   map coin_view (c_Fees c),
   HexToAddress (c_LogicContractAddress c),
   c_Payload c,
   int64_of_uint64 (c_Timeout c) mod 2 ^ 256,
   copy32 (c_InvalidationId c),
   int64_of_uint64 (c_InvalidationNonce c) mod 2 ^ 256).

(** The bytes hashed, computed from the view alone. *)
Definition batch_payload_of_view (v : bytes * Z * bytes * Z * list (Z * bytes * Z))
  : option bytes :=
  let '(g, n, tc, t, txs) := v in
  ABI.encode (ABI.inputs OutgoingBatchTxCheckpointABI)
    [ABI.VBytes32 g;
     ABI.VBytes32 batchMethodName;
     ABI.VBigIntSlice (map (fun x => fst (fst x)) txs);
     ABI.VAddressSlice (map (fun x => snd (fst x)) txs);
     ABI.VBigIntSlice (map snd txs);
     ABI.VBigInt n;
     ABI.VAddress tc;
     ABI.VBigInt t].

Definition call_payload_of_view
           (v : bytes * list (Z * bytes) * list (Z * bytes) * bytes * bytes * Z
                * bytes * Z) : option bytes :=
  let '(g, tokens, fees, lc, payload, t, inv, n) := v in
  ABI.encode (ABI.inputs OutgoingLogicCallABI)
    [ABI.VBytes32 g;
     ABI.VBytes32 logicCallMethodName;
     ABI.VBigIntSlice (map fst tokens);
     ABI.VAddressSlice (map snd tokens);
     ABI.VBigIntSlice (map fst fees);
     ABI.VAddressSlice (map snd fees);
     ABI.VAddress lc;
     ABI.VByteSlice payload;
     ABI.VBigInt t;
     ABI.VBytes32 inv;
     ABI.VBigInt n].

(** Every character is a hex digit. *)
Fixpoint all_hex (s : string) : bool :=
  match s with
  | EmptyString => true
  | String c r =>
      match hex_digit c with
      | Some _ => all_hex r
      | None => false
      end
  end.

(** Fees never increase along the list, and among equal fees ids
    decrease. *)
Definition fee_then_id_descending (l : list SendToEthereum) : Prop :=
  StronglySorted
    (fun a b => fee_of b < fee_of a \/ (fee_of b = fee_of a /\ Id b < Id a)) l.

(** ** The v2 upgrade: gravity denominations normalized in the bank

    [normalizeGravityDenoms] runs against the bank keeper. The two
    iterators of the keeper hand their callbacks the coins of the total
    supply and the balances, account by account; the sequences they hand
    out are arguments here, [supply] and [balances]. *)

(** [module.VersionMap], a Go map from module name to version. *)
Definition VersionMap : Type := string -> option Z.

Definition vm_set (m : VersionMap) (name : string) (v : Z) : VersionMap :=
  fun n => if String.eqb n name then Some v else m n.

(** [denomsToRepair], a Go [map[string]string]: a write puts the pair in
    front, a read finds the latest write. *)
Definition map_set (m : list (string * string)) (k v : string)
  : list (string * string) := (k, v) :: m.

Fixpoint map_get (m : list (string * string)) (k : string) : option string :=
  match m with
  | [] => None
  | (k', v) :: r => if String.eqb k k' then Some v else map_get r k
  end.

Section Upgrade.

(** Declared outside the sources at hand and taken as parameters: the
    module's name, [gravitytypes.NormalizeDenom], the SDK's check of a
    denomination ([sdk.ValidateDenom], which [sdk.NewCoin] calls) and the
    module manager's [RunMigrations]. *)
Variable ModuleName : string.
Variable NormalizeDenom : string -> string.
Variable ValidateDenom : string -> bool.
Variable RunMigrations : Bank -> VersionMap -> outcome (Bank * VersionMap).

(** [sdk.NewCoin]: panics on an invalid denomination or a negative
    amount. *)
Definition NewCoin (denom : string) (amount : Z) : outcome Coin :=
  if negb (ValidateDenom denom) then Panic "invalid denom"
  else if amount <? 0 then Panic "negative coin amount"
  else Ret {| Denom := denom; CoinAmount := amount |}.

(** The callback of [IterateTotalSupply]: a denomination that is not its
    own normalization is entered in the map. *)
Definition collectRepair (denomsToRepair : list (string * string)) (supply : Coin)
  : list (string * string) :=
  let normalizedDenom := NormalizeDenom (Denom supply) in
  if negb (String.eqb normalizedDenom (Denom supply))
  then map_set denomsToRepair (Denom supply) normalizedDenom
  else denomsToRepair.

(** The body of the callback of [IterateAllBalances] for a balance whose
    denomination is in the map: to the module, burnt, minted under the
    normalized denomination, back to the account; every error is passed to
    [panic]. *)
Definition repairBalance (bank : Bank) (addr : string) (coin : Coin)
           (normalizedDenom : string) : outcome Bank :=
  match NewCoins coin with
  | Err e | Panic e => Panic e
  | Ret oldCoins =>
  match SendCoinsFromAccountToModule bank addr ModuleName oldCoins with
  | Err e | Panic e => Panic e
  | Ret bank1 =>
  match BurnCoins bank1 ModuleName oldCoins with
  | Err e | Panic e => Panic e
  | Ret bank2 =>
  match NewCoin normalizedDenom (CoinAmount coin) with
  | Err e | Panic e => Panic e
  | Ret normalizedCoin =>
  match NewCoins normalizedCoin with
  | Err e | Panic e => Panic e
  | Ret normalizedCoins =>
  match MintCoins bank2 ModuleName normalizedCoins with
  | Err e | Panic e => Panic e
  | Ret bank3 =>
  match SendCoinsFromModuleToAccount bank3 ModuleName addr normalizedCoins with
  | Err e | Panic e => Panic e
  | Ret bank4 => Ret bank4
  end end end end end end end.

(** The second loop: the callback never asks to stop. *)
Fixpoint repairBalances (denomsToRepair : list (string * string))
         (balances : list (string * Coin)) (bank : Bank) : outcome Bank :=
  match balances with
  | [] => Ret bank
  | (addr, coin) :: rest =>
      match map_get denomsToRepair (Denom coin) with
      | Some normalizedDenom =>
          match repairBalance bank addr coin normalizedDenom with
          | Ret bank' => repairBalances denomsToRepair rest bank'
          | Err e | Panic e => Panic e
          end
      | None => repairBalances denomsToRepair rest bank
      end
  end.

Definition normalizeGravityDenoms (supply : list Coin)
           (balances : list (string * Coin)) (bank : Bank) : outcome Bank :=
  let denomsToRepair := fold_left collectRepair supply [] in
  repairBalances denomsToRepair balances bank.

(** The handler [CreateUpgradeHandler] returns, for a module manager whose
    modules have the names and consensus versions [modules]: the plan and
    the version map it is called with are not read. *)
Definition CreateUpgradeHandler (modules : list (string * Z))
           (supply : list Coin) (balances : list (string * Coin))
           (bank : Bank) (plan : string) (vm : VersionMap)
  : outcome (Bank * VersionMap) :=
  let fromVM :=
    fold_left (fun m e => vm_set m (fst e) (snd e)) modules (fun _ => None) in
  let fromVM := vm_set fromVM ModuleName 1 in
  match normalizeGravityDenoms supply balances bank with
  | Err e | Panic e => Panic e
  | Ret bank' => RunMigrations bank' fromVM
  end.

(** The denominations the first loop enters in the map, read off the
    supply: those that are not their own normalization. *)
Definition toRepair (supply : list Coin) (denom : string) : option string :=
  if existsb (fun c => String.eqb denom (Denom c)) supply
     && negb (String.eqb (NormalizeDenom denom) denom)
  then Some (NormalizeDenom denom) else None.

(** What the repairs move into ([+]) and out of ([-]) the balance of
    account [a] in denomination [d]. *)
Fixpoint moved (repairs : string -> option string)
         (balances : list (string * Coin)) (a d : string) : Z :=
  match balances with
  | [] => 0
  | (addr, coin) :: rest =>
      match repairs (Denom coin) with
      | Some nd =>
          (if String.eqb a addr && String.eqb d nd then CoinAmount coin else 0)
          - (if String.eqb a addr && String.eqb d (Denom coin)
             then CoinAmount coin else 0)
      | None => 0
      end + moved repairs rest a d
  end.

End Upgrade.

(** An instance of the upgrade to run: denominations are normalized by
    lower-casing the hex digits [A] to [F] written in them; Bob holds 30
    of a voucher written in upper case. *)
Module UpgradeExample.

Definition lower (c : ascii) : ascii :=
  let n := byte_of_ascii c in
  if (65 <=? n) && (n <=? 70) then ascii_of_N (Z.to_N (n + 32)) else c.

Fixpoint NormalizeDenom (s : string) : string :=
  match s with
  | EmptyString => EmptyString
  | String c r => String (lower c) (NormalizeDenom r)
  end.

Definition ValidateDenom (s : string) : bool := (3 <=? String.length s)%nat.

Definition bob : string := "cosmos1bob".

Definition oldDenom : string := "gravity0xAB".

Definition bank : Bank :=
  fun a d =>
    if String.eqb a bob && String.eqb d oldDenom then 30
    else if String.eqb a bob && String.eqb d "ufoo" then 7
    else 0.

Definition supply : list Coin :=
  [ {| Denom := oldDenom; CoinAmount := 30 |};
    {| Denom := "ufoo"; CoinAmount := 7 |} ].

Definition balances : list (string * Coin) :=
  [ (bob, {| Denom := oldDenom; CoinAmount := 30 |});
    (bob, {| Denom := "ufoo"; CoinAmount := 7 |}) ].

Definition normalized : Bank :=
  match normalizeGravityDenoms "gravity" NormalizeDenom ValidateDenom
                               supply balances bank with
  | Ret b => b
  | _ => bank
  end.

End UpgradeExample.

(** * Properties *)

Arguments Keccak.Keccak256 : simpl never.
Arguments ABI.ID : simpl never.
Arguments HexToAddress : simpl never.
Arguments be_bytes : simpl never.
Arguments copy32 : simpl never.

(** ** Keccak-256 on known inputs *)

Lemma Keccak256_empty :
  be_value (Keccak.Keccak256 [])
  = 0xc5d2460186f7233c927e7db2dcc703c0e500b653ca82273b7bfad8045d85a470.
Proof. vm_compute. reflexivity. Qed.

Lemma Keccak256_abc :
  be_value (Keccak.Keccak256 (bytes_of_string "abc"))
  = 0x4e03657aea45a94fc7d47ba826c8d667c0d1e6e33a64a036ec44f58fa12d6c45.
Proof. vm_compute. reflexivity. Qed.

(** The selector of [transfer(address,uint256)] and the mixed-case form of
    an address, as published. *)
Lemma selector_transfer :
  be_value (ABI.ID {| ABI.name := "transfer";
                      ABI.inputs := [ABI.TAddress; ABI.TUint256] |})
  = 0xa9059cbb.
Proof. vm_compute. reflexivity. Qed.

Lemma Address_Hex_checksum :
  Address_Hex (HexToAddress "0x5aaeb6053f3e94c9b9a09f33669435e7ef1beaed")
  = "0x5aAeb6053F3E94C9b9A09f33669435E7Ef1BeAed".
Proof. vm_compute. reflexivity. Qed.

(** ** Lengths *)

Lemma be_bytes_length (n : nat) (v : Z) : length (be_bytes n v) = n.
Proof.
  induction n as [|n IH]; [reflexivity|].
  change (be_bytes (S n) v) with ((v / 256 ^ Z.of_nat n) mod 256 :: be_bytes n v).
  simpl. now rewrite IH.
Qed.

Lemma Keccak256_length (msg : bytes) : length (Keccak.Keccak256 msg) = 32%nat.
Proof.
  unfold Keccak.Keccak256. now rewrite length_map, length_seq.
Qed.

Lemma copy32_length (src : bytes) : length (copy32 src) = 32%nat.
Proof.
  unfold copy32. rewrite length_app, length_firstn, repeat_length. lia.
Qed.

Lemma BytesToAddress_length (b : bytes) : length (BytesToAddress b) = AddressLength.
Proof.
  unfold BytesToAddress, AddressLength.
  rewrite length_app, repeat_length, length_skipn. lia.
Qed.

Lemma HexToAddress_length (s : string) : length (HexToAddress s) = 20%nat.
Proof. apply BytesToAddress_length. Qed.

Lemma ID_length (m : ABI.method) : length (ABI.ID m) = 4%nat.
Proof.
  unfold ABI.ID. rewrite length_firstn, Keccak256_length. reflexivity.
Qed.

Lemma skipn_selector (m : ABI.method) (enc : bytes) :
  skipn 4 (ABI.ID m ++ enc) = enc.
Proof.
  rewrite skipn_app, ID_length.
  rewrite (skipn_all2 (ABI.ID m)) by (rewrite ID_length; lia).
  reflexivity.
Qed.

(** ** The slice-filling loops compute maps *)

Lemma store_at_app {A : Type} (pre : list A) (x y : A) (r : list A) :
  store_at (length pre) x (pre ++ y :: r) = pre ++ x :: r.
Proof.
  induction pre as [|p pre IH]; simpl; [reflexivity | now rewrite IH].
Qed.

Lemma range_loop_fill {A B : Type} (f : A -> B) (d : B) (l : list A) :
  forall pre : list B,
    range_loop (fun i x arr => store_at i (f x) arr) (length pre) l
               (pre ++ repeat d (length l))
    = pre ++ map f l.
Proof.
  induction l as [|x l IH]; intro pre; simpl.
  - reflexivity.
  - rewrite store_at_app.
    replace (pre ++ f x :: repeat d (length l))
      with ((pre ++ [f x]) ++ repeat d (length l))
      by (rewrite <- app_assoc; reflexivity).
    replace (S (length pre)) with (length (pre ++ [f x]))
      by (rewrite length_app; simpl; lia).
    rewrite IH, <- app_assoc. reflexivity.
Qed.

Lemma range_loop_make {A B : Type} (f : A -> B) (d : B) (l : list A) :
  range_loop (fun i x arr => store_at i (f x) arr) 0 l (repeat d (length l))
  = map f l.
Proof. exact (range_loop_fill f d l []). Qed.

Lemma batch_loop_split (l : list SendToEthereum) :
  forall i a d f,
    range_loop batch_loop_body i l (a, d, f)
    = (range_loop (fun i tx arr => store_at i (Amount (Erc20Token tx)) arr) i l a,
       range_loop (fun i tx arr => store_at i (HexToAddress (EthereumRecipient tx)) arr)
                  i l d,
       range_loop (fun i tx arr => store_at i (Amount (Erc20Fee tx)) arr) i l f).
Proof.
  induction l as [|x l IH]; intros i a d f; simpl; [reflexivity | apply IH].
Qed.

Lemma call_loop_split (l : list Coin) :
  forall i a d,
    range_loop call_loop_body i l (a, d)
    = (range_loop (fun i tx arr => store_at i (CoinAmount tx) arr) i l a,
       range_loop (fun i tx arr => store_at i (HexToAddress (Denom tx)) arr) i l d).
Proof.
  induction l as [|x l IH]; intros i a d; simpl; [reflexivity | apply IH].
Qed.

Lemma BatchTx_packArgs_eq (b : BatchTx) (g : bytes) :
  BatchTx_packArgs b g
  = [ABI.VBytes32 g;
     ABI.VBytes32 batchMethodName;
     ABI.VBigIntSlice (map (fun tx => Amount (Erc20Token tx)) (b_Transactions b));
     ABI.VAddressSlice (map (fun tx => HexToAddress (EthereumRecipient tx))
                            (b_Transactions b));
     ABI.VBigIntSlice (map (fun tx => Amount (Erc20Fee tx)) (b_Transactions b));
     ABI.VBigInt (int64_of_uint64 (b_Nonce b));
     ABI.VAddress (HexToAddress (b_TokenContract b));
     ABI.VBigInt (int64_of_uint64 (b_Timeout b))].
Proof.
  unfold BatchTx_packArgs.
  rewrite batch_loop_split, !range_loop_make. reflexivity.
Qed.

Lemma LogicCallTx_packArgs_eq (c : LogicCallTx) (g : bytes) :
  LogicCallTx_packArgs c g
  = [ABI.VBytes32 g;
     ABI.VBytes32 logicCallMethodName;
     ABI.VBigIntSlice (map CoinAmount (c_Tokens c));
     ABI.VAddressSlice (map (fun tx => HexToAddress (Denom tx)) (c_Tokens c));
     ABI.VBigIntSlice (map CoinAmount (c_Fees c));
     ABI.VAddressSlice (map (fun tx => HexToAddress (Denom tx)) (c_Fees c));
     ABI.VAddress (HexToAddress (c_LogicContractAddress c));
     ABI.VByteSlice (c_Payload c);
     ABI.VBigInt (int64_of_uint64 (c_Timeout c));
     ABI.VBytes32 (copy32 (c_InvalidationId c));
     ABI.VBigInt (int64_of_uint64 (c_InvalidationNonce c))].
Proof.
  unfold LogicCallTx_packArgs.
  rewrite !call_loop_split, !range_loop_make. reflexivity.
Qed.

Lemma int64_of_uint64_small (x : Z) : x < 2 ^ 63 -> int64_of_uint64 x = x.
Proof.
  intro H. unfold int64_of_uint64.
  destruct (Z.ltb_spec x (2 ^ 63)); [reflexivity | lia].
Qed.

Lemma strToFixByteArray_fits (s : string) :
  (String.length s <= 32)%nat ->
  strToFixByteArray s = Ret (copy32 (bytes_of_string s)).
Proof.
  intro H. unfold strToFixByteArray.
  destruct (Nat.ltb_spec 32 (String.length s)); [lia | reflexivity].
Qed.

Lemma strToFixByteArray_long (s : string) :
  (32 < String.length s)%nat -> strToFixByteArray s = Err "string too long".
Proof.
  intro H. unfold strToFixByteArray.
  destruct (Nat.ltb_spec 32 (String.length s)); [reflexivity | lia].
Qed.

(** The checkpoint is the hash of the payload, whenever the identifier
    fits. *)
Lemma BatchTx_GetCheckpoint_payload (b : BatchTx) (gid : string) :
  (String.length gid <= 32)%nat ->
  exists p, BatchTx_payload b gid = Some p
            /\ BatchTx_GetCheckpoint b gid = Ret (Keccak.Keccak256 p).
Proof.
  intro Hfit. unfold BatchTx_GetCheckpoint, BatchTx_payload.
  rewrite (strToFixByteArray_fits _ Hfit).
  unfold ABI.Pack.
  change (String.eqb "submitBatch" (ABI.name OutgoingBatchTxCheckpointABI)) with true.
  cbv iota.
  rewrite BatchTx_packArgs_eq.
  match goal with
  | |- context [ABI.encode ?ts ?vs] =>
      destruct (ABI.encode ts vs) as [enc|] eqn:E; [|discriminate E]
  end.
  exists enc. split; [reflexivity|].
  now rewrite skipn_selector.
Qed.

Lemma LogicCallTx_GetCheckpoint_payload (c : LogicCallTx) (gid : string) :
  (String.length gid <= 32)%nat ->
  exists p, LogicCallTx_payload c gid = Some p
            /\ LogicCallTx_GetCheckpoint c gid = Ret (Keccak.Keccak256 p).
Proof.
  intro Hfit. unfold LogicCallTx_GetCheckpoint, LogicCallTx_payload.
  rewrite (strToFixByteArray_fits _ Hfit).
  unfold ABI.Pack.
  change (String.eqb "checkpoint" (ABI.name OutgoingLogicCallABI)) with true.
  cbv iota.
  rewrite LogicCallTx_packArgs_eq.
  match goal with
  | |- context [ABI.encode ?ts ?vs] =>
      destruct (ABI.encode ts vs) as [enc|] eqn:E; [|discriminate E]
  end.
  exists enc. split; [reflexivity|].
  now rewrite skipn_selector.
Qed.

(** ** Big-endian words *)

Lemma be_bytes_S (n : nat) (v : Z) :
  be_bytes (S n) v = (v / 256 ^ Z.of_nat n) mod 256 :: be_bytes n v.
Proof. reflexivity. Qed.

Lemma be_value_fold (n : nat) (v : Z) :
  forall acc,
    fold_left (fun a b => a * 256 + b) (be_bytes n v) acc
    = acc * 256 ^ Z.of_nat n + v mod 256 ^ Z.of_nat n.
Proof.
  induction n as [|n IH]; intro acc.
  - simpl. rewrite Z.mod_1_r. lia.
  - rewrite be_bytes_S. simpl fold_left. rewrite IH.
    rewrite Nat2Z.inj_succ, Z.pow_succ_r by lia.
    rewrite (Z.mul_comm 256 (256 ^ Z.of_nat n)).
    rewrite (Z.rem_mul_r v (256 ^ Z.of_nat n) 256) by lia.
    ring.
Qed.

Lemma be_value_be_bytes (n : nat) (v : Z) :
  be_value (be_bytes n v) = v mod 256 ^ Z.of_nat n.
Proof. unfold be_value. rewrite be_value_fold. lia. Qed.

Lemma be_value_U256Bytes (z : Z) : be_value (ABI.U256Bytes z) = z mod 2 ^ 256.
Proof.
  unfold ABI.U256Bytes. rewrite be_value_be_bytes.
  change (256 ^ Z.of_nat 32) with (2 ^ 256).
  apply Z.mod_mod. lia.
Qed.

Lemma U256Bytes_length (z : Z) : length (ABI.U256Bytes z) = 32%nat.
Proof. apply be_bytes_length. Qed.

Lemma RightPad32_full (b : bytes) : length b = 32%nat -> ABI.RightPad 32 b = b.
Proof.
  intro H. unfold ABI.RightPad. rewrite H. simpl. apply app_nil_r.
Qed.

Lemma LeftPad32_length (b : bytes) :
  (length b <= 32)%nat -> length (ABI.LeftPad32 b) = 32%nat.
Proof.
  intro H. unfold ABI.LeftPad32. rewrite length_app, repeat_length. lia.
Qed.

Lemma word_0 (w rest : bytes) : length w = 32%nat -> word 0 (w ++ rest) = w.
Proof.
  intro H. unfold word. change (skipn (32 * 0) (w ++ rest)) with (w ++ rest).
  rewrite firstn_app, H.
  rewrite firstn_all2 by lia.
  replace (32 - 32)%nat with 0%nat by lia. apply app_nil_r.
Qed.

Lemma word_S (k : nat) (w rest : bytes) :
  length w = 32%nat -> word (S k) (w ++ rest) = word k rest.
Proof.
  intro H. unfold word.
  replace (32 * S k)%nat with (32 * k + 32)%nat by lia.
  rewrite <- skipn_skipn, skipn_app, H.
  rewrite (@skipn_all2 _ 32 w) by lia.
  replace (32 - 32)%nat with 0%nat by lia. reflexivity.
Qed.

Lemma Some_eq {A : Type} (x y : A) : Some x = Some y -> x = y.
Proof. intro H. exact (f_equal (fun o => match o with Some z => z | None => x end) H). Qed.

Ltac word_len :=
  first [ apply U256Bytes_length
        | apply copy32_length
        | apply LeftPad32_length; rewrite HexToAddress_length; lia
        | rewrite RightPad32_full; apply copy32_length
        | unfold ABI.packNum; apply U256Bytes_length ].

(** Step to the [k]-th head word of an encoding whose head words are laid
    out one after the other. *)
Ltac nth_word :=
  repeat (rewrite word_S by word_len);
  rewrite word_0 by word_len.

Lemma BatchTx_payload_words (b : BatchTx) (gid : string) (p : bytes) :
  BatchTx_payload b gid = Some p ->
  word 0 p = copy32 (bytes_of_string gid)
  /\ word 1 p = batchMethodName
  /\ word 5 p = ABI.U256Bytes (int64_of_uint64 (b_Nonce b))
  /\ word 7 p = ABI.U256Bytes (int64_of_uint64 (b_Timeout b)).
Proof.
  unfold BatchTx_payload. rewrite BatchTx_packArgs_eq.
  cbn [ABI.encode ABI.inputs OutgoingBatchTxCheckpointABI ABI.packArgs
       ABI.pack ABI.isDynamic].
  intro H. apply Some_eq in H. subst p.
  rewrite <- !app_assoc.
  rewrite !RightPad32_full by apply copy32_length.
  repeat split; nth_word; reflexivity.
Qed.

Lemma LogicCallTx_payload_words (c : LogicCallTx) (gid : string) (p : bytes) :
  LogicCallTx_payload c gid = Some p ->
  word 0 p = copy32 (bytes_of_string gid)
  /\ word 1 p = logicCallMethodName
  /\ word 8 p = ABI.U256Bytes (int64_of_uint64 (c_Timeout c))
  /\ word 10 p = ABI.U256Bytes (int64_of_uint64 (c_InvalidationNonce c)).
Proof.
  unfold LogicCallTx_payload. rewrite LogicCallTx_packArgs_eq.
  cbn [ABI.encode ABI.inputs OutgoingLogicCallABI ABI.packArgs
       ABI.pack ABI.isDynamic].
  intro H. apply Some_eq in H. subst p.
  rewrite <- !app_assoc.
  rewrite !RightPad32_full by apply copy32_length.
  repeat split; nth_word; reflexivity.
Qed.

(** ** Checkpoints *)

Lemma batch_tuple_packArgs (b : BatchTx) (gid : string) :
  b_Nonce b < 2 ^ 63 -> b_Timeout b < 2 ^ 63 ->
  batch_tuple gid b = BatchTx_packArgs b (copy32 (bytes_of_string gid)).
Proof.
  intros Hn Ht. rewrite BatchTx_packArgs_eq. unfold batch_tuple.
  now rewrite (int64_of_uint64_small _ Hn), (int64_of_uint64_small _ Ht).
Qed.

(** C1 (amended): for every BatchTx whose chain identifier fits in 32 bytes
    and whose nonce and timeout are below 2^63, [GetCheckpoint] returns the
    32-byte Keccak-256 hash of the ABI encoding, selector dropped, of the
    tuple (chain id, domain tag, amounts, destinations, fees, nonce, contract,
    timeout), the arrays in the order of the batch's transactions. *)
Theorem BatchTx_GetCheckpoint_spec (b : BatchTx) (gid : string) :
  (String.length gid <= 32)%nat ->
  b_Nonce b < 2 ^ 63 ->
  b_Timeout b < 2 ^ 63 ->
  exists digest,
    batch_checkpoint_spec gid b = Some digest
    /\ BatchTx_GetCheckpoint b gid = Ret digest
    /\ length digest = 32%nat.
Proof.
  intros Hfit Hn Ht.
  destruct (BatchTx_GetCheckpoint_payload b gid Hfit) as [p [Hp Hc]].
  exists (Keccak.Keccak256 p). split; [|split].
  - unfold batch_checkpoint_spec.
    rewrite (batch_tuple_packArgs b gid Hn Ht).
    unfold BatchTx_payload in Hp. now rewrite Hp.
  - exact Hc.
  - apply Keccak256_length.
Qed.

Lemma BatchTx_GetCheckpoint_spec_witness :
  ((String.length "testchain" <= 32)%nat
   /\ b_Nonce Example.batch1 < 2 ^ 63 /\ b_Timeout Example.batch1 < 2 ^ 63)
  /\ exists digest,
      batch_checkpoint_spec "testchain" Example.batch1 = Some digest
      /\ BatchTx_GetCheckpoint Example.batch1 "testchain" = Ret digest
      /\ length digest = 32%nat.
Proof.
  split.
  - split; [simpl; lia | split; simpl; lia].
  - apply (BatchTx_GetCheckpoint_spec Example.batch1 "testchain");
      simpl; lia.
Defined.

(** C1 as stated fails: with nonce 2^63 the word hashed for the nonce is
    that of [int64(2^63)], a negative number, and the digest is not the one
    of the tuple that holds the nonce. *)
Lemma BatchTx_GetCheckpoint_spec_counterexample :
  (String.length "testchain" <= 32)%nat
  /\ ~ (exists digest,
          batch_checkpoint_spec "testchain" (Example.emptyBatch (2 ^ 63)) = Some digest
          /\ BatchTx_GetCheckpoint (Example.emptyBatch (2 ^ 63)) "testchain"
             = Ret digest).
Proof.
  split; [simpl; lia|].
  intros [digest [Hs Hc]].
  vm_compute in Hs. vm_compute in Hc.
  apply Some_eq in Hs. subst digest. discriminate Hc.
Qed.

(** C2 (amended): when the chain identifier is longer than 32 bytes,
    [GetCheckpoint] panics, for a batch and for a logic call alike; it
    returns no error value. *)
Theorem GetCheckpoint_long_identifier_panics (gid : string) :
  (32 < String.length gid)%nat ->
  (forall b, BatchTx_GetCheckpoint b gid = Panic "string too long")
  /\ (forall c, LogicCallTx_GetCheckpoint c gid = Panic "string too long").
Proof.
  intro H. split; intro x.
  - unfold BatchTx_GetCheckpoint. now rewrite (strToFixByteArray_long _ H).
  - unfold LogicCallTx_GetCheckpoint. now rewrite (strToFixByteArray_long _ H).
Qed.

Lemma GetCheckpoint_long_identifier_panics_witness :
  (32 < String.length Example.longId)%nat
  /\ ((forall b, BatchTx_GetCheckpoint b Example.longId = Panic "string too long")
      /\ (forall c, LogicCallTx_GetCheckpoint c Example.longId
                    = Panic "string too long")).
Proof.
  split; [simpl; lia|].
  apply (GetCheckpoint_long_identifier_panics Example.longId). simpl. lia.
Defined.

(** C2 as stated fails: on a 33-byte identifier no error is returned. *)
Lemma GetCheckpoint_long_identifier_counterexample :
  (32 < String.length Example.longId)%nat
  /\ ~ (exists e, BatchTx_GetCheckpoint Example.batch1 Example.longId = Err e).
Proof.
  split; [simpl; lia|].
  intros [e H]. vm_compute in H. discriminate H.
Qed.

Lemma method_names_differ : batchMethodName <> logicCallMethodName.
Proof. intro H. vm_compute in H. discriminate H. Qed.

(** X21: a batch and a logic call never hash the same bytes: word 1 of what
    is hashed is the kind's own domain tag, ["transactionBatch"] for a batch
    and ["logicCall"] for a call, whatever the other fields and the chain
    identifiers are. The two checkpoints are the Keccak-256 digests of these
    two different payloads; that the digests differ as well is not proved
    here. *)
Theorem payload_kinds_differ (b : BatchTx) (c : LogicCallTx) (gidb gidc : string) :
  (String.length gidb <= 32)%nat ->
  (String.length gidc <= 32)%nat ->
  exists pb pc,
    BatchTx_payload b gidb = Some pb
    /\ LogicCallTx_payload c gidc = Some pc
    /\ BatchTx_GetCheckpoint b gidb = Ret (Keccak.Keccak256 pb)
    /\ LogicCallTx_GetCheckpoint c gidc = Ret (Keccak.Keccak256 pc)
    /\ word 1 pb = batchMethodName
    /\ word 1 pc = logicCallMethodName
    /\ pb <> pc.
Proof.
  intros Hb Hc.
  destruct (BatchTx_GetCheckpoint_payload b gidb Hb) as [pb [Hpb Hcb]].
  destruct (LogicCallTx_GetCheckpoint_payload c gidc Hc) as [pc [Hpc Hcc]].
  destruct (BatchTx_payload_words b gidb pb Hpb) as [_ [Hwb _]].
  destruct (LogicCallTx_payload_words c gidc pc Hpc) as [_ [Hwc _]].
  assert (Hne : pb <> pc).
  { intro E. apply method_names_differ. rewrite <- Hwb, <- Hwc, E. reflexivity. }
  exists pb, pc. repeat split; assumption.
Qed.

Lemma payload_kinds_differ_witness :
  ((String.length "testchain" <= 32)%nat /\ (String.length "testchain" <= 32)%nat)
  /\ exists pb pc,
      BatchTx_payload Example.batch1 "testchain" = Some pb
      /\ LogicCallTx_payload Example.call1 "testchain" = Some pc
      /\ BatchTx_GetCheckpoint Example.batch1 "testchain" = Ret (Keccak.Keccak256 pb)
      /\ LogicCallTx_GetCheckpoint Example.call1 "testchain"
         = Ret (Keccak.Keccak256 pc)
      /\ word 1 pb = batchMethodName
      /\ word 1 pc = logicCallMethodName
      /\ pb <> pc.
Proof.
  split; [split; simpl; lia|].
  apply (payload_kinds_differ Example.batch1 Example.call1 "testchain" "testchain");
    simpl; lia.
Defined.

(** On the example batch and call the two digests are different bytes. *)
Lemma checkpoint_kinds_differ_example :
  BatchTx_GetCheckpoint Example.batch1 "testchain"
  <> LogicCallTx_GetCheckpoint Example.call1 "testchain".
Proof. intro H. vm_compute in H. discriminate H. Qed.

Lemma uint256_of_int64 (n : Z) :
  0 <= n < 2 ^ 64 -> ((int64_of_uint64 n) mod 2 ^ 256 = n <-> n < 2 ^ 63).
Proof.
  intro Hr. unfold int64_of_uint64.
  destruct (Z.ltb_spec n (2 ^ 63)) as [Hlt|Hge].
  - rewrite Z.mod_small by lia. tauto.
  - assert (E : (n - 2 ^ 64) mod 2 ^ 256 = n - 2 ^ 64 + 2 ^ 256).
    { symmetry. apply Z.mod_unique with (q := -1); lia. }
    rewrite E. lia.
Qed.

(** C10: [GetCheckpoint] passes Nonce, Timeout and InvalidationNonce through
    [int64]: the 256-bit integer encoded for the field (head word 5 and 7 of
    a batch's payload, 8 and 10 of a call's) equals the field exactly when
    the field is below 2^63. *)
Theorem GetCheckpoint_int64_fields (b : BatchTx) (c : LogicCallTx) (gid : string) :
  (String.length gid <= 32)%nat ->
  0 <= b_Nonce b < 2 ^ 64 ->
  0 <= b_Timeout b < 2 ^ 64 ->
  0 <= c_Timeout c < 2 ^ 64 ->
  0 <= c_InvalidationNonce c < 2 ^ 64 ->
  exists pb pc,
    BatchTx_payload b gid = Some pb
    /\ LogicCallTx_payload c gid = Some pc
    /\ BatchTx_GetCheckpoint b gid = Ret (Keccak.Keccak256 pb)
    /\ LogicCallTx_GetCheckpoint c gid = Ret (Keccak.Keccak256 pc)
    /\ (word_value 5 pb = b_Nonce b <-> b_Nonce b < 2 ^ 63)
    /\ (word_value 7 pb = b_Timeout b <-> b_Timeout b < 2 ^ 63)
    /\ (word_value 8 pc = c_Timeout c <-> c_Timeout c < 2 ^ 63)
    /\ (word_value 10 pc = c_InvalidationNonce c
        <-> c_InvalidationNonce c < 2 ^ 63).
Proof.
  intros Hfit H1 H2 H3 H4.
  destruct (BatchTx_GetCheckpoint_payload b gid Hfit) as [pb [Hpb Hcb]].
  destruct (LogicCallTx_GetCheckpoint_payload c gid Hfit) as [pc [Hpc Hcc]].
  destruct (BatchTx_payload_words b gid pb Hpb) as [_ [_ [Hn Ht]]].
  destruct (LogicCallTx_payload_words c gid pc Hpc) as [_ [_ [Hct Hcn]]].
  exists pb, pc. unfold word_value.
  rewrite Hn, Ht, Hct, Hcn, !be_value_U256Bytes.
  repeat split; try assumption; now apply uint256_of_int64.
Qed.

Lemma GetCheckpoint_int64_fields_witness :
  ((String.length "testchain" <= 32)%nat
   /\ 0 <= b_Nonce Example.batch1 < 2 ^ 64
   /\ 0 <= b_Timeout Example.batch1 < 2 ^ 64
   /\ 0 <= c_Timeout Example.call1 < 2 ^ 64
   /\ 0 <= c_InvalidationNonce Example.call1 < 2 ^ 64)
  /\ exists pb pc,
      BatchTx_payload Example.batch1 "testchain" = Some pb
      /\ LogicCallTx_payload Example.call1 "testchain" = Some pc
      /\ BatchTx_GetCheckpoint Example.batch1 "testchain" = Ret (Keccak.Keccak256 pb)
      /\ LogicCallTx_GetCheckpoint Example.call1 "testchain"
         = Ret (Keccak.Keccak256 pc)
      /\ (word_value 5 pb = b_Nonce Example.batch1
          <-> b_Nonce Example.batch1 < 2 ^ 63)
      /\ (word_value 7 pb = b_Timeout Example.batch1
          <-> b_Timeout Example.batch1 < 2 ^ 63)
      /\ (word_value 8 pc = c_Timeout Example.call1
          <-> c_Timeout Example.call1 < 2 ^ 63)
      /\ (word_value 10 pc = c_InvalidationNonce Example.call1
          <-> c_InvalidationNonce Example.call1 < 2 ^ 63).
Proof.
  split; [repeat split; simpl; lia|].
  apply (GetCheckpoint_int64_fields Example.batch1 Example.call1 "testchain");
    simpl; lia.
Defined.

(** ** Byte-string order *)

Lemma bytes_compare_refl (a : bytes) : bytes_compare a a = Eq.
Proof.
  induction a as [|x a IH]; simpl; [reflexivity|].
  now rewrite Z.compare_refl.
Qed.

Lemma bytes_compare_eq (a : bytes) : forall b, bytes_compare a b = Eq -> a = b.
Proof.
  induction a as [|x a IH]; intros [|y b] H; simpl in H;
    try discriminate; [reflexivity|].
  destruct (x ?= y) eqn:E; try discriminate.
  apply Z.compare_eq in E. subst y. f_equal. now apply IH.
Qed.

Lemma bytes_compare_antisym (a : bytes) :
  forall b, bytes_compare b a = CompOpp (bytes_compare a b).
Proof.
  induction a as [|x a IH]; intros [|y b]; simpl; try reflexivity.
  rewrite (Z.compare_antisym x y).
  destruct (x ?= y); simpl; [apply IH | reflexivity | reflexivity].
Qed.

Lemma bytes_lt_trans (a : bytes) :
  forall b c, bytes_lt a b -> bytes_lt b c -> bytes_lt a c.
Proof.
  unfold bytes_lt.
  induction a as [|x a IH]; intros [|y b] [|z c] H1 H2; simpl in *;
    try discriminate; try reflexivity.
  destruct (x ?= y) eqn:Exy; try discriminate;
    destruct (y ?= z) eqn:Eyz; try discriminate.
  - apply Z.compare_eq in Exy, Eyz. subst. rewrite Z.compare_refl. eauto.
  - apply Z.compare_eq in Exy. subst. now rewrite Eyz.
  - apply Z.compare_eq in Eyz. subst. now rewrite Exy.
  - rewrite Z.compare_lt_iff in Exy, Eyz.
    assert (E : (x ?= z) = Lt) by (rewrite Z.compare_lt_iff; lia).
    now rewrite E.
Qed.

Lemma bytes_compare_app (p a b : bytes) :
  bytes_compare (p ++ a) (p ++ b) = bytes_compare a b.
Proof.
  induction p as [|x p IH]; simpl; [reflexivity|].
  now rewrite Z.compare_refl.
Qed.

Lemma bytes_eqb_eq (a b : bytes) : bytes_eqb a b = true <-> a = b.
Proof.
  unfold bytes_eqb. split.
  - destruct (bytes_compare a b) eqn:E; try discriminate.
    intros _. now apply bytes_compare_eq.
  - intros ->. now rewrite bytes_compare_refl.
Qed.

Lemma bytes_eqb_neq (a b : bytes) : a <> b -> bytes_eqb a b = false.
Proof.
  intro H. destruct (bytes_eqb a b) eqn:E; [|reflexivity].
  apply bytes_eqb_eq in E. contradiction.
Qed.

Lemma has_prefix_app (p k : bytes) :
  has_prefix p k = true -> exists r, k = p ++ r.
Proof.
  revert k. induction p as [|x p IH]; intros k H.
  - exists k. reflexivity.
  - destruct k as [|y k]; simpl in H; [discriminate|].
    apply andb_prop in H. destruct H as [Hxy Hp].
    apply Z.eqb_eq in Hxy. subst y.
    destruct (IH k Hp) as [r ->]. exists r. reflexivity.
Qed.

(** ** The store keeps its order *)

Lemma In_store_Set (k : bytes) (v : value) (st : KVStore) (e : bytes * value) :
  In e (store_Set k v st) -> e = (k, v) \/ In e st.
Proof.
  induction st as [|[k' v'] r IH]; simpl.
  - intros [H|[]]; auto.
  - destruct (bytes_compare k k'); simpl; intuition.
Qed.

Lemma store_Set_sorted (k : bytes) (v : value) (st : KVStore) :
  store_sorted st -> store_sorted (store_Set k v st).
Proof.
  unfold store_sorted.
  induction st as [|[k' v'] r IH]; intro Hs; simpl.
  - constructor; constructor.
  - apply StronglySorted_inv in Hs. destruct Hs as [Hr Hall].
    destruct (bytes_compare k k') eqn:E.
    + apply bytes_compare_eq in E. subst k'. constructor; assumption.
    + constructor.
      * constructor; assumption.
      * constructor; [exact E|].
        eapply Forall_impl; [|exact Hall].
        intros e He. simpl in *. eapply bytes_lt_trans; eassumption.
    + constructor; [now apply IH|].
      apply Forall_forall. intros e He.
      apply In_store_Set in He. destruct He as [->|He].
      * simpl. unfold bytes_lt. rewrite bytes_compare_antisym, E. reflexivity.
      * rewrite Forall_forall in Hall. now apply Hall.
Qed.

Lemma StronglySorted_filter {A : Type} (R : A -> A -> Prop) (f : A -> bool)
      (l : list A) :
  StronglySorted R l -> StronglySorted R (filter f l).
Proof.
  induction l as [|x l IH]; intro H; simpl; [constructor|].
  apply StronglySorted_inv in H. destruct H as [Hl Hx].
  destruct (f x); [|now apply IH].
  constructor; [now apply IH|].
  apply Forall_forall. intros y Hy. apply filter_In in Hy.
  rewrite Forall_forall in Hx. now apply Hx.
Qed.

Lemma store_Delete_sorted (k : bytes) (st : KVStore) :
  store_sorted st -> store_sorted (store_Delete k st).
Proof. apply StronglySorted_filter. Qed.

Lemma Forall_store_Set (P : bytes * value -> Prop) (k : bytes) (v : value)
      (st : KVStore) :
  P (k, v) -> Forall P st -> Forall P (store_Set k v st).
Proof.
  intros Hk Hst. apply Forall_forall. intros e He.
  apply In_store_Set in He. destruct He as [->|He]; [exact Hk|].
  rewrite Forall_forall in Hst. now apply Hst.
Qed.

Lemma Forall_store_Delete (P : bytes * value -> Prop) (k : bytes) (st : KVStore) :
  Forall P st -> Forall P (store_Delete k st).
Proof.
  intro H. apply Forall_forall. intros e He.
  apply filter_In in He. rewrite Forall_forall in H. now apply H.
Qed.

Lemma store_Get_Set_same (k : bytes) (v : value) (st : KVStore) :
  store_Get k (store_Set k v st) = Some v.
Proof.
  induction st as [|[k' v'] r IH]; simpl.
  - unfold bytes_eqb. now rewrite bytes_compare_refl.
  - destruct (bytes_compare k k') eqn:E; simpl.
    + unfold bytes_eqb. now rewrite bytes_compare_refl.
    + unfold bytes_eqb. now rewrite bytes_compare_refl.
    + unfold bytes_eqb at 1. rewrite E. exact IH.
Qed.

Lemma store_Get_Set_other (k k' : bytes) (v : value) (st : KVStore) :
  k <> k' -> store_Get k (store_Set k' v st) = store_Get k st.
Proof.
  intro Hne. induction st as [|[k2 v2] r IH]; simpl.
  - now rewrite (bytes_eqb_neq _ _ Hne).
  - destruct (bytes_compare k' k2) eqn:E; simpl.
    + apply bytes_compare_eq in E. subst k2.
      now rewrite (bytes_eqb_neq _ _ Hne).
    + now rewrite (bytes_eqb_neq _ _ Hne).
    + now rewrite IH.
Qed.

Lemma store_Get_Delete_other (k k' : bytes) (st : KVStore) :
  k <> k' -> store_Get k (store_Delete k' st) = store_Get k st.
Proof.
  intro Hne. induction st as [|[k2 v2] r IH]; simpl; [reflexivity|].
  destruct (bytes_eqb k' k2) eqn:E; simpl.
  - apply bytes_eqb_eq in E. subst k2.
    now rewrite (bytes_eqb_neq _ _ Hne).
  - now rewrite IH.
Qed.

Lemma store_Get_In (k : bytes) (st : KVStore) (v : value) :
  store_Get k st = Some v -> In (k, v) st.
Proof.
  induction st as [|[k' v'] r IH]; simpl; [discriminate|].
  destruct (bytes_eqb k k') eqn:E.
  - intro H. apply Some_eq in H. subst v'.
    apply bytes_eqb_eq in E. subst k'. now left.
  - intro H. right. now apply IH.
Qed.

(** ** The pool *)

Section PoolFacts.

Variable SendToEthereumKey : Z.
Variable LastSendToEthereumIDKey : Z.
Variable ModuleName : string.
Variable DenomToERC20Lookup : KVStore -> string -> outcome (bool * bytes).
Variable ERC20ToDenomLookup : KVStore -> string -> bool * string.
Variable GravityDenom : string -> string.

Local Abbreviation Key := (GetSendToEthereumKey SendToEthereumKey).
Local Abbreviation CounterKey := [LastSendToEthereumIDKey].
Local Abbreviation Create :=
  (CreateSendToEthereum SendToEthereumKey LastSendToEthereumIDKey ModuleName
                        DenomToERC20Lookup).
Local Abbreviation Cancel :=
  (CancelSendToEthereum SendToEthereumKey ModuleName ERC20ToDenomLookup GravityDenom).
Local Abbreviation Increment := (IncrementLastSendToEthereumIDKey LastSendToEthereumIDKey).
Local Abbreviation lastId := (last_id LastSendToEthereumIDKey).
Local Abbreviation poolOk := (pool_ok SendToEthereumKey LastSendToEthereumIDKey).
Local Abbreviation poolInv := (pool_inv SendToEthereumKey LastSendToEthereumIDKey).
Local Abbreviation entryOk := (entry_ok SendToEthereumKey LastSendToEthereumIDKey).
Local Abbreviation scoped := (scoped SendToEthereumKey).
Local Abbreviation Run :=
  (run SendToEthereumKey LastSendToEthereumIDKey ModuleName DenomToERC20Lookup
       ERC20ToDenomLookup GravityDenom).

Lemma key_not_counter (id : Z) (fee : ERC20Token) : CounterKey <> Key id fee.
Proof.
  unfold GetSendToEthereumKey. simpl. intro H.
  injection H as _ H.
  apply (f_equal (@length Z)) in H.
  rewrite length_app, HexToAddress_length in H. simpl in H. lia.
Qed.

Lemma wrap64_range (z : Z) : 0 <= wrap64 z < 2 ^ 64.
Proof. unfold wrap64. apply Z.mod_pos_bound. lia. Qed.

Lemma be_value_counter (n : Z) :
  0 <= n < 2 ^ 64 -> be_value (firstn 8 (be_bytes 8 n)) = n.
Proof.
  intro H. rewrite firstn_all2 by (rewrite be_bytes_length; lia).
  rewrite be_value_be_bytes. change (256 ^ Z.of_nat 8) with (2 ^ 64).
  apply Z.mod_small. exact H.
Qed.

(** *** Pending requests of a store *)

Lemma pending_In (st : KVStore) (ste : SendToEthereum) :
  In ste (pending st) <-> exists k, In (k, VSend ste) st.
Proof.
  induction st as [|[k v] r IH]; simpl.
  - split; [intros [] | intros [_ []]].
  - destruct v as [bz|s]; simpl; rewrite IH; split.
    + intros [k' H]. exists k'. now right.
    + intros [k' [H|H]]; [discriminate | now exists k'].
    + intros [->|[k' H]]; [exists k; now left | exists k'; now right].
    + intros [k' [H|H]]; [left; congruence | right; now exists k'].
Qed.

Lemma In_pending_Set (k : bytes) (v : value) (st : KVStore) (x : SendToEthereum) :
  In x (pending (store_Set k v st)) -> v = VSend x \/ In x (pending st).
Proof.
  rewrite !pending_In. intros [k' H]. apply In_store_Set in H.
  destruct H as [H|H]; [left; congruence | right; now exists k'].
Qed.

Lemma In_pending_filter (f : bytes * value -> bool) (st : KVStore)
      (x : SendToEthereum) :
  In x (pending (filter f st)) -> In x (pending st).
Proof.
  rewrite !pending_In. intros [k H]. apply filter_In in H. exists k. tauto.
Qed.

Lemma NoDup_pending_Set (k : bytes) (v : value) (st : KVStore) :
  (forall ste, v = VSend ste -> ~ In (Id ste) (map Id (pending st))) ->
  NoDup (map Id (pending st)) ->
  NoDup (map Id (pending (store_Set k v st))).
Proof.
  induction st as [|[k' v'] r IH]; intros Hfresh Hnd.
  - simpl. destruct v; simpl; constructor; auto; constructor.
  - assert (Hr : NoDup (map Id (pending r))).
    { simpl in Hnd. destruct v'; simpl in Hnd; [assumption|].
      now apply NoDup_cons_iff in Hnd. }
    assert (Hfr : forall ste, v = VSend ste -> ~ In (Id ste) (map Id (pending r))).
    { intros ste E Hin. apply (Hfresh ste E). simpl.
      destruct v'; simpl; auto. }
    simpl. destruct (bytes_compare k k'); simpl.
    + destruct v as [bz|s]; simpl; [assumption|].
      constructor; [now apply Hfr | assumption].
    + destruct v as [bz|s]; simpl; [assumption|].
      constructor; [now apply Hfresh | assumption].
    + destruct v' as [bz'|s']; simpl; [now apply IH|].
      constructor; [|now apply IH].
      intro Hin. apply in_map_iff in Hin. destruct Hin as [x [Hx Hin]].
      apply In_pending_Set in Hin. destruct Hin as [E|Hin].
      * apply (Hfresh x E). simpl. left. congruence.
      * simpl in Hnd. apply NoDup_cons_iff in Hnd. apply (proj1 Hnd).
        rewrite <- Hx. now apply in_map.
Qed.

Lemma NoDup_pending_filter (f : bytes * value -> bool) (st : KVStore) :
  NoDup (map Id (pending st)) -> NoDup (map Id (pending (filter f st))).
Proof.
  induction st as [|[k v] r IH]; intro Hnd; simpl; [constructor|].
  assert (Hr : NoDup (map Id (pending r))).
  { simpl in Hnd. destruct v; simpl in Hnd; [assumption|].
    now apply NoDup_cons_iff in Hnd. }
  destruct (f (k, v)); [|now apply IH].
  simpl. destruct v as [bz|s]; simpl; [now apply IH|].
  constructor; [|now apply IH].
  intro Hin. apply in_map_iff in Hin. destruct Hin as [x [Hx Hin]].
  apply In_pending_filter in Hin.
  simpl in Hnd. apply NoDup_cons_iff in Hnd. apply (proj1 Hnd).
  rewrite <- Hx. now apply in_map.
Qed.

(** *** The id counter *)

Lemma counter_entry (st : KVStore) (v : value) :
  Forall entryOk st ->
  store_Get CounterKey st = Some v ->
  exists n, 0 <= n < 2 ^ 64 /\ v = VRaw (be_bytes 8 n).
Proof.
  intros Hok Hg. apply store_Get_In in Hg.
  rewrite Forall_forall in Hok. specialize (Hok _ Hg).
  unfold entry_ok in Hok. simpl in Hok. destruct v as [bz|ste].
  - destruct Hok as [_ [n [Hn ->]]]. now exists n.
  - destruct Hok as [Hk _]. exfalso. exact (key_not_counter _ _ Hk).
Qed.

Lemma last_id_range (st : KVStore) :
  Forall entryOk st -> 0 <= lastId st < 2 ^ 64.
Proof.
  intro Hok. unfold last_id.
  destruct (store_Get CounterKey st) as [v|] eqn:G; [|lia].
  destruct (counter_entry st v Hok G) as [n [Hn ->]].
  now rewrite be_value_counter.
Qed.

Lemma Increment_ok (st : KVStore) :
  Forall entryOk st ->
  Increment st
  = Ret (store_Set CounterKey (VRaw (be_bytes 8 (wrap64 (lastId st + 1)))) st,
         wrap64 (lastId st + 1)).
Proof.
  intro Hok. unfold IncrementLastSendToEthereumIDKey, last_id.
  destruct (store_Get CounterKey st) as [v|] eqn:G; [|reflexivity].
  destruct (counter_entry st v Hok G) as [n [Hn ->]].
  unfold Uint64. rewrite be_bytes_length. reflexivity.
Qed.

Lemma last_id_Set_counter (st : KVStore) (n : Z) :
  0 <= n < 2 ^ 64 ->
  lastId (store_Set CounterKey (VRaw (be_bytes 8 n)) st) = n.
Proof.
  intro Hn. unfold last_id. rewrite store_Get_Set_same.
  now apply be_value_counter.
Qed.

Lemma last_id_Set_request (st : KVStore) (ste : SendToEthereum) :
  lastId (SetUnbatchedSendToEthereum SendToEthereumKey st ste) = lastId st.
Proof.
  unfold last_id, SetUnbatchedSendToEthereum.
  rewrite store_Get_Set_other by apply key_not_counter. reflexivity.
Qed.

Lemma last_id_Delete_request (st : KVStore) (id : Z) (fee : ERC20Token) :
  lastId (DeleteUnbatchedSendToEthereum SendToEthereumKey st id fee) = lastId st.
Proof.
  unfold last_id, DeleteUnbatchedSendToEthereum.
  rewrite store_Get_Delete_other by apply key_not_counter. reflexivity.
Qed.

(** *** What a successful call leaves behind *)

Lemma Create_KOk (ctx ctx' : Context) (sender receiver : string)
      (amount fee : Coin) (id : Z) :
  Forall entryOk (ctx_store ctx) ->
  Create ctx sender receiver amount fee = KOk ctx' id ->
  id = wrap64 (lastId (ctx_store ctx) + 1)
  /\ exists ste,
      Id ste = id
      /\ (Sender ste = sender /\ Amount (Erc20Fee ste) = CoinAmount fee)
      /\ ctx_store ctx'
         = SetUnbatchedSendToEthereum SendToEthereumKey
             (store_Set CounterKey (VRaw (be_bytes 8 id)) (ctx_store ctx)) ste.
Proof.
  intros Hok H. unfold CreateSendToEthereum in H.
  destruct (Coin_Add amount fee) as [total|e|e]; try discriminate.
  destruct (DenomToERC20Lookup (ctx_store ctx) (Denom total))
    as [[isCO tc]|e|e]; try discriminate.
  destruct (SendCoinsFromAccountToModule (ctx_bank ctx) sender ModuleName [total])
    as [bank1|e|e]; try discriminate.
  destruct (if negb isCO then BurnCoins bank1 ModuleName [total] else Ret bank1)
    as [bank2|e|e]; try discriminate.
  rewrite (Increment_ok _ Hok) in H.
  injection H as Hctx Hid. split; [now symmetry|].
  eexists. split; [|split]; [| |rewrite <- Hctx; simpl; rewrite Hid; reflexivity];
    simpl; [congruence | split; reflexivity].
Qed.

Lemma Cancel_KOk (ctx ctx' : Context) (send : SendToEthereum) (u : unit) :
  Cancel ctx send = KOk ctx' u ->
  ctx_store ctx'
  = DeleteUnbatchedSendToEthereum SendToEthereumKey (ctx_store ctx) (Id send)
                                  (Erc20Fee send).
Proof.
  unfold CancelSendToEthereum. intro H.
  destruct (NewCoins _) as [cs|e|e]; try discriminate.
  destruct (if negb _ then _ else _) as [bank1|e|e]; try discriminate.
  destruct (SendCoinsFromModuleToAccount bank1 ModuleName (Sender send) cs)
    as [bank2|e|e]; try discriminate.
  injection H as <-. reflexivity.
Qed.

Lemma pool_inv_Create (ctx ctx' : Context) (sender receiver : string)
      (amount fee : Coin) (id : Z) :
  poolInv (ctx_store ctx) ->
  lastId (ctx_store ctx) < uint64_max ->
  Create ctx sender receiver amount fee = KOk ctx' id ->
  id = lastId (ctx_store ctx) + 1
  /\ lastId (ctx_store ctx') = id
  /\ poolInv (ctx_store ctx').
Proof.
  intros [[Hs Hok] [Hle Hnd]] Hmax H.
  destruct (Create_KOk _ _ _ _ _ _ _ Hok H) as [Hid [ste [Hsid [_ Hst]]]].
  pose proof (last_id_range _ Hok) as Hr.
  assert (Hid' : id = lastId (ctx_store ctx) + 1).
  { rewrite Hid. unfold wrap64, uint64_max in *. apply Z.mod_small. lia. }
  assert (Hrange : 0 <= id < 2 ^ 64) by (unfold uint64_max in Hmax; lia).
  assert (Hlast : lastId (ctx_store ctx') = id).
  { rewrite Hst, last_id_Set_request. now apply last_id_Set_counter. }
  split; [exact Hid'|]. split; [exact Hlast|].
  assert (Hfresh : ~ In (Id ste)
                     (map Id (pending (store_Set CounterKey (VRaw (be_bytes 8 id))
                                                 (ctx_store ctx))))).
  { intro Hin. apply in_map_iff in Hin. destruct Hin as [x [Hx Hin]].
    apply In_pending_Set in Hin. destruct Hin as [E|Hin]; [discriminate|].
    rewrite Forall_forall in Hle. specialize (Hle _ Hin). lia. }
  split; [split|split].
  - rewrite Hst. unfold SetUnbatchedSendToEthereum.
    now apply store_Set_sorted, store_Set_sorted.
  - rewrite Hst. unfold SetUnbatchedSendToEthereum.
    apply Forall_store_Set.
    + unfold entry_ok. simpl. split; [reflexivity | lia].
    + apply Forall_store_Set; [|exact Hok].
      unfold entry_ok. simpl. split; [reflexivity|]. now exists id.
  - rewrite Hlast. apply Forall_forall. intros x Hx.
    rewrite Hst in Hx. unfold SetUnbatchedSendToEthereum in Hx.
    apply In_pending_Set in Hx. destruct Hx as [E|Hx].
    + injection E as <-. lia.
    + apply In_pending_Set in Hx. destruct Hx as [E|Hx]; [discriminate|].
      rewrite Forall_forall in Hle. specialize (Hle _ Hx). lia.
  - rewrite Hst. unfold SetUnbatchedSendToEthereum.
    apply NoDup_pending_Set.
    + intros s E. injection E as <-. exact Hfresh.
    + apply NoDup_pending_Set; [intros s E; discriminate | exact Hnd].
Qed.

Lemma pool_inv_Cancel (ctx ctx' : Context) (send : SendToEthereum) (u : unit) :
  poolInv (ctx_store ctx) ->
  Cancel ctx send = KOk ctx' u ->
  lastId (ctx_store ctx') = lastId (ctx_store ctx)
  /\ poolInv (ctx_store ctx').
Proof.
  intros [[Hs Hok] [Hle Hnd]] H.
  apply Cancel_KOk in H. rewrite H.
  split; [apply last_id_Delete_request|].
  unfold DeleteUnbatchedSendToEthereum. split; [split|split].
  - now apply store_Delete_sorted.
  - now apply Forall_store_Delete.
  - fold (DeleteUnbatchedSendToEthereum SendToEthereumKey (ctx_store ctx)
            (Id send) (Erc20Fee send)).
    rewrite last_id_Delete_request.
    apply Forall_forall. intros x Hx. apply In_pending_filter in Hx.
    rewrite Forall_forall in Hle. now apply Hle.
  - now apply NoDup_pending_filter.
Qed.

Lemma StronglySorted_lt_NoDup (l : list Z) : StronglySorted Z.lt l -> NoDup l.
Proof.
  induction l as [|x l IH]; intro H; constructor;
    apply StronglySorted_inv in H; destruct H as [Hl Hx].
  - intro Hin. rewrite Forall_forall in Hx. specialize (Hx _ Hin). lia.
  - now apply IH.
Qed.

(** C5 (amended): from a pool state whose counter leaves room for the
    submits of the run (counter + number of submits at most 2^64 - 1), the
    ids a run of submit and cancel operations returns are strictly
    increasing, all above the initial counter, and never repeat; the counter
    ends at its initial value plus the number of ids returned, so a
    cancellation never moves it; and no two pending requests share an id. *)
Theorem run_ids_strictly_increasing (ops : list op) :
  forall ctx : Context,
    poolInv (ctx_store ctx) ->
    lastId (ctx_store ctx) + Z.of_nat (length (filter is_submit ops)) <= uint64_max ->
    StronglySorted Z.lt (lastId (ctx_store ctx) :: snd (Run ops ctx))
    /\ NoDup (snd (Run ops ctx))
    /\ lastId (ctx_store (fst (Run ops ctx)))
       = lastId (ctx_store ctx) + Z.of_nat (length (snd (Run ops ctx)))
    /\ poolInv (ctx_store (fst (Run ops ctx))).
Proof.
  assert (Hgoal : forall ctx : Context,
    poolInv (ctx_store ctx) ->
    lastId (ctx_store ctx) + Z.of_nat (length (filter is_submit ops)) <= uint64_max ->
    StronglySorted Z.lt (lastId (ctx_store ctx) :: snd (Run ops ctx))
    /\ lastId (ctx_store (fst (Run ops ctx)))
       = lastId (ctx_store ctx) + Z.of_nat (length (snd (Run ops ctx)))
    /\ poolInv (ctx_store (fst (Run ops ctx)))).
  { induction ops as [|o rest IH]; intros ctx Hinv Hmax.
    - simpl. split; [|split]; [repeat constructor | lia | exact Hinv].
    - destruct o as [sender receiver amount fee | send]; simpl in Hmax |- *.
      + destruct (Create ctx sender receiver amount fee) as [ctx' id|ctx' e|e] eqn:EC;
          try (apply IH; [exact Hinv | lia]).
        destruct (pool_inv_Create _ _ _ _ _ _ _ Hinv ltac:(lia) EC)
          as [Hid [Hlast Hinv']].
        destruct (IH ctx' Hinv' ltac:(lia)) as [Hsort [Hcnt Hfin]].
        destruct (Run rest ctx') as [c ids]. simpl in *.
        split; [|split]; [| rewrite Hcnt; lia | exact Hfin].
        rewrite Hlast in Hsort.
        pose proof (StronglySorted_inv Hsort) as [_ Hall].
        constructor; [exact Hsort|].
        constructor; [lia|].
        eapply Forall_impl; [|exact Hall]. intros z Hz. simpl in Hz. lia.
      + destruct (Cancel ctx send) as [ctx' u|ctx' e|e] eqn:EC;
          try (apply IH; [exact Hinv | lia]).
        destruct (pool_inv_Cancel _ _ _ _ Hinv EC) as [Hlast Hinv'].
        rewrite <- Hlast. apply IH; [exact Hinv' | lia]. }
  intros ctx Hinv Hmax. destruct (Hgoal ctx Hinv Hmax) as [Hs [Hc Hi]].
  split; [exact Hs|]. split; [|split; assumption].
  apply StronglySorted_lt_NoDup.
  now apply StronglySorted_inv in Hs.
Qed.

(** C9 (amended): when value and fee have different denominations,
    [CreateSendToEthereum] panics in [Coin.Add], before it reads or writes
    any state; it returns no error value. *)
Theorem Create_denom_mismatch_panics (ctx : Context) (sender receiver : string)
        (amount fee : Coin) :
  Denom amount <> Denom fee ->
  Create ctx sender receiver amount fee = KPanic "invalid coin denominations".
Proof.
  intro H. unfold CreateSendToEthereum, Coin_Add.
  apply String.eqb_neq in H. now rewrite H.
Qed.

(** *** Iteration by contract *)

Lemma be_bytes_compare_le (n : nat) (a b : Z) (x y : bytes) :
  bytes_compare (be_bytes n a ++ x) (be_bytes n b ++ y) = Lt ->
  a mod 256 ^ Z.of_nat n <= b mod 256 ^ Z.of_nat n.
Proof.
  induction n as [|n IH]; intro H.
  - simpl. rewrite !Z.mod_1_r. lia.
  - rewrite !be_bytes_S in H. simpl in H.
    rewrite Nat2Z.inj_succ, Z.pow_succ_r by lia.
    rewrite (Z.mul_comm 256 (256 ^ Z.of_nat n)).
    rewrite !(Z.rem_mul_r _ (256 ^ Z.of_nat n) 256) by lia.
    set (P := 256 ^ Z.of_nat n) in *.
    assert (HP : 0 < P) by (unfold P; lia).
    pose proof (Z.mod_pos_bound a P HP) as Ha.
    pose proof (Z.mod_pos_bound b P HP) as Hb.
    destruct ((a / P) mod 256 ?= (b / P) mod 256) eqn:E.
    + apply Z.compare_eq in E. rewrite E. specialize (IH H). lia.
    + rewrite Z.compare_lt_iff in E. nia.
    + discriminate H.
Qed.

Lemma key_order (p x1 x2 : bytes) (f1 f2 : Z) :
  0 <= f1 < 2 ^ 256 -> 0 <= f2 < 2 ^ 256 ->
  bytes_lt (p ++ be_bytes 32 f2 ++ x2) (p ++ be_bytes 32 f1 ++ x1) ->
  f2 <= f1.
Proof.
  intros H1 H2 H. unfold bytes_lt in H. rewrite bytes_compare_app in H.
  apply be_bytes_compare_le in H.
  change (256 ^ Z.of_nat 32) with (2 ^ 256) in H.
  rewrite !Z.mod_small in H by assumption. exact H.
Qed.

Lemma StronglySorted_snoc {A : Type} (R : A -> A -> Prop) (l : list A) (x : A) :
  StronglySorted R l -> Forall (fun y => R y x) l -> StronglySorted R (l ++ [x]).
Proof.
  induction l as [|y l IH]; intros Hs Hx; simpl.
  - repeat constructor.
  - apply StronglySorted_inv in Hs. destruct Hs as [Hl Hy].
    apply Forall_cons_iff in Hx. destruct Hx as [Hyx Hlx].
    constructor; [now apply IH|].
    apply Forall_app. split; [exact Hy | now constructor].
Qed.

Lemma StronglySorted_rev {A : Type} (R : A -> A -> Prop) (l : list A) :
  StronglySorted R l -> StronglySorted (fun a b => R b a) (rev l).
Proof.
  induction l as [|x l IH]; intro H; simpl; [constructor|].
  apply StronglySorted_inv in H. destruct H as [Hl Hx].
  apply StronglySorted_snoc; [now apply IH|].
  now apply Forall_rev.
Qed.

Lemma StronglySorted_firstn {A : Type} (R : A -> A -> Prop) (n : nat) :
  forall l : list A, StronglySorted R l -> StronglySorted R (firstn n l).
Proof.
  induction n as [|n IH]; intros [|x l] H; simpl; try constructor.
  - apply IH. now apply StronglySorted_inv in H.
  - apply StronglySorted_inv in H. destruct H as [_ Hx].
    apply Forall_forall. intros y Hy.
    rewrite Forall_forall in Hx. apply Hx.
    rewrite <- (firstn_skipn n l). apply in_or_app. now left.
Qed.

Lemma Forall_firstn' {A : Type} (P : A -> Prop) (n : nat) (l : list A) :
  Forall P l -> Forall P (firstn n l).
Proof.
  intro H. apply Forall_forall. intros y Hy.
  rewrite Forall_forall in H. apply H.
  rewrite <- (firstn_skipn n l). apply in_or_app. now left.
Qed.

Lemma app_eq_length {A : Type} (a b c d : list A) :
  a ++ b = c ++ d -> length a = length c -> a = c /\ b = d.
Proof.
  revert c. induction a as [|x a IH]; intros [|y c] H L; simpl in *;
    try discriminate; [now split|].
  injection H as -> H. destruct (IH c H ltac:(lia)) as [-> ->]. now split.
Qed.

Lemma ReverseIterator_scoped (st : KVStore) (contract : bytes) :
  poolOk st -> fees_in_range st -> length contract = 20%nat ->
  Forall (scoped contract) (ReverseIterator ([SendToEthereumKey] ++ contract) st).
Proof.
  intros [_ Hok] Hfees Hlen. unfold ReverseIterator. unfold fees_in_range in Hfees.
  apply Forall_rev, Forall_forall. intros [k v] He.
  apply filter_In in He. destruct He as [Hin Hp]. cbn beta iota delta [fst] in Hp.
  rewrite Forall_forall in Hok, Hfees.
  specialize (Hok _ Hin). specialize (Hfees _ Hin).
  unfold entry_ok in Hok. simpl in Hok, Hfees.
  apply has_prefix_app in Hp. destruct Hp as [r Hr].
  destruct v as [bz|ste].
  - destruct Hok as [Hk _]. exfalso. rewrite Hk in Hr. simpl in Hr.
    injection Hr as _ Hr. destruct contract; simpl in Hr, Hlen; [lia | discriminate].
  - destruct Hok as [Hk _]. exists ste. cbn [fst snd].
    assert (Hc : HexToAddress (Contract (Erc20Fee ste)) = contract).
    { rewrite Hk in Hr. unfold GetSendToEthereumKey in Hr. simpl in Hr.
      injection Hr as Hr.
      apply app_eq_length in Hr; [exact (proj1 Hr)|].
      rewrite HexToAddress_length. now symmetry. }
    split; [reflexivity|]. split; [|split; assumption].
    rewrite Hk. unfold GetSendToEthereumKey, fee_of. rewrite Hc.
    now rewrite <- app_assoc.
Qed.

Lemma ReverseIterator_sorted (p : bytes) (st : KVStore) :
  store_sorted st ->
  StronglySorted (fun e1 e2 => bytes_lt (fst e2) (fst e1)) (ReverseIterator p st).
Proof.
  intro H. unfold ReverseIterator.
  apply (StronglySorted_rev (fun e1 e2 => bytes_lt (fst e1) (fst e2))).
  now apply StronglySorted_filter.
Qed.

Lemma pending_fee_descending (contract : bytes) (it : list (bytes * value)) :
  Forall (scoped contract) it ->
  StronglySorted (fun e1 e2 => bytes_lt (fst e2) (fst e1)) it ->
  fee_descending (pending it)
  /\ Forall (fun ste => HexToAddress (Contract (Erc20Fee ste)) = contract)
            (pending it).
Proof.
  induction it as [|[k v] r IH]; intros Hsc Hs; simpl.
  - split; constructor.
  - apply Forall_cons_iff in Hsc. destruct Hsc as [[ste [Hv [Hk [Hc Hf]]]] Hr].
    apply StronglySorted_inv in Hs. destruct Hs as [Hsr Hall].
    destruct (IH Hr Hsr) as [IHs IHc].
    cbn [fst snd] in Hv, Hk. subst v. split.
    + constructor; [exact IHs|].
      apply Forall_forall. intros x Hx. apply pending_In in Hx.
      destruct Hx as [k' Hin].
      rewrite Forall_forall in Hr, Hall.
      destruct (Hr _ Hin) as [x' [Hv' [Hk' [_ Hf']]]].
      cbn [fst snd] in Hv', Hk'. injection Hv' as <-.
      specialize (Hall _ Hin). cbn [fst] in Hall. rewrite Hk, Hk' in Hall.
      now apply key_order in Hall.
    + constructor; assumption.
Qed.

Lemma iterate_logged {St : Type} (cb : SendToEthereum -> St -> St * bool)
      (contract : bytes) (it : list (bytes * value)) :
  Forall (scoped contract) it ->
  forall (s : St) (log : list SendToEthereum),
  exists s' n, iterate it (logged cb) (s, log) = Ret (s', log ++ firstn n (pending it)).
Proof.
  induction it as [|[k v] r IH]; intros Hsc s log.
  - exists s, 0%nat. simpl. now rewrite app_nil_r.
  - apply Forall_cons_iff in Hsc. destruct Hsc as [[ste [Hv _]] Hr].
    simpl in Hv. subst v. simpl. unfold logged at 1. simpl.
    destruct (cb ste s) as [s1 stop]. destruct stop.
    + exists s1, 1%nat. reflexivity.
    + destruct (IH Hr s1 (log ++ [ste])) as [s' [n Hn]].
      exists s', (S n). rewrite Hn. simpl. now rewrite <- app_assoc.
Qed.

Lemma iterate_logged_all {St : Type} (cb : SendToEthereum -> St -> St * bool)
      (contract : bytes) (it : list (bytes * value)) :
  (forall ste s, snd (cb ste s) = false) ->
  Forall (scoped contract) it ->
  forall (s : St) (log : list SendToEthereum),
  exists s', iterate it (logged cb) (s, log) = Ret (s', log ++ pending it).
Proof.
  intro Hgo. induction it as [|[k v] r IH]; intros Hsc s log.
  - exists s. simpl. now rewrite app_nil_r.
  - apply Forall_cons_iff in Hsc. destruct Hsc as [[ste [Hv _]] Hr].
    simpl in Hv. subst v. simpl. unfold logged at 1. simpl.
    specialize (Hgo ste s). destruct (cb ste s) as [s1 stop].
    simpl in Hgo. subst stop.
    destruct (IH Hr s1 (log ++ [ste])) as [s' Hn].
    exists s'. rewrite Hn. now rewrite <- app_assoc.
Qed.

Lemma has_prefix_refl (p r : bytes) : has_prefix p (p ++ r) = true.
Proof.
  induction p as [|x p IH]; simpl; [reflexivity|].
  now rewrite Z.eqb_refl, IH.
Qed.

Lemma In_pending_ReverseIterator (p : bytes) (st : KVStore) (ste : SendToEthereum) :
  In ste (pending (ReverseIterator p st))
  <-> exists k, In (k, VSend ste) st /\ has_prefix p k = true.
Proof.
  unfold ReverseIterator. rewrite pending_In. split.
  - intros [k H]. apply in_rev in H. apply filter_In in H. now exists k.
  - intros [k [H Hp]]. exists k. apply in_rev. rewrite rev_involutive.
    apply filter_In. now split.
Qed.

(** C8: for every destination contract and every pool state in which the
    stored fees are non-negative and below 2^256, the per-contract iterator
    returns, and the requests it hands to its callback are pending requests
    of that contract in non-increasing fee order, whatever the callback does
    and whenever it stops; a callback that never stops is handed every
    pending request of the contract. *)
Theorem IterateByContract_fee_descending {St : Type} (st : KVStore) (contract : bytes)
        (cb : SendToEthereum -> St -> St * bool) (s : St) :
  poolOk st -> fees_in_range st -> length contract = 20%nat ->
  exists s' visited,
    IterateUnbatchedSendToEthereumsByContract SendToEthereumKey st contract
                                              (logged cb) (s, [])
    = Ret (s', visited)
    /\ fee_descending visited
    /\ Forall (fun ste => In ste (pending st)
                          /\ HexToAddress (Contract (Erc20Fee ste)) = contract)
              visited
    /\ ((forall ste x, snd (cb ste x) = false) ->
        forall ste, In ste (pending st) ->
                    HexToAddress (Contract (Erc20Fee ste)) = contract ->
                    In ste visited).
Proof.
  intros Hok Hfees Hlen.
  pose proof (ReverseIterator_scoped st contract Hok Hfees Hlen) as Hsc.
  pose proof (ReverseIterator_sorted ([SendToEthereumKey] ++ contract) st (proj1 Hok))
    as Hs.
  destruct (pending_fee_descending contract _ Hsc Hs) as [Hd Hc].
  destruct (iterate_logged cb contract _ Hsc s []) as [s' [n Hn]].
  unfold IterateUnbatchedSendToEthereumsByContract.
  set (it := ReverseIterator ([SendToEthereumKey] ++ contract) st) in *.
  exists s', (firstn n (pending it)).
  split; [exact Hn|]. split; [now apply StronglySorted_firstn|]. split.
  - apply Forall_firstn'. apply Forall_forall. intros x Hx. split.
    + apply In_pending_ReverseIterator in Hx. destruct Hx as [k [Hin _]].
      apply pending_In. now exists k.
    + rewrite Forall_forall in Hc. now apply Hc.
  - intros Hgo ste Hin Hcon.
    destruct (iterate_logged_all cb contract it Hgo Hsc s []) as [s'' Hall].
    rewrite Hn in Hall. injection Hall as _ Hall. simpl in Hall. rewrite Hall.
    apply In_pending_ReverseIterator.
    apply pending_In in Hin. destruct Hin as [k Hin]. exists k.
    split; [exact Hin|].
    destruct Hok as [_ Hok]. rewrite Forall_forall in Hok.
    specialize (Hok _ Hin). unfold entry_ok in Hok. cbn [fst snd] in Hok.
    destruct Hok as [-> _]. unfold GetSendToEthereumKey. rewrite Hcon.
    rewrite app_assoc. apply has_prefix_refl.
Qed.

Lemma fees_in_range_Create (ctx ctx' : Context) (sender receiver : string)
      (amount fee : Coin) (id : Z) :
  Forall entryOk (ctx_store ctx) ->
  fees_in_range (ctx_store ctx) ->
  0 <= CoinAmount fee < 2 ^ 256 ->
  Create ctx sender receiver amount fee = KOk ctx' id ->
  fees_in_range (ctx_store ctx').
Proof.
  intros Hok Hf Hfee H.
  destruct (Create_KOk _ _ _ _ _ _ _ Hok H) as [_ [ste [_ [[_ Ha] Hst]]]].
  rewrite Hst. unfold fees_in_range, SetUnbatchedSendToEthereum.
  apply Forall_store_Set; [simpl; now rewrite Ha|].
  apply Forall_store_Set; [exact I | exact Hf].
Qed.

Lemma fees_in_range_Cancel (ctx ctx' : Context) (send : SendToEthereum) (u : unit) :
  fees_in_range (ctx_store ctx) ->
  Cancel ctx send = KOk ctx' u ->
  fees_in_range (ctx_store ctx').
Proof.
  intros Hf H. apply Cancel_KOk in H. rewrite H.
  now apply Forall_store_Delete.
Qed.

End PoolFacts.

(** *** The example pool *)

Ltac eval_store := 
  match goal with
  | |- context [Example.store567] =>
      let v := eval vm_compute in Example.store567 in
      change Example.store567 with v
  end.

Ltac entry_ok_tac :=
  unfold entry_ok; cbn [fst snd];
  match goal with
  | |- _ = _ /\ (exists n, _) =>
      split; [reflexivity | exists 3; split; [lia | vm_compute; reflexivity]]
  | |- _ = _ /\ _ =>
      split; [vm_compute; reflexivity | cbn [Id]; lia]
  end.

Lemma store567_ok :
  pool_ok Example.SendToEthereumKey Example.LastSendToEthereumIDKey Example.store567
  /\ fees_in_range Example.store567.
Proof.
  unfold pool_ok, store_sorted, fees_in_range. eval_store.
  split; [split|].
  - repeat (apply SSorted_cons || apply SSorted_nil);
      repeat (apply Forall_cons || apply Forall_nil);
      vm_compute; reflexivity.
  - repeat (apply Forall_cons || apply Forall_nil); entry_ok_tac.
  - repeat (apply Forall_cons || apply Forall_nil);
      cbn [snd Erc20Fee Amount]; (exact I || lia).
Qed.

Lemma IterateByContract_fee_descending_witness :
  (pool_ok Example.SendToEthereumKey Example.LastSendToEthereumIDKey Example.store567
   /\ fees_in_range Example.store567
   /\ length (HexToAddress Example.nativeContract) = 20%nat)
  /\ exists s' visited,
      IterateUnbatchedSendToEthereumsByContract
Example.SendToEthereumKey Example.store567
        (HexToAddress Example.nativeContract)
        (logged (fun (_ : SendToEthereum) (n : Z) => (n + 1, false))) (0, [])
      = Ret (s', visited)
      /\ fee_descending visited
      /\ Forall (fun ste => In ste (pending Example.store567)
                            /\ HexToAddress (Contract (Erc20Fee ste))
                               = HexToAddress Example.nativeContract) visited
      /\ ((forall (ste : SendToEthereum) (x : Z),
             snd ((fun (_ : SendToEthereum) (n : Z) => (n + 1, false)) ste x) = false) ->
          forall ste, In ste (pending Example.store567) ->
                      HexToAddress (Contract (Erc20Fee ste))
                      = HexToAddress Example.nativeContract ->
                      In ste visited).
Proof.
  split.
  - split; [apply store567_ok | split; [apply store567_ok | reflexivity]].
  - apply (IterateByContract_fee_descending
Example.SendToEthereumKey Example.LastSendToEthereumIDKey
Example.store567 (HexToAddress Example.nativeContract)
             (fun (_ : SendToEthereum) (n : Z) => (n + 1, false)) 0);
      [apply store567_ok | apply store567_ok | reflexivity].
Defined.

(** C8 as stated fails: a submit checks that the total is positive, not the
    fee; after a submit with fee -7 and one with fee 5 the pool is as the
    keeper writes it, and the per-contract iterator hands out the request
    with fee -7 before the one with fee 5. *)
Lemma IterateByContract_fee_descending_counterexample :
  snd (Example.runOps Example.opsNegativeFee Example.ctx0) = [1; 2]
  /\ pool_ok Example.SendToEthereumKey Example.LastSendToEthereumIDKey
             Example.storeNegativeFee
  /\ exists visited,
      IterateUnbatchedSendToEthereumsByContract
        Example.SendToEthereumKey Example.storeNegativeFee
        (HexToAddress Example.nativeContract)
        (logged (fun (_ : SendToEthereum) (n : Z) => (n + 1, false))) (0, [])
      = Ret (2, visited)
      /\ map (fun ste => (fee_of ste, Id ste)) visited = [(-7, 1); (5, 2)]
      /\ ~ fee_descending visited.
Proof.
  split; [vm_compute; reflexivity|]. split.
  - unfold pool_ok, store_sorted.
    let v := eval vm_compute in Example.storeNegativeFee in
    change Example.storeNegativeFee with v.
    split.
    + repeat (apply SSorted_cons || apply SSorted_nil);
        repeat (apply Forall_cons || apply Forall_nil);
        vm_compute; reflexivity.
    + repeat (apply Forall_cons || apply Forall_nil);
        unfold entry_ok; cbn [fst snd].
      * split; [vm_compute; reflexivity | cbn [Id]; lia].
      * split; [vm_compute; reflexivity | cbn [Id]; lia].
      * split; [reflexivity | exists 2; split; [lia | vm_compute; reflexivity]].
  - eexists. split; [vm_compute; reflexivity|].
    split; [reflexivity|].
    intro H. apply StronglySorted_inv in H. destruct H as [_ H].
    apply Forall_cons_iff in H. destruct H as [H _].
    unfold fee_of in H. cbn [Erc20Fee Amount] in H. lia.
Qed.

(** On the example pool the fees come out as 7, 5, 5. *)
Lemma IterateByContract_example :
  match IterateUnbatchedSendToEthereumsByContract
Example.SendToEthereumKey Example.store567
          (HexToAddress Example.nativeContract)
          (fun ste out => (out ++ [fee_of ste], false)) [] with
  | Ret fees => fees = [7; 5; 5]
  | _ => False
  end.
Proof. vm_compute. reflexivity. Qed.

Lemma pool_inv_nil (k1 k2 : Z) : pool_inv k1 k2 [].
Proof. repeat split; constructor. Qed.

Lemma run_ids_strictly_increasing_witness :
  (pool_inv Example.SendToEthereumKey Example.LastSendToEthereumIDKey
            (ctx_store Example.ctx0)
   /\ last_id Example.LastSendToEthereumIDKey (ctx_store Example.ctx0)
      + Z.of_nat (length (filter is_submit Example.ops3)) <= uint64_max)
  /\ (StronglySorted Z.lt
        (last_id Example.LastSendToEthereumIDKey (ctx_store Example.ctx0)
         :: snd (Example.runOps Example.ops3 Example.ctx0))
      /\ NoDup (snd (Example.runOps Example.ops3 Example.ctx0))
      /\ last_id Example.LastSendToEthereumIDKey
                 (ctx_store (fst (Example.runOps Example.ops3 Example.ctx0)))
         = last_id Example.LastSendToEthereumIDKey (ctx_store Example.ctx0)
           + Z.of_nat (length (snd (Example.runOps Example.ops3 Example.ctx0)))
      /\ pool_inv Example.SendToEthereumKey Example.LastSendToEthereumIDKey
                  (ctx_store (fst (Example.runOps Example.ops3 Example.ctx0)))).
Proof.
  split.
  - split; [apply pool_inv_nil | vm_compute; discriminate].
  - apply (run_ids_strictly_increasing
Example.SendToEthereumKey Example.LastSendToEthereumIDKey
Example.ModuleName Example.DenomToERC20Lookup
Example.ERC20ToDenomLookup Example.GravityDenom
Example.ops3 Example.ctx0);
      [apply pool_inv_nil | vm_compute; discriminate].
Defined.

(** The example run: submit, cancel that request, submit again; the ids
    are 1 and 2 and the pool holds the second request only. *)
Lemma run_example :
  snd (Example.runOps Example.ops3 Example.ctx0) = [1; 2]
  /\ map Id (pending (ctx_store (fst (Example.runOps Example.ops3 Example.ctx0))))
     = [2].
Proof. split; vm_compute; reflexivity. Qed.

(** C5 as stated fails: with the counter at 2^64 - 2, two submits return
    2^64 - 1 and then 0. *)
Lemma run_ids_counterexample :
  pool_inv Example.SendToEthereumKey Example.LastSendToEthereumIDKey
           (ctx_store Example.ctxNearMax)
  /\ snd (Example.runOps Example.ops2 Example.ctxNearMax) = [2 ^ 64 - 1; 0]
  /\ ~ StronglySorted Z.lt (snd (Example.runOps Example.ops2 Example.ctxNearMax)).
Proof.
  assert (E : snd (Example.runOps Example.ops2 Example.ctxNearMax) = [2 ^ 64 - 1; 0])
    by (vm_compute; reflexivity).
  split; [|split; [exact E|]].
  - unfold pool_inv, pool_ok, store_sorted. simpl.
    repeat split; repeat constructor.
    exists (2 ^ 64 - 2). split; [lia | reflexivity].
  - rewrite E. intro H. apply StronglySorted_inv in H. destruct H as [_ H].
    apply Forall_cons_iff in H. destruct H as [H _]. lia.
Qed.

Lemma Create_denom_mismatch_panics_witness :
  Denom (Example.coin "ufoo" 100) <> Denom (Example.coin "ubar" 5)
  /\ Example.Create Example.ctx0 Example.alice Example.recipient
                    (Example.coin "ufoo" 100) (Example.coin "ubar" 5)
     = KPanic "invalid coin denominations".
Proof.
  split; [discriminate|].
  apply (Create_denom_mismatch_panics
Example.SendToEthereumKey Example.LastSendToEthereumIDKey
Example.ModuleName Example.DenomToERC20Lookup).
  discriminate.
Defined.

(** C9 as stated fails: with value in [ufoo] and fee in [ubar] the call
    returns no error. *)
Lemma Create_denom_mismatch_counterexample :
  Denom (Example.coin "ufoo" 100) <> Denom (Example.coin "ubar" 5)
  /\ ~ (exists ctx' e,
Example.Create Example.ctx0 Example.alice Example.recipient
                         (Example.coin "ufoo" 100) (Example.coin "ubar" 5)
          = KErr ctx' e).
Proof.
  split; [discriminate|].
  intros [ctx' [e H]]. vm_compute in H. discriminate H.
Qed.

(** ** Confirmations *)

(** A batch confirmation whose signature is not hex is rejected; when the
    addresses pass, the error is the one about the signature. *)
Lemma ConfirmBatch_Validate_bad_signature
      (bech32 : string -> bool) (ethCheck : string -> option string)
      (msg : ConfirmBatch) :
  is_hex (cb_Signature msg) = false ->
  ConfirmBatch_Validate bech32 ethCheck msg <> None
  /\ (bech32 (cb_OrchestratorAddress msg) = true ->
      ethCheck (cb_EthSigner msg) = None ->
      ethCheck (cb_TokenContract msg) = None ->
      ConfirmBatch_Validate bech32 ethCheck msg
      = Some (ErrUnknownRequest
                ("could not decode hex string " ++ cb_Signature msg))).
Proof.
  intro Hsig. unfold ConfirmBatch_Validate. split.
  - destruct (bech32 _); simpl; [|discriminate].
    destruct (ethCheck (cb_EthSigner msg)); [discriminate|].
    destruct (ethCheck (cb_TokenContract msg)); [discriminate|].
    rewrite Hsig. discriminate.
  - intros -> -> ->. simpl. now rewrite Hsig.
Qed.

Lemma ConfirmLogicCall_Validate_bad_signature
      (bech32 : string -> bool) (ethCheck : string -> option string)
      (msg : ConfirmLogicCall) :
  is_hex (cl_Signature msg) = false ->
  ConfirmLogicCall_Validate bech32 ethCheck msg <> None
  /\ (bech32 (cl_OrchestratorAddress msg) = true ->
      ethCheck (cl_EthSigner msg) = None ->
      ConfirmLogicCall_Validate bech32 ethCheck msg
      = Some (ErrUnknownRequest
                ("Could not decode hex string " ++ cl_Signature msg))).
Proof.
  intro Hsig. unfold ConfirmLogicCall_Validate. split.
  - destruct (bech32 _); simpl; [|discriminate].
    destruct (ethCheck (cl_EthSigner msg)); [discriminate|].
    rewrite Hsig. discriminate.
  - intros -> ->. simpl. now rewrite Hsig.
Qed.

(** With a hex signature, neither of the two is rejected on account of the
    signature. *)
Lemma Validate_good_signature
      (bech32 : string -> bool) (ethCheck : string -> option string)
      (b : ConfirmBatch) (c : ConfirmLogicCall) :
  (is_hex (cb_Signature b) = true ->
   ConfirmBatch_Validate bech32 ethCheck b
   <> Some (ErrUnknownRequest ("could not decode hex string " ++ cb_Signature b)))
  /\ (is_hex (cl_Signature c) = true ->
      ConfirmLogicCall_Validate bech32 ethCheck c
      <> Some (ErrUnknownRequest ("Could not decode hex string " ++ cl_Signature c))).
Proof.
  split; intro Hsig.
  - unfold ConfirmBatch_Validate.
    destruct (bech32 _); simpl; [|discriminate].
    destruct (ethCheck (cb_EthSigner b)); [discriminate|].
    destruct (ethCheck (cb_TokenContract b)); [discriminate|].
    rewrite Hsig. discriminate.
  - unfold ConfirmLogicCall_Validate.
    destruct (bech32 _); simpl; [|discriminate].
    destruct (ethCheck (cl_EthSigner c)); [discriminate|].
    rewrite Hsig. simpl.
    destruct (is_hex (cl_InvalidationId c)) eqn:Hid; simpl; [discriminate|].
    intro H. injection H as H.
    rewrite H in Hid. congruence.
Qed.

(** C6, the signer-set variant: [ConfirmValset.Validate] never looks at the
    signature; a record with well-formed addresses passes although its
    signature is not hex. *)
Theorem ConfirmValset_Validate_ignores_signature
        (bech32 : string -> bool) (ethCheck : string -> option string)
        (msg : ConfirmValset) :
  bech32 (cv_OrchestratorAddress msg) = true ->
  ethCheck (cv_EthAddress msg) = None ->
  is_hex (cv_Signature msg) = false ->
  ConfirmValset_Validate bech32 ethCheck msg = None.
Proof.
  intros Hb He _. unfold ConfirmValset_Validate. now rewrite Hb, He.
Qed.

Lemma ConfirmValset_Validate_ignores_signature_witness :
  (Example.AccAddressFromBech32 (cv_OrchestratorAddress Example.valset1) = true
   /\ Example.ValidateEthAddress (cv_EthAddress Example.valset1) = None
   /\ is_hex (cv_Signature Example.valset1) = false)
  /\ ConfirmValset_Validate Example.AccAddressFromBech32 Example.ValidateEthAddress
Example.valset1 = None.
Proof.
  split; [repeat split; reflexivity|].
  apply (ConfirmValset_Validate_ignores_signature
Example.AccAddressFromBech32 Example.ValidateEthAddress Example.valset1);
    reflexivity.
Defined.

(** C7 (amended): the accessors that do not apply to a variant return the
    zero value of their type, 0 or the empty string, for every record. *)
Theorem not_applicable_accessors_return_zero
        (b : ConfirmBatch) (c : ConfirmLogicCall) (v : ConfirmValset) :
  ConfirmBatch_GetInvalidationNonce b = 0
  /\ ConfirmBatch_GetInvalidationId b = ""
  /\ ConfirmLogicCall_GetNonce c = 0
  /\ ConfirmLogicCall_GetTokenContract c = ""
  /\ ConfirmValset_GetInvalidationNonce v = 0
  /\ ConfirmValset_GetInvalidationId v = ""
  /\ ConfirmValset_GetTokenContract v = "".
Proof. repeat split. Qed.

(** C7 as stated fails: what a call confirmation answers for its nonce is
    what a batch confirmation with nonce 0 answers, and what a batch
    confirmation answers for the invalidation id and nonce is what a call
    confirmation with the empty id and nonce 0 answers. *)
Lemma not_applicable_accessors_counterexample :
  ConfirmLogicCall_GetNonce Example.confirmCall1
  = ConfirmBatch_GetNonce Example.confirmBatch1
  /\ ConfirmBatch_GetInvalidationNonce Example.confirmBatch1
     = ConfirmLogicCall_GetInvalidationNonce Example.confirmCall1
  /\ ConfirmBatch_GetInvalidationId Example.confirmBatch1
     = ConfirmLogicCall_GetInvalidationId Example.confirmCall1.
Proof. repeat split. Qed.

(** ** Submit, then cancel *)

Lemma credit_other (b : Bank) (acct a : string) (c : Coin) (d : string) :
  a <> acct -> credit b acct c a d = b a d.
Proof.
  intro H. unfold credit. apply String.eqb_neq in H. now rewrite H.
Qed.

Lemma credit_same (b : Bank) (acct : string) (c : Coin) (d : string) :
  credit b acct c acct d
  = if String.eqb d (Denom c) then b acct d + CoinAmount c else b acct d.
Proof. unfold credit. now rewrite String.eqb_refl. Qed.

Lemma SendCoins_single (b b' : Bank) (from to : string) (c : Coin) :
  SendCoins b from to [c] = Ret b' ->
  0 < CoinAmount c
  /\ CoinAmount c <= b from (Denom c)
  /\ b' = credit (credit b from {| Denom := Denom c; CoinAmount := - CoinAmount c |})
                 to c.
Proof.
  unfold SendCoins, coins_valid. simpl.
  destruct (Z.ltb_spec 0 (CoinAmount c)) as [Hp|Hp]; simpl; [|discriminate].
  destruct (Z.ltb_spec (b from (Denom c)) (CoinAmount c)) as [Hl|Hl]; [discriminate|].
  intro H. injection H as <-. split; [exact Hp | split; [exact Hl | reflexivity]].
Qed.

Lemma SendCoins_single_ok (b : Bank) (from to : string) (c : Coin) :
  0 < CoinAmount c ->
  CoinAmount c <= b from (Denom c) ->
  SendCoins b from to [c]
  = Ret (credit (credit b from {| Denom := Denom c; CoinAmount := - CoinAmount c |})
                to c).
Proof.
  intros Hpos Hle. unfold SendCoins, coins_valid. simpl.
  destruct (Z.ltb_spec 0 (CoinAmount c)); simpl; [|lia].
  destruct (Z.ltb_spec (b from (Denom c)) (CoinAmount c)); [lia | reflexivity].
Qed.

Lemma BurnCoins_single (b b' : Bank) (m : string) (c : Coin) :
  BurnCoins b m [c] = Ret b' ->
  b' = credit b m {| Denom := Denom c; CoinAmount := - CoinAmount c |}.
Proof.
  unfold BurnCoins, coins_valid. simpl.
  destruct (0 <? CoinAmount c); simpl; [|discriminate].
  destruct (b m (Denom c) <? CoinAmount c); [discriminate|].
  intro H. now injection H as <-.
Qed.

Lemma MintCoins_single (b : Bank) (m : string) (c : Coin) :
  0 < CoinAmount c -> MintCoins b m [c] = Ret (credit b m c).
Proof.
  intro H. unfold MintCoins, coins_valid. simpl.
  destruct (Z.ltb_spec 0 (CoinAmount c)); [reflexivity | lia].
Qed.

Section SubmitCancel.

Variable SendToEthereumKey : Z.
Variable LastSendToEthereumIDKey : Z.
Variable ModuleName : string.
Variable DenomToERC20Lookup : KVStore -> string -> outcome (bool * bytes).
Variable ERC20ToDenomLookup : KVStore -> string -> bool * string.
Variable GravityDenom : string -> string.

Local Abbreviation Create :=
  (CreateSendToEthereum SendToEthereumKey LastSendToEthereumIDKey ModuleName
                        DenomToERC20Lookup).
Local Abbreviation Cancel :=
  (CancelSendToEthereum SendToEthereumKey ModuleName ERC20ToDenomLookup GravityDenom).
Local Abbreviation entryOk := (entry_ok SendToEthereumKey LastSendToEthereumIDKey).

(** What a successful submit did to the bank and to the pool. *)
Lemma Create_effect (ctx ctx' : Context) (sender receiver : string)
      (amount fee : Coin) (id : Z) :
  Forall entryOk (ctx_store ctx) ->
  Create ctx sender receiver amount fee = KOk ctx' id ->
  exists isCO tc,
    let total := {| Denom := Denom amount;
                    CoinAmount := CoinAmount amount + CoinAmount fee |} in
    Denom fee = Denom amount
    /\ DenomToERC20Lookup (ctx_store ctx) (Denom amount) = Ret (isCO, tc)
    /\ 0 < CoinAmount total
    /\ CoinAmount total <= ctx_bank ctx sender (Denom amount)
    /\ In (request_of id sender receiver amount fee tc) (pending (ctx_store ctx'))
    /\ ctx_bank ctx'
       = let bank1 :=
           credit (credit (ctx_bank ctx) sender
                          {| Denom := Denom amount; CoinAmount := - CoinAmount total |})
                  ModuleName total in
         if negb isCO
         then credit bank1 ModuleName
                     {| Denom := Denom amount; CoinAmount := - CoinAmount total |}
         else bank1.
Proof.
  intros Hok H. unfold CreateSendToEthereum, Coin_Add in H.
  destruct (String.eqb_spec (Denom amount) (Denom fee)) as [Hd|]; [|discriminate].
  cbn [Denom] in H.
  destruct (DenomToERC20Lookup (ctx_store ctx) (Denom amount))
    as [[isCO tc]|e|e] eqn:EL; try discriminate.
  unfold SendCoinsFromAccountToModule in H.
  destruct (SendCoins (ctx_bank ctx) sender ModuleName _) as [bank1|e|e] eqn:ES;
    try discriminate.
  apply SendCoins_single in ES. cbn [Denom CoinAmount] in ES.
  destruct ES as [Hpos [Hle Hb1]].
  destruct (if negb isCO then _ else _) as [bank2|e|e] eqn:EB; try discriminate.
  rewrite (Increment_ok _ _ _ Hok) in H.
  injection H as Hctx Hid.
  exists isCO, tc. cbn zeta. cbn [CoinAmount].
  split; [now symmetry|]. split; [reflexivity|].
  split; [exact Hpos|]. split; [exact Hle|]. split.
  - rewrite <- Hctx. cbn [ctx_store]. unfold SetUnbatchedSendToEthereum.
    apply pending_In. eexists. rewrite Hid.
    match goal with
    | |- In (?k, _) (store_Set ?k' ?v ?st) =>
        pose proof (store_Get_Set_same k' v st) as G
    end.
    apply store_Get_In in G. exact G.
  - rewrite <- Hctx. cbn [ctx_bank]. subst bank1.
    destruct isCO; cbn [negb] in EB |- *.
    + now injection EB as <-.
    + apply BurnCoins_single in EB. exact EB.
Qed.

(** The refund of a cancel is paid in the voucher denomination of the
    request's contract, whatever denomination the submit took: a balance in
    any other denomination is the same after the call. *)
Lemma Cancel_other_denom (ctx : Context) (send : SendToEthereum) (d : string) :
  Sender send <> ModuleName ->
  d <> GravityDenom (Contract (Erc20Token send)) ->
  balance_after (Cancel ctx send) ctx (Sender send) d = ctx_bank ctx (Sender send) d.
Proof.
  intros Hs Hd. unfold CancelSendToEthereum, NewCoins.
  cbn [Denom CoinAmount GravityCoin].
  set (t := {| Denom := GravityDenom (Contract (Erc20Token send));
               CoinAmount := Amount (Erc20Token send) + Amount (Erc20Fee send) |}).
  destruct (Amount (Erc20Token send) + Amount (Erc20Fee send) <? 0); [reflexivity|].
  destruct (Amount (Erc20Token send) + Amount (Erc20Fee send) =? 0).
  - destruct (negb _); cbn; reflexivity.
  - assert (Hmint : forall b b', MintCoins b ModuleName [t] = Ret b' ->
                                 b' (Sender send) d = b (Sender send) d).
    { intros b b' H. unfold MintCoins in H.
      destruct (negb (coins_valid [t])); [discriminate|].
      injection H as <-. simpl. now apply credit_other. }
    assert (Hsend : forall b b',
               SendCoinsFromModuleToAccount b ModuleName (Sender send) [t] = Ret b' ->
               b' (Sender send) d = b (Sender send) d).
    { intros b b' H. apply SendCoins_single in H. destruct H as [_ [_ ->]].
      rewrite credit_same. unfold t. cbn [Denom CoinAmount].
      apply String.eqb_neq in Hd. rewrite Hd.
      apply credit_other. exact Hs. }
    destruct (negb (fst (ERC20ToDenomLookup (ctx_store ctx)
                                            (Contract (Erc20Token send))))).
    + destruct (MintCoins (ctx_bank ctx) ModuleName [t]) as [b1|e|e] eqn:EM;
        try reflexivity.
      destruct (SendCoinsFromModuleToAccount b1 ModuleName (Sender send) [t])
        as [b2|e|e] eqn:ES; try reflexivity.
      cbn. rewrite (Hsend _ _ ES). now apply Hmint.
    + destruct (SendCoinsFromModuleToAccount (ctx_bank ctx) ModuleName
                                             (Sender send) [t])
        as [b2|e|e] eqn:ES; try reflexivity.
      cbn. now apply Hsend.
Qed.

(** So a submit in a denomination that is not the voucher denomination of
    the contract it resolves to is not undone by cancelling the request: the
    sender stays short of value plus fee. *)
Lemma Create_Cancel_not_restored (ctx ctx' : Context) (sender receiver : string)
      (amount fee : Coin) (id : Z) (isCO : bool) (tc : bytes) :
  Forall entryOk (ctx_store ctx) ->
  sender <> ModuleName ->
  Create ctx sender receiver amount fee = KOk ctx' id ->
  DenomToERC20Lookup (ctx_store ctx) (Denom amount) = Ret (isCO, tc) ->
  Denom amount <> GravityDenom (Address_Hex tc) ->
  balance_after (Cancel ctx' (request_of id sender receiver amount fee tc)) ctx'
                sender (Denom amount)
  = ctx_bank ctx sender (Denom amount) - (CoinAmount amount + CoinAmount fee)
  /\ 0 < CoinAmount amount + CoinAmount fee.
Proof.
  intros Hok Hs HC HL Hd.
  destruct (Create_effect _ _ _ _ _ _ _ Hok HC)
    as [isCO' [tc' [_ [HL' [Hpos [_ [_ Hb]]]]]]].
  rewrite HL in HL'. injection HL' as <- <-.
  cbn [CoinAmount] in Hpos, Hb. split; [|exact Hpos].
  pose proof (Cancel_other_denom ctx' (request_of id sender receiver amount fee tc)
                                 (Denom amount)) as HCa.
  cbn [request_of Sender Erc20Token NewSDKIntERC20Token Contract] in HCa.
  rewrite (HCa Hs Hd). rewrite Hb. cbn zeta.
  destruct isCO; cbn [negb].
  - rewrite credit_other by exact Hs. rewrite credit_same. cbn [Denom CoinAmount].
    rewrite String.eqb_refl. lia.
  - rewrite !credit_other by exact Hs. rewrite credit_same. cbn [Denom CoinAmount].
    rewrite String.eqb_refl. lia.
Qed.

(** When the submit was made in the voucher denomination of the contract it
    resolves to, and the lookup by contract agrees on the asset's origin,
    cancelling the request succeeds and gives the sender back every balance,
    on the burn/mint path and on the retain path alike. *)
Lemma Create_Cancel_restores (ctx ctx' : Context) (sender receiver : string)
      (amount fee : Coin) (id : Z) (isCO : bool) (tc : bytes) :
  Forall entryOk (ctx_store ctx) ->
  sender <> ModuleName ->
  0 <= ctx_bank ctx ModuleName (Denom amount) ->
  Create ctx sender receiver amount fee = KOk ctx' id ->
  DenomToERC20Lookup (ctx_store ctx) (Denom amount) = Ret (isCO, tc) ->
  GravityDenom (Address_Hex tc) = Denom amount ->
  fst (ERC20ToDenomLookup (ctx_store ctx') (Address_Hex tc)) = isCO ->
  exists ctx'',
    Cancel ctx' (request_of id sender receiver amount fee tc) = KOk ctx'' tt
    /\ forall d, ctx_bank ctx'' sender d = ctx_bank ctx sender d.
Proof.
  intros Hok Hs Hm HC HL Hd Ho.
  destruct (Create_effect _ _ _ _ _ _ _ Hok HC)
    as [isCO' [tc' [_ [HL' [Hpos [_ [_ Hb]]]]]]].
  rewrite HL in HL'. injection HL' as <- <-.
  cbn [CoinAmount] in Hpos. cbn zeta in Hb. cbn [CoinAmount] in Hb.
  assert (Hsm : String.eqb ModuleName sender = false)
    by (apply String.eqb_neq; congruence).
  unfold CancelSendToEthereum, NewCoins.
  cbn [request_of Sender Erc20Token Erc20Fee NewSDKIntERC20Token Contract Amount
       GravityCoin Denom CoinAmount Id].
  rewrite Hd, Ho.
  set (t := {| Denom := Denom amount;
               CoinAmount := CoinAmount amount + CoinAmount fee |}) in *.
  destruct (Z.ltb_spec (CoinAmount amount + CoinAmount fee) 0); [lia|].
  destruct (Z.eqb_spec (CoinAmount amount + CoinAmount fee) 0); [lia|].
  unfold SendCoinsFromModuleToAccount.
  destruct isCO; cbn [negb] in Hb |- *.
  - rewrite SendCoins_single_ok; [| exact Hpos |].
    + eexists. split; [reflexivity|]. intro d. cbn [ctx_bank]. rewrite Hb.
      rewrite credit_same. rewrite credit_other by exact Hs.
      rewrite credit_other by exact Hs. rewrite credit_same.
      unfold t. cbn [Denom CoinAmount]. destruct (String.eqb d (Denom amount)); lia.
    + rewrite Hb. unfold t. cbn [Denom CoinAmount]. rewrite credit_same.
      cbn [Denom]. rewrite String.eqb_refl. unfold credit at 1.
      rewrite Hsm. cbn [andb]. unfold t. cbn [CoinAmount]. lia.
  - rewrite (MintCoins_single _ _ t Hpos).
    rewrite SendCoins_single_ok; [| exact Hpos |].
    + eexists. split; [reflexivity|]. intro d. cbn [ctx_bank]. rewrite Hb.
      rewrite credit_same. rewrite !credit_other by exact Hs. rewrite credit_same.
      unfold t. cbn [Denom CoinAmount]. destruct (String.eqb d (Denom amount)); lia.
    + rewrite Hb. unfold t. cbn [Denom CoinAmount]. rewrite !credit_same.
      cbn [Denom]. rewrite !String.eqb_refl. unfold credit at 1.
      rewrite Hsm. cbn [andb]. unfold t. cbn [CoinAmount]. lia.
Qed.

End SubmitCancel.

(** C4, the native path: Alice holds 200 [ufoo], a native denomination
    registered for a contract. She submits 100 with fee 5: the call returns
    id 1 and the module keeps the 105 in custody. Cancelling that very
    request fails in the transfer back, because the refund is asked for in
    the voucher denomination of the contract, which the module does not
    hold; her balance stays at 95. *)
Theorem Create_Cancel_native_not_restored :
  ctx_bank Example.ctx0 Example.alice "ufoo" = 200
  /\ match Example.Create Example.ctx0 Example.alice Example.recipient
                          (Example.coin "ufoo" 100) (Example.coin "ufoo" 5) with
     | KOk ctx1 id =>
         let request :=
           request_of 1 Example.alice Example.recipient (Example.coin "ufoo" 100)
                      (Example.coin "ufoo" 5) (HexToAddress Example.nativeContract) in
         id = 1
         /\ Example.firstPending ctx1 = Some request
         /\ ctx_bank ctx1 Example.ModuleName "ufoo" = 105
         /\ match Example.Cancel ctx1 request with
            | KErr _ e => e = "sending coins from module account"
            | _ => False
            end
         /\ balance_after (Example.Cancel ctx1 request) ctx1 Example.alice "ufoo" = 95
     | _ => False
     end.
Proof. vm_compute. repeat split. Qed.

(** The voucher path on the same state: submit 100 + 5 vouchers, cancel the
    request, and Alice has her 200 vouchers again. *)
Lemma Create_Cancel_voucher_example :
  ctx_bank Example.ctx0 Example.alice (Example.GravityDenom Example.voucherContract)
  = 200
  /\ match Example.Create Example.ctx0 Example.alice Example.recipient
                          (Example.coin (Example.GravityDenom Example.voucherContract) 100)
                          (Example.coin (Example.GravityDenom Example.voucherContract) 5)
     with
     | KOk ctx1 id =>
Example.firstPending ctx1 = Some Example.voucherRequest1
         /\ ctx_bank ctx1 Example.alice (Example.GravityDenom Example.voucherContract)
            = 95
         /\ match Example.Cancel ctx1 Example.voucherRequest1 with
            | KOk ctx2 _ =>
                ctx_bank ctx2 Example.alice
                         (Example.GravityDenom Example.voucherContract) = 200
            | _ => False
            end
     | _ => False
     end.
Proof. vm_compute. repeat split. Qed.

(** The denomination of the refund is computed from the request alone, so no
    naming of voucher denominations makes the native path work: whatever
    [GravityDenom] and the lookup by contract are, for one of the native
    denominations [ufoo] and [ubar] registered for the contract a submit of
    100 + 5 succeeds and cancelling the request leaves Alice at 95 of her
    200. *)
Lemma native_refund_fails_whatever_the_voucher_naming
      (GravityDenom : string -> string)
      (ERC20ToDenomLookup : KVStore -> string -> bool * string) :
  exists denom ctx1,
    CreateSendToEthereum Example.SendToEthereumKey Example.LastSendToEthereumIDKey
Example.ModuleName (Example.nativeLookup denom)
Example.ctxAll Example.alice Example.recipient
                         (Example.coin denom 100) (Example.coin denom 5)
    = KOk ctx1 1
    /\ balance_after
         (CancelSendToEthereum Example.SendToEthereumKey Example.ModuleName
                               ERC20ToDenomLookup GravityDenom ctx1
                               (request_of 1 Example.alice Example.recipient
                                           (Example.coin denom 100)
                                           (Example.coin denom 5)
                                           (HexToAddress Example.nativeContract)))
         ctx1 Example.alice denom
       = 95.
Proof.
  assert (Hc : forall denom,
             exists ctx1,
               CreateSendToEthereum Example.SendToEthereumKey
Example.LastSendToEthereumIDKey Example.ModuleName
                 (Example.nativeLookup denom) Example.ctxAll Example.alice
Example.recipient (Example.coin denom 100) (Example.coin denom 5)
               = KOk ctx1 1).
  { intro denom. unfold CreateSendToEthereum, Coin_Add, Example.nativeLookup.
    cbn [Denom Example.coin CoinAmount]. rewrite !String.eqb_refl.
    eexists. vm_compute. reflexivity. }
  assert (Hgen : forall denom,
             denom <> GravityDenom (Address_Hex (HexToAddress Example.nativeContract)) ->
             exists ctx1,
               CreateSendToEthereum Example.SendToEthereumKey
Example.LastSendToEthereumIDKey Example.ModuleName
                 (Example.nativeLookup denom) Example.ctxAll Example.alice
Example.recipient (Example.coin denom 100) (Example.coin denom 5)
               = KOk ctx1 1
               /\ balance_after
                    (CancelSendToEthereum Example.SendToEthereumKey Example.ModuleName
                       ERC20ToDenomLookup GravityDenom ctx1
                       (request_of 1 Example.alice Example.recipient
                                   (Example.coin denom 100) (Example.coin denom 5)
                                   (HexToAddress Example.nativeContract)))
                    ctx1 Example.alice denom
                  = 95).
  { intros denom Hne. destruct (Hc denom) as [ctx1 H1]. exists ctx1.
    split; [exact H1|].
    pose proof (Create_Cancel_not_restored
Example.SendToEthereumKey Example.LastSendToEthereumIDKey
Example.ModuleName (Example.nativeLookup denom)
                  ERC20ToDenomLookup GravityDenom
Example.ctxAll ctx1 Example.alice Example.recipient
                  (Example.coin denom 100) (Example.coin denom 5) 1 true
                  (HexToAddress Example.nativeContract)) as H.
    cbn [Denom CoinAmount Example.coin] in H.
    destruct H as [H _].
    - constructor.
    - discriminate.
    - exact H1.
    - unfold Example.nativeLookup. now rewrite String.eqb_refl.
    - exact Hne.
    - rewrite H. reflexivity. }
  destruct (string_dec (GravityDenom (Address_Hex (HexToAddress Example.nativeContract)))
                       "ufoo") as [E|E].
  - exists "ubar". apply Hgen. rewrite E. discriminate.
  - exists "ufoo". apply Hgen. congruence.
Qed.

(** * Further properties of the code *)

(** ** Checkpoints: what is hashed *)

Lemma call_tuple_packArgs (c : LogicCallTx) (gid : string) :
  c_Timeout c < 2 ^ 63 -> c_InvalidationNonce c < 2 ^ 63 ->
  call_tuple gid c = LogicCallTx_packArgs c (copy32 (bytes_of_string gid)).
Proof.
  intros Ht Hn. rewrite LogicCallTx_packArgs_eq. unfold call_tuple.
  now rewrite (int64_of_uint64_small _ Ht), (int64_of_uint64_small _ Hn).
Qed.

(** X1: for every logic call whose chain identifier fits in 32 bytes and
    whose timeout and invalidation nonce are below 2^63, [GetCheckpoint]
    returns the 32-byte Keccak-256 hash of the ABI encoding, selector
    dropped, of the eleven-field tuple of the call, the invalidation id cut
    or zero-padded to 32 bytes and the arrays in the call's order. *)
Theorem LogicCallTx_GetCheckpoint_spec (c : LogicCallTx) (gid : string) :
  (String.length gid <= 32)%nat ->
  c_Timeout c < 2 ^ 63 ->
  c_InvalidationNonce c < 2 ^ 63 ->
  exists digest,
    call_checkpoint_spec gid c = Some digest
    /\ LogicCallTx_GetCheckpoint c gid = Ret digest
    /\ length digest = 32%nat.
Proof.
  intros Hfit Ht Hn.
  destruct (LogicCallTx_GetCheckpoint_payload c gid Hfit) as [p [Hp Hc]].
  exists (Keccak.Keccak256 p). split; [|split].
  - unfold call_checkpoint_spec.
    rewrite (call_tuple_packArgs c gid Ht Hn).
    unfold LogicCallTx_payload in Hp. now rewrite Hp.
  - exact Hc.
  - apply Keccak256_length.
Qed.

Lemma LogicCallTx_GetCheckpoint_spec_witness :
  ((String.length "testchain" <= 32)%nat
   /\ c_Timeout Example.call1 < 2 ^ 63
   /\ c_InvalidationNonce Example.call1 < 2 ^ 63)
  /\ exists digest,
      call_checkpoint_spec "testchain" Example.call1 = Some digest
      /\ LogicCallTx_GetCheckpoint Example.call1 "testchain" = Ret digest
      /\ length digest = 32%nat.
Proof.
  split.
  - split; [simpl; lia | split; simpl; lia].
  - apply (LogicCallTx_GetCheckpoint_spec Example.call1 "testchain");
      simpl; lia.
Defined.

(** X2: for a batch and a logic call that are fully populated, every
    transaction present and every amount a set integer (the artifacts of
    this model; a nil transaction or an [sdk.Int] with no value behind it is
    not one), [GetCheckpoint] never takes its error return: an identifier of
    at most 32 bytes gives a 32-byte digest, a longer one a panic. *)
Theorem GetCheckpoint_digest_or_panic (b : BatchTx) (c : LogicCallTx) (gid : string) :
  if (String.length gid <=? 32)%nat
  then (exists d, BatchTx_GetCheckpoint b gid = Ret d /\ length d = 32%nat)
       /\ (exists d, LogicCallTx_GetCheckpoint c gid = Ret d /\ length d = 32%nat)
  else BatchTx_GetCheckpoint b gid = Panic "string too long"
       /\ LogicCallTx_GetCheckpoint c gid = Panic "string too long".
Proof.
  destruct (Nat.leb_spec (String.length gid) 32) as [Hfit|Hlong].
  - destruct (BatchTx_GetCheckpoint_payload b gid Hfit) as [pb [_ Hb]].
    destruct (LogicCallTx_GetCheckpoint_payload c gid Hfit) as [pc [_ Hc]].
    split; eexists; (split; [eassumption | apply Keccak256_length]).
  - unfold BatchTx_GetCheckpoint, LogicCallTx_GetCheckpoint.
    rewrite (strToFixByteArray_long _ Hlong). split; reflexivity.
Qed.

Lemma U256Bytes_mod (z : Z) : ABI.U256Bytes (z mod 2 ^ 256) = ABI.U256Bytes z.
Proof. unfold ABI.U256Bytes. rewrite Z.mod_mod by lia. reflexivity. Qed.

Lemma U256Bytes_inj (a b : Z) :
  ABI.U256Bytes a = ABI.U256Bytes b -> a mod 2 ^ 256 = b mod 2 ^ 256.
Proof.
  intro H. apply (f_equal be_value) in H.
  now rewrite !be_value_U256Bytes in H.
Qed.

(** The bytes hashed depend on the artifact through its view only. *)
Lemma BatchTx_payload_view (b : BatchTx) (gid : string) :
  BatchTx_payload b gid = batch_payload_of_view (batch_view gid b).
Proof.
  unfold BatchTx_payload, batch_payload_of_view, batch_view.
  rewrite BatchTx_packArgs_eq.
  cbn [ABI.encode ABI.inputs OutgoingBatchTxCheckpointABI ABI.packArgs
       ABI.pack ABI.isDynamic].
  rewrite !U256Bytes_mod, !map_map, !length_map.
  unfold tx_view. cbn [fst snd].
  rewrite (map_ext (fun x : SendToEthereum =>
                      ABI.U256Bytes (Amount (Erc20Token x) mod 2 ^ 256))
                   (fun x => ABI.U256Bytes (Amount (Erc20Token x))))
    by (intro; apply U256Bytes_mod).
  rewrite (map_ext (fun x : SendToEthereum =>
                      ABI.U256Bytes (Amount (Erc20Fee x) mod 2 ^ 256))
                   (fun x => ABI.U256Bytes (Amount (Erc20Fee x))))
    by (intro; apply U256Bytes_mod).
  reflexivity.
Qed.

Lemma LogicCallTx_payload_view (c : LogicCallTx) (gid : string) :
  LogicCallTx_payload c gid = call_payload_of_view (call_view gid c).
Proof.
  unfold LogicCallTx_payload, call_payload_of_view, call_view.
  rewrite LogicCallTx_packArgs_eq.
  cbn [ABI.encode ABI.inputs OutgoingLogicCallABI ABI.packArgs
       ABI.pack ABI.isDynamic].
  rewrite !U256Bytes_mod, !map_map, !length_map.
  unfold coin_view. cbn [fst snd].
  rewrite !(map_ext (fun x : Coin => ABI.U256Bytes (CoinAmount x mod 2 ^ 256))
                    (fun x => ABI.U256Bytes (CoinAmount x)))
    by (intro; apply U256Bytes_mod).
  reflexivity.
Qed.

(** X3: the checkpoint of a batch depends on the batch through the chain
    identifier's 32 bytes, the nonce, the timeout, the token contract address
    and, per transaction, the amount, the recipient address and the fee: two
    batches that agree on these have the same checkpoint, whatever the ids,
    the senders and the token contract strings of their transactions are and
    however the addresses are spelled. *)
Theorem BatchTx_GetCheckpoint_view (b1 b2 : BatchTx) (g1 g2 : string) :
  (String.length g1 <= 32)%nat ->
  (String.length g2 <= 32)%nat ->
  batch_view g1 b1 = batch_view g2 b2 ->
  BatchTx_GetCheckpoint b1 g1 = BatchTx_GetCheckpoint b2 g2.
Proof.
  intros H1 H2 Hv.
  destruct (BatchTx_GetCheckpoint_payload b1 g1 H1) as [p1 [Hp1 ->]].
  destruct (BatchTx_GetCheckpoint_payload b2 g2 H2) as [p2 [Hp2 ->]].
  rewrite BatchTx_payload_view in Hp1, Hp2. rewrite Hv in Hp1.
  rewrite Hp1 in Hp2. apply Some_eq in Hp2. now subst p2.
Qed.

Lemma BatchTx_GetCheckpoint_view_witness :
  ((String.length "testchain" <= 32)%nat
   /\ (String.length "testchain" <= 32)%nat
   /\ batch_view "testchain" Example.batch1 = batch_view "testchain" Example.batch1b)
  /\ BatchTx_GetCheckpoint Example.batch1 "testchain"
     = BatchTx_GetCheckpoint Example.batch1b "testchain".
Proof.
  split.
  - split; [simpl; lia | split; [simpl; lia | vm_compute; reflexivity]].
  - apply (BatchTx_GetCheckpoint_view Example.batch1 Example.batch1b
                                      "testchain" "testchain");
      [simpl; lia | simpl; lia | vm_compute; reflexivity].
Defined.

(** X4: the checkpoint of a logic call depends on the call through the chain
    identifier's 32 bytes, the token and fee amounts with the addresses their
    denominations decode to, the logic contract address, the payload, the
    timeout, the first 32 bytes of the invalidation id, zero-padded, and the
    invalidation nonce: an invalidation id and the same id followed by zero
    bytes give one checkpoint. *)
Theorem LogicCallTx_GetCheckpoint_view (c1 c2 : LogicCallTx) (g1 g2 : string) :
  (String.length g1 <= 32)%nat ->
  (String.length g2 <= 32)%nat ->
  call_view g1 c1 = call_view g2 c2 ->
  LogicCallTx_GetCheckpoint c1 g1 = LogicCallTx_GetCheckpoint c2 g2.
Proof.
  intros H1 H2 Hv.
  destruct (LogicCallTx_GetCheckpoint_payload c1 g1 H1) as [p1 [Hp1 ->]].
  destruct (LogicCallTx_GetCheckpoint_payload c2 g2 H2) as [p2 [Hp2 ->]].
  rewrite LogicCallTx_payload_view in Hp1, Hp2. rewrite Hv in Hp1.
  rewrite Hp1 in Hp2. apply Some_eq in Hp2. now subst p2.
Qed.

Lemma LogicCallTx_GetCheckpoint_view_witness :
  ((String.length "testchain" <= 32)%nat
   /\ (String.length "testchain" <= 32)%nat
   /\ call_view "testchain" Example.call1 = call_view "testchain" Example.call1b)
  /\ LogicCallTx_GetCheckpoint Example.call1 "testchain"
     = LogicCallTx_GetCheckpoint Example.call1b "testchain".
Proof.
  split.
  - split; [simpl; lia | split; [simpl; lia | vm_compute; reflexivity]].
  - apply (LogicCallTx_GetCheckpoint_view Example.call1 Example.call1b
                                          "testchain" "testchain");
      [simpl; lia | simpl; lia | vm_compute; reflexivity].
Defined.

(** *** The batch payload determines the view *)

Lemma concat_words_length (l : list bytes) :
  Forall (fun w => length w = 32%nat) l -> length (concat l) = (32 * length l)%nat.
Proof.
  induction 1 as [|w l Hw _ IH]; simpl; [reflexivity|].
  rewrite length_app, Hw, IH. lia.
Qed.

Lemma concat_words_inj (l1 : list bytes) :
  forall l2,
    Forall (fun w => length w = 32%nat) l1 ->
    Forall (fun w => length w = 32%nat) l2 ->
    concat l1 = concat l2 -> l1 = l2.
Proof.
  induction l1 as [|w1 l1 IH]; intros [|w2 l2] H1 H2 E; simpl in E.
  - reflexivity.
  - apply Forall_cons_iff in H2. destruct H2 as [Hw _].
    apply (f_equal (@length Z)) in E. rewrite length_app in E. simpl in E. lia.
  - apply Forall_cons_iff in H1. destruct H1 as [Hw _].
    apply (f_equal (@length Z)) in E. rewrite length_app in E. simpl in E. lia.
  - apply Forall_cons_iff in H1. destruct H1 as [Hw1 H1].
    apply Forall_cons_iff in H2. destruct H2 as [Hw2 H2].
    apply app_eq_length in E; [|lia]. destruct E as [-> E].
    f_equal. now apply IH.
Qed.

Lemma Forall_U256Bytes (l : list Z) :
  Forall (fun w => length w = 32%nat) (map ABI.U256Bytes l).
Proof.
  apply Forall_forall. intros w Hw. apply in_map_iff in Hw.
  destruct Hw as [z [<- _]]. apply U256Bytes_length.
Qed.

Lemma Forall_LeftPad32 (l : list bytes) :
  Forall (fun a => length a = 20%nat) l ->
  Forall (fun w => length w = 32%nat) (map ABI.LeftPad32 l).
Proof.
  intro H. apply Forall_forall. intros w Hw. apply in_map_iff in Hw.
  destruct Hw as [a [<- Ha]]. rewrite Forall_forall in H.
  apply LeftPad32_length. rewrite (H a Ha). lia.
Qed.

Lemma LeftPad32_inj (a b : bytes) :
  length a = 20%nat -> length b = 20%nat ->
  ABI.LeftPad32 a = ABI.LeftPad32 b -> a = b.
Proof.
  intros Ha Hb H. unfold ABI.LeftPad32 in H. rewrite Ha, Hb in H.
  now apply app_inv_head in H.
Qed.

Lemma map_inj_on {A B : Type} (f : A -> B) (P : A -> Prop) :
  (forall x y, P x -> P y -> f x = f y -> x = y) ->
  forall l1 l2, Forall P l1 -> Forall P l2 -> map f l1 = map f l2 -> l1 = l2.
Proof.
  intro Hinj. induction l1 as [|x l1 IH]; intros [|y l2] H1 H2 E; simpl in E;
    try discriminate; [reflexivity|].
  apply Forall_cons_iff in H1. destruct H1 as [Hx H1].
  apply Forall_cons_iff in H2. destruct H2 as [Hy H2].
  injection E as Exy E. f_equal; [now apply Hinj | now apply IH].
Qed.

Lemma app_word_inj (w1 w2 r1 r2 : bytes) :
  length w1 = 32%nat -> length w2 = 32%nat ->
  w1 ++ r1 = w2 ++ r2 -> w1 = w2 /\ r1 = r2.
Proof. intros H1 H2 E. apply app_eq_length; [exact E | lia]. Qed.

Lemma array_tail_length_U (l : list Z) :
  length (ABI.packNum (length l) ++ concat (map ABI.U256Bytes l))
  = (32 + 32 * length l)%nat.
Proof.
  rewrite length_app. unfold ABI.packNum. rewrite U256Bytes_length.
  rewrite concat_words_length by apply Forall_U256Bytes.
  now rewrite length_map.
Qed.

Lemma array_tail_length_A (l : list bytes) :
  Forall (fun a => length a = 20%nat) l ->
  length (ABI.packNum (length l) ++ concat (map ABI.LeftPad32 l))
  = (32 + 32 * length l)%nat.
Proof.
  intro H. rewrite length_app. unfold ABI.packNum. rewrite U256Bytes_length.
  rewrite concat_words_length by now apply Forall_LeftPad32.
  now rewrite length_map.
Qed.

Lemma array_tail_inj_U (l1 l2 : list Z) (r1 r2 : bytes) :
  length l1 = length l2 ->
  ABI.packNum (length l1) ++ concat (map ABI.U256Bytes l1) ++ r1
  = ABI.packNum (length l2) ++ concat (map ABI.U256Bytes l2) ++ r2 ->
  map ABI.U256Bytes l1 = map ABI.U256Bytes l2 /\ r1 = r2.
Proof.
  intros L E. rewrite !app_assoc in E. apply app_eq_length in E.
  - destruct E as [E ->]. split; [|reflexivity].
    rewrite L in E. apply app_inv_head in E.
    apply concat_words_inj in E; auto using Forall_U256Bytes.
  - rewrite !array_tail_length_U. lia.
Qed.

Lemma array_tail_inj_A (l1 l2 : list bytes) (r1 r2 : bytes) :
  Forall (fun a => length a = 20%nat) l1 ->
  Forall (fun a => length a = 20%nat) l2 ->
  length l1 = length l2 ->
  ABI.packNum (length l1) ++ concat (map ABI.LeftPad32 l1) ++ r1
  = ABI.packNum (length l2) ++ concat (map ABI.LeftPad32 l2) ++ r2 ->
  l1 = l2 /\ r1 = r2.
Proof.
  intros F1 F2 L E. rewrite !app_assoc in E. apply app_eq_length in E.
  - destruct E as [E ->]. split; [|reflexivity].
    rewrite L in E. apply app_inv_head in E.
    apply concat_words_inj in E; auto using Forall_LeftPad32.
    revert E. apply (map_inj_on ABI.LeftPad32 (fun a => length a = 20%nat)); auto.
    intros x y Hx Hy. now apply LeftPad32_inj.
  - rewrite !array_tail_length_A by assumption. lia.
Qed.

Lemma Forall_HexToAddress {A : Type} (f : A -> string) (l : list A) :
  Forall (fun a => length a = 20%nat) (map (fun x => HexToAddress (f x)) l).
Proof.
  apply Forall_forall. intros a Ha. apply in_map_iff in Ha.
  destruct Ha as [x [<- _]]. apply HexToAddress_length.
Qed.

Lemma cons_inj {A : Type} (x y : A) (l1 l2 : list A) :
  x :: l1 = y :: l2 -> x = y /\ l1 = l2.
Proof. intro H. now inversion H. Qed.

Lemma tx_view_rebuild (l1 : list SendToEthereum) :
  forall l2,
    map ABI.U256Bytes (map (fun tx => Amount (Erc20Token tx)) l1)
    = map ABI.U256Bytes (map (fun tx => Amount (Erc20Token tx)) l2) ->
    map (fun tx => HexToAddress (EthereumRecipient tx)) l1
    = map (fun tx => HexToAddress (EthereumRecipient tx)) l2 ->
    map ABI.U256Bytes (map (fun tx => Amount (Erc20Fee tx)) l1)
    = map ABI.U256Bytes (map (fun tx => Amount (Erc20Fee tx)) l2) ->
    map tx_view l1 = map tx_view l2.
Proof.
  induction l1 as [|x l1 IH]; intros [|y l2] Ha Hr Hf; cbn [map] in Ha, Hr, Hf;
    try discriminate; [reflexivity|].
  apply cons_inj in Ha, Hr, Hf.
  destruct Ha as [Ha Ha'], Hr as [Hr Hr'], Hf as [Hf Hf'].
  cbn [map]. f_equal; [|now apply IH].
  unfold tx_view. apply U256Bytes_inj in Ha, Hf. now rewrite Ha, Hr, Hf.
Qed.

(** X5: the bytes a batch checkpoint hashes determine everything the
    checkpoint reads: two batches, each with its chain identifier, have the
    same hashed payload exactly when they agree on the identifier's 32
    bytes, the nonce, the timeout, the token contract address and, in
    order, on every transaction's amount, recipient address and fee. Two
    batches that differ in one of these can share a checkpoint only through
    a Keccak-256 collision. *)
Theorem BatchTx_payload_determines_view (b1 b2 : BatchTx) (g1 g2 : string) :
  BatchTx_payload b1 g1 = BatchTx_payload b2 g2
  <-> batch_view g1 b1 = batch_view g2 b2.
Proof.
  split.
  2:{ intro Hv. now rewrite !BatchTx_payload_view, Hv. }
  unfold BatchTx_payload, batch_view.
  rewrite !BatchTx_packArgs_eq.
  cbn [ABI.encode ABI.inputs OutgoingBatchTxCheckpointABI ABI.packArgs
       ABI.pack ABI.isDynamic].
  intro E. apply Some_eq in E.
  set (am1 := map (fun tx => Amount (Erc20Token tx)) (b_Transactions b1)) in *.
  set (am2 := map (fun tx => Amount (Erc20Token tx)) (b_Transactions b2)) in *.
  set (re1 := map (fun tx => HexToAddress (EthereumRecipient tx)) (b_Transactions b1)) in *.
  set (re2 := map (fun tx => HexToAddress (EthereumRecipient tx)) (b_Transactions b2)) in *.
  set (fe1 := map (fun tx => Amount (Erc20Fee tx)) (b_Transactions b1)) in *.
  set (fe2 := map (fun tx => Amount (Erc20Fee tx)) (b_Transactions b2)) in *.
  assert (Hre1 : Forall (fun a => length a = 20%nat) re1)
    by apply Forall_HexToAddress.
  assert (Hre2 : Forall (fun a => length a = 20%nat) re2)
    by apply Forall_HexToAddress.
  assert (La1 : length am1 = length (b_Transactions b1)) by apply length_map.
  assert (La2 : length am2 = length (b_Transactions b2)) by apply length_map.
  assert (Lr1 : length re1 = length (b_Transactions b1)) by apply length_map.
  assert (Lr2 : length re2 = length (b_Transactions b2)) by apply length_map.
  assert (Lf1 : length fe1 = length (b_Transactions b1)) by apply length_map.
  assert (Lf2 : length fe2 = length (b_Transactions b2)) by apply length_map.
  rewrite !(RightPad32_full (copy32 _)) in E by apply copy32_length.
  rewrite <- !app_assoc in E.
  rewrite (RightPad32_full batchMethodName) in E by reflexivity.
  apply app_word_inj in E; [|word_len|word_len]. destruct E as [Hg E].
  apply app_word_inj in E; [|reflexivity|reflexivity]. destruct E as [_ E].
  apply app_word_inj in E; [|word_len|word_len]. destruct E as [_ E].
  apply app_word_inj in E; [|word_len|word_len]. destruct E as [_ E].
  apply app_word_inj in E; [|word_len|word_len]. destruct E as [_ E].
  apply app_word_inj in E; [|word_len|word_len]. destruct E as [Hn E].
  apply app_word_inj in E; [|word_len|word_len]. destruct E as [Htc E].
  apply app_word_inj in E; [|word_len|word_len]. destruct E as [Ht E].
  cbn [app] in E.
  assert (L : length (b_Transactions b1) = length (b_Transactions b2)).
  { apply (f_equal (@length Z)) in E.
    rewrite !length_app in E. unfold ABI.packNum in E.
    rewrite !U256Bytes_length in E.
    rewrite !concat_words_length in E
      by auto using Forall_U256Bytes, Forall_LeftPad32.
    rewrite !length_map in E. fold am1 am2 re1 re2 fe1 fe2 in E.
    cbn [length] in E. lia. }
  apply array_tail_inj_U in E; [|lia]. destruct E as [Ham E].
  apply array_tail_inj_A in E; [|assumption|assumption|lia]. destruct E as [Hre E].
  apply array_tail_inj_U in E; [|lia]. destruct E as [Hfe _].
  apply U256Bytes_inj in Hn, Ht.
  apply LeftPad32_inj in Htc; [|apply HexToAddress_length|apply HexToAddress_length].
  rewrite Hg, Hn, Htc, Ht.
  now rewrite (tx_view_rebuild _ _ Ham Hre Hfe).
Qed.

(** *** The logic-call payload determines the view *)

Lemma coin_view_rebuild (l1 : list Coin) :
  forall l2,
    map ABI.U256Bytes (map CoinAmount l1) = map ABI.U256Bytes (map CoinAmount l2) ->
    map (fun tx => HexToAddress (Denom tx)) l1
    = map (fun tx => HexToAddress (Denom tx)) l2 ->
    map coin_view l1 = map coin_view l2.
Proof.
  induction l1 as [|x l1 IH]; intros [|y l2] Ha Hr; cbn [map] in Ha, Hr;
    try discriminate; [reflexivity|].
  apply cons_inj in Ha, Hr.
  destruct Ha as [Ha Ha'], Hr as [Hr Hr'].
  cbn [map]. f_equal; [|now apply IH].
  unfold coin_view. apply U256Bytes_inj in Ha. now rewrite Ha, Hr.
Qed.

Lemma packNum_inj (a b : nat) :
  Z.of_nat a < 2 ^ 256 -> Z.of_nat b < 2 ^ 256 ->
  ABI.packNum a = ABI.packNum b -> a = b.
Proof.
  intros Ha Hb H. unfold ABI.packNum in H. apply U256Bytes_inj in H.
  rewrite !Z.mod_small in H by lia. lia.
Qed.

Lemma RightPad_inj (n : nat) (a b : bytes) :
  length a = length b -> ABI.RightPad n a = ABI.RightPad n b -> a = b.
Proof.
  unfold ABI.RightPad. intros L H. apply app_eq_length in H; [|exact L].
  exact (proj1 H).
Qed.

(** X6: the bytes a logic-call checkpoint hashes determine everything the
    checkpoint reads: two logic calls (fewer than 2^64 tokens, fees and
    payload bytes each) have the same hashed payload exactly when they
    agree on the chain identifier's 32 bytes, on the token and fee amounts
    and addresses in order, on the logic contract address, the payload, the
    timeout, the 32 bytes of the invalidation id and the invalidation
    nonce. *)
Theorem LogicCallTx_payload_determines_view (c1 c2 : LogicCallTx) (g1 g2 : string) :
  Z.of_nat (length (c_Tokens c1)) < 2 ^ 64 ->
  Z.of_nat (length (c_Fees c1)) < 2 ^ 64 ->
  Z.of_nat (length (c_Payload c1)) < 2 ^ 64 ->
  Z.of_nat (length (c_Tokens c2)) < 2 ^ 64 ->
  Z.of_nat (length (c_Fees c2)) < 2 ^ 64 ->
  Z.of_nat (length (c_Payload c2)) < 2 ^ 64 ->
  (LogicCallTx_payload c1 g1 = LogicCallTx_payload c2 g2
   <-> call_view g1 c1 = call_view g2 c2).
Proof.
  intros Bt1 Bf1 Bp1 Bt2 Bf2 Bp2. split.
  2:{ intro Hv. now rewrite !LogicCallTx_payload_view, Hv. }
  unfold LogicCallTx_payload, call_view.
  rewrite !LogicCallTx_packArgs_eq.
  cbn [ABI.encode ABI.inputs OutgoingLogicCallABI ABI.packArgs
       ABI.pack ABI.isDynamic].
  intro E. apply Some_eq in E.
  set (ta1 := map CoinAmount (c_Tokens c1)) in *.
  set (ta2 := map CoinAmount (c_Tokens c2)) in *.
  set (td1 := map (fun tx => HexToAddress (Denom tx)) (c_Tokens c1)) in *.
  set (td2 := map (fun tx => HexToAddress (Denom tx)) (c_Tokens c2)) in *.
  set (fa1 := map CoinAmount (c_Fees c1)) in *.
  set (fa2 := map CoinAmount (c_Fees c2)) in *.
  set (fd1 := map (fun tx => HexToAddress (Denom tx)) (c_Fees c1)) in *.
  set (fd2 := map (fun tx => HexToAddress (Denom tx)) (c_Fees c2)) in *.
  assert (Htd1 : Forall (fun a => length a = 20%nat) td1)
    by apply Forall_HexToAddress.
  assert (Htd2 : Forall (fun a => length a = 20%nat) td2)
    by apply Forall_HexToAddress.
  assert (Hfd1 : Forall (fun a => length a = 20%nat) fd1)
    by apply Forall_HexToAddress.
  assert (Hfd2 : Forall (fun a => length a = 20%nat) fd2)
    by apply Forall_HexToAddress.
  assert (Lta1 : length ta1 = length (c_Tokens c1)) by apply length_map.
  assert (Lta2 : length ta2 = length (c_Tokens c2)) by apply length_map.
  assert (Ltd1 : length td1 = length (c_Tokens c1)) by apply length_map.
  assert (Ltd2 : length td2 = length (c_Tokens c2)) by apply length_map.
  assert (Lfa1 : length fa1 = length (c_Fees c1)) by apply length_map.
  assert (Lfa2 : length fa2 = length (c_Fees c2)) by apply length_map.
  assert (Lfd1 : length fd1 = length (c_Fees c1)) by apply length_map.
  assert (Lfd2 : length fd2 = length (c_Fees c2)) by apply length_map.
  rewrite !(RightPad32_full (copy32 _)) in E by apply copy32_length.
  rewrite (RightPad32_full logicCallMethodName) in E by reflexivity.
  rewrite !array_tail_length_U in E.
  rewrite !array_tail_length_A in E by assumption.
  rewrite <- !app_assoc in E.
  cbn [length] in E.
  apply app_word_inj in E; [|word_len|word_len]. destruct E as [Hg E].
  apply app_word_inj in E; [|reflexivity|reflexivity]. destruct E as [_ E].
  apply app_word_inj in E; [|word_len|word_len]. destruct E as [_ E].
  apply app_word_inj in E; [|word_len|word_len]. destruct E as [Ho3 E].
  apply app_word_inj in E; [|word_len|word_len]. destruct E as [_ E].
  apply app_word_inj in E; [|word_len|word_len]. destruct E as [Ho5 E].
  apply app_word_inj in E; [|word_len|word_len]. destruct E as [Hlc E].
  apply app_word_inj in E; [|word_len|word_len]. destruct E as [_ E].
  apply app_word_inj in E; [|word_len|word_len]. destruct E as [Ht E].
  apply app_word_inj in E; [|word_len|word_len]. destruct E as [Hinv E].
  apply app_word_inj in E; [|word_len|word_len]. destruct E as [Hn E].
  cbn [app] in E.
  apply packNum_inj in Ho3; [|lia|lia].
  apply packNum_inj in Ho5; [|lia|lia].
  assert (Lt : length (c_Tokens c1) = length (c_Tokens c2)) by lia.
  assert (Lf : length (c_Fees c1) = length (c_Fees c2)) by lia.
  apply array_tail_inj_U in E; [|lia]. destruct E as [Hta E].
  apply array_tail_inj_A in E; [|assumption|assumption|lia]. destruct E as [Htd E].
  apply array_tail_inj_U in E; [|lia]. destruct E as [Hfa E].
  apply array_tail_inj_A in E; [|assumption|assumption|lia]. destruct E as [Hfd E].
  apply app_word_inj in E; [|word_len|word_len]. destruct E as [Hp E].
  apply packNum_inj in Hp; [|lia|lia].
  rewrite !app_nil_r, Hp in E. apply RightPad_inj in E; [|exact Hp].
  apply U256Bytes_inj in Ht, Hn.
  apply LeftPad32_inj in Hlc; [|apply HexToAddress_length|apply HexToAddress_length].
  rewrite Hg, Hlc, Ht, Hinv, Hn, E.
  rewrite (coin_view_rebuild _ _ Hta Htd), (coin_view_rebuild _ _ Hfa Hfd).
  reflexivity.
Qed.

Lemma LogicCallTx_payload_determines_view_witness :
  (Z.of_nat (length (c_Tokens Example.call1)) < 2 ^ 64
   /\ Z.of_nat (length (c_Fees Example.call1)) < 2 ^ 64
   /\ Z.of_nat (length (c_Payload Example.call1)) < 2 ^ 64
   /\ Z.of_nat (length (c_Tokens Example.call1b)) < 2 ^ 64
   /\ Z.of_nat (length (c_Fees Example.call1b)) < 2 ^ 64
   /\ Z.of_nat (length (c_Payload Example.call1b)) < 2 ^ 64)
  /\ (LogicCallTx_payload Example.call1 "testchain"
      = LogicCallTx_payload Example.call1b "testchain"
      <-> call_view "testchain" Example.call1 = call_view "testchain" Example.call1b).
Proof.
  split.
  - repeat split; reflexivity.
  - apply (LogicCallTx_payload_determines_view
             Example.call1 Example.call1b "testchain" "testchain");
      reflexivity.
Defined.

(** ** Confirmations: what [Validate] accepts *)

Lemma is_hex_spec (s : string) :
  is_hex s = Nat.even (String.length s) && all_hex s.
Proof.
  assert (H : forall s,
             is_hex s = Nat.even (String.length s) && all_hex s
             /\ forall c, is_hex (String c s)
                          = Nat.even (String.length (String c s))
                            && all_hex (String c s)).
  { clear s. induction s as [|q r [IH1 IH2]].
    - split; [reflexivity|]. intro c. reflexivity.
    - split; [apply IH2|]. intro c.
      unfold is_hex. cbn [hex_DecodeString all_hex String.length Nat.even].
      destruct (hex_digit c); [|now rewrite andb_false_r].
      destruct (hex_digit q); [|now rewrite andb_false_r].
      unfold is_hex in IH1. rewrite <- IH1.
      now destruct (hex_DecodeString r). }
  apply H.
Qed.

Lemma has0xPrefix_not_hex (s : string) : has0xPrefix s = true -> is_hex s = false.
Proof.
  destruct s as [|a [|b r]]; try discriminate.
  cbn [has0xPrefix]. intro H. apply andb_prop in H. destruct H as [_ H].
  unfold is_hex. cbn [hex_DecodeString].
  assert (Hb : hex_digit b = None).
  { unfold hex_digit. apply orb_prop in H.
    destruct H as [H|H]; apply Z.eqb_eq in H; rewrite H; reflexivity. }
  rewrite Hb. now destruct (hex_digit a).
Qed.

(** X7: [Validate] accepts a confirmation exactly when every check it makes
    passes: the orchestrator address parses, the Ethereum addresses are
    valid, and, for a batch and a logic-call confirmation, the signature
    (and the invalidation id of a logic call) has an even number of
    characters, all of them hex digits. A signer-set confirmation is
    accepted on its two addresses alone. *)
Theorem Validate_accepts_iff
        (bech32 : string -> bool) (ethCheck : string -> option string)
        (b : ConfirmBatch) (c : ConfirmLogicCall) (v : ConfirmValset) :
  (ConfirmBatch_Validate bech32 ethCheck b = None
   <-> bech32 (cb_OrchestratorAddress b) = true
       /\ ethCheck (cb_EthSigner b) = None
       /\ ethCheck (cb_TokenContract b) = None
       /\ Nat.even (String.length (cb_Signature b)) = true
       /\ all_hex (cb_Signature b) = true)
  /\ (ConfirmLogicCall_Validate bech32 ethCheck c = None
      <-> bech32 (cl_OrchestratorAddress c) = true
          /\ ethCheck (cl_EthSigner c) = None
          /\ Nat.even (String.length (cl_Signature c)) = true
          /\ all_hex (cl_Signature c) = true
          /\ Nat.even (String.length (cl_InvalidationId c)) = true
          /\ all_hex (cl_InvalidationId c) = true)
  /\ (ConfirmValset_Validate bech32 ethCheck v = None
      <-> bech32 (cv_OrchestratorAddress v) = true
          /\ ethCheck (cv_EthAddress v) = None).
Proof.
  unfold ConfirmBatch_Validate, ConfirmLogicCall_Validate, ConfirmValset_Validate.
  rewrite !is_hex_spec.
  split; [|split].
  - destruct (bech32 (cb_OrchestratorAddress b)); cbn [negb];
      [|split; [discriminate | intros [H _]; discriminate]].
    destruct (ethCheck (cb_EthSigner b));
      [split; [discriminate | intros (_ & H & _); discriminate]|].
    destruct (ethCheck (cb_TokenContract b));
      [split; [discriminate | intros (_ & _ & H & _); discriminate]|].
    destruct (Nat.even (String.length (cb_Signature b)));
      destruct (all_hex (cb_Signature b)); cbn [andb negb];
      split; try discriminate; try (intros (_ & _ & _ & H1 & H2); discriminate);
      intros _; repeat split.
  - destruct (bech32 (cl_OrchestratorAddress c)); cbn [negb];
      [|split; [discriminate | intros [H _]; discriminate]].
    destruct (ethCheck (cl_EthSigner c));
      [split; [discriminate | intros (_ & H & _); discriminate]|].
    destruct (Nat.even (String.length (cl_Signature c)));
      destruct (all_hex (cl_Signature c));
      destruct (Nat.even (String.length (cl_InvalidationId c)));
      destruct (all_hex (cl_InvalidationId c)); cbn [andb negb];
      split; try discriminate;
      try (intros (_ & _ & H1 & H2 & H3 & H4); discriminate);
      intros _; repeat split.
  - destruct (bech32 (cv_OrchestratorAddress v)); cbn [negb];
      [|split; [discriminate | intros [H _]; discriminate]].
    destruct (ethCheck (cv_EthAddress v));
      [split; [discriminate | intros (_ & H); discriminate]|].
    split; intros _; repeat split.
Qed.

(** X8: signatures are decoded as bare hex: a batch or logic-call
    confirmation whose signature starts with [0x] or [0X] is rejected,
    whatever follows the prefix and whatever the addresses are. *)
Theorem Validate_rejects_0x_signature
        (bech32 : string -> bool) (ethCheck : string -> option string)
        (sig : string) :
  has0xPrefix sig = true ->
  (forall b, cb_Signature b = sig ->
             ConfirmBatch_Validate bech32 ethCheck b <> None)
  /\ (forall c, cl_Signature c = sig ->
                ConfirmLogicCall_Validate bech32 ethCheck c <> None).
Proof.
  intro H. apply has0xPrefix_not_hex in H. split.
  - intros b Hb. unfold ConfirmBatch_Validate.
    destruct (bech32 _); cbn [negb]; [|discriminate].
    destruct (ethCheck (cb_EthSigner b)); [discriminate|].
    destruct (ethCheck (cb_TokenContract b)); [discriminate|].
    rewrite Hb, H. discriminate.
  - intros c Hc. unfold ConfirmLogicCall_Validate.
    destruct (bech32 _); cbn [negb]; [|discriminate].
    destruct (ethCheck (cl_EthSigner c)); [discriminate|].
    rewrite Hc, H. discriminate.
Qed.

Lemma Validate_rejects_0x_signature_witness :
  has0xPrefix "0x0a1b" = true
  /\ ConfirmBatch_Validate Example.AccAddressFromBech32 Example.ValidateEthAddress
                           Example.confirmBatch0x <> None.
Proof.
  split; [reflexivity|].
  apply (proj1 (Validate_rejects_0x_signature
                  Example.AccAddressFromBech32 Example.ValidateEthAddress
                  "0x0a1b" eq_refl)).
  reflexivity.
Defined.

(** ** The pool: listing, order, submit and cancel *)

Lemma pending_app (a b : KVStore) : pending (a ++ b) = pending a ++ pending b.
Proof.
  induction a as [|[k [bz|ste]] a IH]; cbn [app pending]; [reflexivity| |];
    now rewrite IH.
Qed.

Lemma pending_rev (st : KVStore) : pending (rev st) = rev (pending st).
Proof.
  induction st as [|[k [bz|ste]] st IH]; cbn [rev pending]; [reflexivity| |];
    rewrite pending_app, IH; cbn [pending]; [apply app_nil_r | reflexivity].
Qed.

Lemma store_Delete_absent (k : bytes) (st : KVStore) :
  store_Get k st = None -> store_Delete k st = st.
Proof.
  unfold store_Delete. induction st as [|[k' v] st IH]; intro H; [reflexivity|].
  cbn [store_Get] in H. cbn [filter fst].
  destruct (bytes_eqb k k'); [discriminate|]. cbn [negb]. now rewrite IH.
Qed.

Lemma store_Delete_Set (k : bytes) (v : value) (st : KVStore) :
  store_Delete k (store_Set k v st) = store_Delete k st.
Proof.
  unfold store_Delete. induction st as [|[k' v'] st IH]; cbn [store_Set filter fst].
  - assert (E : bytes_eqb k k = true) by now apply bytes_eqb_eq.
    now rewrite E.
  - assert (E : bytes_eqb k k = true) by now apply bytes_eqb_eq.
    unfold bytes_eqb at 2.
    destruct (bytes_compare k k') eqn:C; cbn [filter fst negb].
    + now rewrite E.
    + rewrite E. cbn [negb]. unfold bytes_eqb at 1. now rewrite C.
    + unfold bytes_eqb at 1. rewrite C. cbn [negb]. now rewrite IH.
Qed.

Lemma be_bytes_compare_lex (n : nat) (a b : Z) (x y : bytes) :
  bytes_compare (be_bytes n a ++ x) (be_bytes n b ++ y) = Lt ->
  a mod 256 ^ Z.of_nat n < b mod 256 ^ Z.of_nat n
  \/ (a mod 256 ^ Z.of_nat n = b mod 256 ^ Z.of_nat n /\ bytes_compare x y = Lt).
Proof.
  induction n as [|n IH]; intro H.
  - right. cbn [Z.of_nat]. rewrite !Z.mod_1_r. now split.
  - rewrite !be_bytes_S in H. cbn [app bytes_compare] in H.
    rewrite Nat2Z.inj_succ, Z.pow_succ_r by lia.
    rewrite (Z.mul_comm 256 (256 ^ Z.of_nat n)).
    rewrite !(Z.rem_mul_r _ (256 ^ Z.of_nat n) 256) by lia.
    set (P := 256 ^ Z.of_nat n) in *.
    assert (HP : 0 < P) by (unfold P; lia).
    pose proof (Z.mod_pos_bound a P HP) as Ha.
    pose proof (Z.mod_pos_bound b P HP) as Hb.
    destruct ((a / P) mod 256 ?= (b / P) mod 256) eqn:E.
    + apply Z.compare_eq in E. rewrite E.
      destruct (IH H) as [IH'|[IH1 IH2]]; [left; lia | right; split; [lia|exact IH2]].
    + rewrite Z.compare_lt_iff in E. left. nia.
    + discriminate H.
Qed.

Lemma be_bytes_inj (n : nat) (a b : Z) :
  be_bytes n a = be_bytes n b -> a mod 256 ^ Z.of_nat n = b mod 256 ^ Z.of_nat n.
Proof.
  intro H. apply (f_equal be_value) in H. now rewrite !be_value_be_bytes in H.
Qed.

Lemma key_order_lex (p : bytes) (f1 f2 id1 id2 : Z) :
  0 <= f1 < 2 ^ 256 -> 0 <= f2 < 2 ^ 256 ->
  0 <= id1 < 2 ^ 64 -> 0 <= id2 < 2 ^ 64 ->
  bytes_lt (p ++ be_bytes 32 f2 ++ be_bytes 8 id2)
           (p ++ be_bytes 32 f1 ++ be_bytes 8 id1) ->
  f2 < f1 \/ (f2 = f1 /\ id2 < id1).
Proof.
  intros H1 H2 H3 H4 H. unfold bytes_lt in H. rewrite bytes_compare_app in H.
  apply be_bytes_compare_lex in H.
  change (256 ^ Z.of_nat 32) with (2 ^ 256) in H.
  rewrite !Z.mod_small in H by assumption.
  destruct H as [H|[H H']]; [now left|right]. split; [exact H|].
  rewrite <- (app_nil_r (be_bytes 8 id2)), <- (app_nil_r (be_bytes 8 id1)) in H'.
  apply be_bytes_compare_lex in H'.
  change (256 ^ Z.of_nat 8) with (2 ^ 64) in H'.
  rewrite !Z.mod_small in H' by assumption.
  destruct H' as [H'|[_ H']]; [exact H' | discriminate H'].
Qed.

Section PoolFurther.

Variable SendToEthereumKey : Z.
Variable LastSendToEthereumIDKey : Z.
Variable ModuleName : string.
Variable DenomToERC20Lookup : KVStore -> string -> outcome (bool * bytes).
Variable ERC20ToDenomLookup : KVStore -> string -> bool * string.
Variable GravityDenom : string -> string.

Local Abbreviation Key := (GetSendToEthereumKey SendToEthereumKey).
Local Abbreviation CounterKey := [LastSendToEthereumIDKey].
Local Abbreviation Create :=
  (CreateSendToEthereum SendToEthereumKey LastSendToEthereumIDKey ModuleName
                        DenomToERC20Lookup).
Local Abbreviation Cancel :=
  (CancelSendToEthereum SendToEthereumKey ModuleName ERC20ToDenomLookup GravityDenom).
Local Abbreviation lastId := (last_id LastSendToEthereumIDKey).
Local Abbreviation poolOk := (pool_ok SendToEthereumKey LastSendToEthereumIDKey).
Local Abbreviation poolInv := (pool_inv SendToEthereumKey LastSendToEthereumIDKey).
Local Abbreviation entryOk := (entry_ok SendToEthereumKey LastSendToEthereumIDKey).

Lemma iterate_collect (it : list (bytes * value)) :
  Forall (fun e => exists ste, snd e = VSend ste) it ->
  forall acc,
    iterate it (fun ste out => (out ++ [ste], false)) acc = Ret (acc ++ pending it).
Proof.
  induction it as [|[k v] r IH]; intros H acc.
  - cbn [iterate pending]. now rewrite app_nil_r.
  - apply Forall_cons_iff in H. destruct H as [[ste Hv] Hr].
    cbn [snd] in Hv. subst v. cbn [iterate pending].
    rewrite (IH Hr). now rewrite <- app_assoc.
Qed.

Lemma filter_requests (st : KVStore) :
  SendToEthereumKey <> LastSendToEthereumIDKey ->
  Forall entryOk st ->
  Forall (fun e => exists ste, snd e = VSend ste)
         (filter (fun e => has_prefix [SendToEthereumKey] (fst e)) st)
  /\ pending (filter (fun e => has_prefix [SendToEthereumKey] (fst e)) st)
     = pending st.
Proof.
  intros Hne Hok. induction Hok as [|[k v] st Hx Hok [IH1 IH2]].
  - split; [constructor | reflexivity].
  - unfold entry_ok in Hx. cbn [fst snd] in Hx. cbn [filter fst].
    destruct v as [bz|ste].
    + destruct Hx as [-> _]. cbn [has_prefix].
      destruct (Z.eqb_spec SendToEthereumKey LastSendToEthereumIDKey) as [E|_];
        [contradiction|].
      cbn [andb pending]. now split.
    + destruct Hx as [-> _]. unfold GetSendToEthereumKey.
      rewrite has_prefix_refl. cbn [pending]. split.
      * constructor; [now exists ste | exact IH1].
      * now rewrite IH2.
Qed.

(** X9: in a pool whose entries are as the keeper writes them,
    [GetUnbatchedSendToEthereums] returns every pending request, each once,
    from the greatest key down: it never panics and leaves none out. The
    counter's key must not start with the requests' prefix byte. *)
Theorem GetUnbatchedSendToEthereums_all (st : KVStore) :
  SendToEthereumKey <> LastSendToEthereumIDKey ->
  Forall entryOk st ->
  GetUnbatchedSendToEthereums SendToEthereumKey st = Ret (rev (pending st)).
Proof.
  intros Hne Hok.
  destruct (filter_requests st Hne Hok) as [Hall Hp].
  unfold GetUnbatchedSendToEthereums, IterateUnbatchedSendToEthereums,
    ReverseIterator.
  rewrite iterate_collect.
  - cbn [app]. now rewrite pending_rev, Hp.
  - apply Forall_rev. exact Hall.
Qed.

Lemma pending_fee_then_id_descending (contract : bytes) (it : list (bytes * value)) :
  Forall (scoped SendToEthereumKey contract) it ->
  Forall (fun e => forall ste, snd e = VSend ste -> 0 <= Id ste < 2 ^ 64) it ->
  StronglySorted (fun e1 e2 => bytes_lt (fst e2) (fst e1)) it ->
  fee_then_id_descending (pending it).
Proof.
  induction it as [|[k v] r IH]; intros Hsc Hid Hs; cbn [pending].
  - constructor.
  - apply Forall_cons_iff in Hsc. destruct Hsc as [[ste [Hv [Hk [Hc Hf]]]] Hr].
    apply Forall_cons_iff in Hid. destruct Hid as [Hi Hidr].
    apply StronglySorted_inv in Hs. destruct Hs as [Hsr Hall].
    cbn [fst snd] in Hv, Hk, Hi. subst v. specialize (Hi ste eq_refl).
    constructor; [now apply IH|].
    apply Forall_forall. intros x Hx. apply pending_In in Hx.
    destruct Hx as [k' Hin].
    rewrite Forall_forall in Hr, Hall, Hidr.
    destruct (Hr _ Hin) as [x' [Hv' [Hk' [_ Hf']]]].
    cbn [fst snd] in Hv', Hk'. injection Hv' as <-.
    pose proof (Hidr _ Hin x eq_refl) as Hi'.
    specialize (Hall _ Hin). cbn [fst] in Hall. rewrite Hk, Hk' in Hall.
    now apply key_order_lex in Hall.
Qed.

(** X10: in a pool whose stored fees are non-negative and below 2^256, among
    the pending requests of one contract the per-contract iterator hands
    out, a request with a higher fee comes first, and of two requests with
    the same fee the one submitted later (the greater id) comes first. *)
Theorem IterateByContract_ties_by_id {St : Type} (st : KVStore) (contract : bytes)
        (cb : SendToEthereum -> St -> St * bool) (s : St) :
  poolOk st -> fees_in_range st -> length contract = 20%nat ->
  exists s' visited,
    IterateUnbatchedSendToEthereumsByContract SendToEthereumKey st contract
                                              (logged cb) (s, [])
    = Ret (s', visited)
    /\ fee_then_id_descending visited.
Proof.
  intros Hok Hfees Hlen.
  pose proof (ReverseIterator_scoped _ _ st contract Hok Hfees Hlen) as Hsc.
  pose proof (ReverseIterator_sorted ([SendToEthereumKey] ++ contract) st (proj1 Hok))
    as Hs.
  assert (Hid : Forall (fun e => forall ste, snd e = VSend ste -> 0 <= Id ste < 2 ^ 64)
                       (ReverseIterator ([SendToEthereumKey] ++ contract) st)).
  { apply Forall_forall. intros [k v] Hin ste Hv. cbn [snd] in Hv. subst v.
    unfold ReverseIterator in Hin. apply in_rev in Hin. apply filter_In in Hin.
    destruct Hin as [Hin _]. destruct Hok as [_ Hok].
    rewrite Forall_forall in Hok. specialize (Hok _ Hin).
    unfold entry_ok in Hok. cbn [fst snd] in Hok. exact (proj2 Hok). }
  pose proof (pending_fee_then_id_descending contract _ Hsc Hid Hs) as Hd.
  destruct (iterate_logged _ cb contract _ Hsc s []) as [s' [n Hn]].
  unfold IterateUnbatchedSendToEthereumsByContract.
  exists s', (firstn n (pending (ReverseIterator ([SendToEthereumKey] ++ contract) st))).
  split; [exact Hn|]. now apply StronglySorted_firstn.
Qed.

Lemma key_inj_id (id1 id2 : Z) (f1 f2 : ERC20Token) :
  Key id1 f1 = Key id2 f2 ->
  0 <= id1 < 2 ^ 64 -> 0 <= id2 < 2 ^ 64 -> id1 = id2.
Proof.
  unfold GetSendToEthereumKey. intros H H1 H2.
  apply app_inv_head in H.
  apply app_eq_length in H; [|now rewrite !HexToAddress_length].
  destruct H as [_ H].
  apply app_eq_length in H; [|now rewrite !be_bytes_length].
  destruct H as [_ H]. apply be_bytes_inj in H.
  change (256 ^ Z.of_nat 8) with (2 ^ 64) in H.
  now rewrite !Z.mod_small in H by assumption.
Qed.

Lemma store_Get_fresh (st : KVStore) (id : Z) (fee : ERC20Token) :
  Forall entryOk st ->
  (forall x, In x (pending st) -> Id x <> id) ->
  0 <= id < 2 ^ 64 ->
  store_Get (Key id fee) st = None.
Proof.
  intros Hok Hfresh Hid. induction Hok as [|[k v] st Hx Hok IH]; [reflexivity|].
  cbn [store_Get].
  assert (Hne : Key id fee <> k).
  { unfold entry_ok in Hx. cbn [fst snd] in Hx. destruct v as [bz|ste].
    - destruct Hx as [-> _]. intro E. symmetry in E. revert E.
      apply key_not_counter.
    - destruct Hx as [-> Hr]. intro E. apply key_inj_id in E; [|assumption..].
      apply (Hfresh ste); [now left | now symmetry]. }
  rewrite (bytes_eqb_neq _ _ Hne). apply IH.
  intros x Hin. apply Hfresh. destruct v; cbn [pending]; [exact Hin | now right].
Qed.

Lemma pending_Set_counter (st : KVStore) (bz : bytes) :
  Forall entryOk st ->
  pending (store_Set CounterKey (VRaw bz) st) = pending st.
Proof.
  intro Hok. induction Hok as [|[k v] st Hx Hok IH]; [reflexivity|].
  cbn [store_Set].
  destruct (bytes_compare CounterKey k) eqn:C; cbn [pending].
  - apply bytes_compare_eq in C. subst k.
    unfold entry_ok in Hx. cbn [fst snd] in Hx. destruct v as [bz'|ste];
      [reflexivity|].
    destruct Hx as [Hx _]. now apply key_not_counter in Hx.
  - reflexivity.
  - destruct v; now rewrite IH.
Qed.

Lemma Create_store (ctx ctx' : Context) (sender receiver : string)
      (amount fee : Coin) (id : Z) (isCO : bool) (tc : bytes) :
  Forall entryOk (ctx_store ctx) ->
  Create ctx sender receiver amount fee = KOk ctx' id ->
  DenomToERC20Lookup (ctx_store ctx) (Denom amount) = Ret (isCO, tc) ->
  id = wrap64 (lastId (ctx_store ctx) + 1)
  /\ ctx_store ctx'
     = SetUnbatchedSendToEthereum SendToEthereumKey
         (store_Set CounterKey (VRaw (be_bytes 8 id)) (ctx_store ctx))
         (request_of id sender receiver amount fee tc).
Proof.
  intros Hok H HL. unfold CreateSendToEthereum, Coin_Add in H.
  destruct (String.eqb (Denom amount) (Denom fee)); [|discriminate].
  cbn [Denom] in H. rewrite HL in H.
  destruct (SendCoinsFromAccountToModule (ctx_bank ctx) sender ModuleName _)
    as [bank1|e|e]; try discriminate.
  destruct (if negb isCO then _ else _) as [bank2|e|e]; try discriminate.
  rewrite (Increment_ok _ _ _ Hok) in H.
  injection H as Hctx Hid. split; [now symmetry|].
  rewrite <- Hctx, <- Hid. reflexivity.
Qed.

(** X11: a submit followed by the cancel of the request it made leaves the
    pool as it was: the store is the one before the submit with the id
    counter advanced, and the pending requests are the same. Ids below the
    largest [uint64]. *)
Theorem Create_Cancel_pool_restored (ctx ctx1 ctx2 : Context)
        (sender receiver : string) (amount fee : Coin) (id : Z)
        (isCO : bool) (tc : bytes) :
  poolInv (ctx_store ctx) ->
  lastId (ctx_store ctx) < uint64_max ->
  DenomToERC20Lookup (ctx_store ctx) (Denom amount) = Ret (isCO, tc) ->
  Create ctx sender receiver amount fee = KOk ctx1 id ->
  Cancel ctx1 (request_of id sender receiver amount fee tc) = KOk ctx2 tt ->
  ctx_store ctx2
  = store_Set CounterKey (VRaw (be_bytes 8 id)) (ctx_store ctx)
  /\ pending (ctx_store ctx2) = pending (ctx_store ctx)
  /\ lastId (ctx_store ctx2) = lastId (ctx_store ctx) + 1.
Proof.
  intros [[Hs Hok] [Hle Hnd]] Hmax HL HC HX.
  destruct (Create_store _ _ _ _ _ _ _ _ _ Hok HC HL) as [Hid Hst].
  pose proof (last_id_range _ _ _ Hok) as Hr.
  assert (Hid' : id = lastId (ctx_store ctx) + 1).
  { rewrite Hid. unfold wrap64. unfold uint64_max in Hmax.
    apply Z.mod_small. lia. }
  assert (Hrange : 0 <= id < 2 ^ 64) by (unfold uint64_max in Hmax; lia).
  apply Cancel_KOk in HX. rewrite Hst in HX.
  unfold DeleteUnbatchedSendToEthereum, SetUnbatchedSendToEthereum in HX.
  cbn [request_of Id Erc20Fee] in HX.
  rewrite store_Delete_Set in HX.
  set (st1 := store_Set CounterKey (VRaw (be_bytes 8 id)) (ctx_store ctx)) in *.
  assert (Hok1 : Forall entryOk st1).
  { apply Forall_store_Set; [|exact Hok].
    unfold entry_ok. cbn [fst snd]. split; [reflexivity|]. now exists id. }
  assert (Hp1 : pending st1 = pending (ctx_store ctx))
    by now apply pending_Set_counter.
  rewrite store_Delete_absent in HX.
  - rewrite HX. split; [reflexivity|]. split; [exact Hp1|].
    unfold st1. rewrite last_id_Set_counter by exact Hrange. exact Hid'.
  - apply store_Get_fresh; [exact Hok1 | | exact Hrange].
    intros x Hx. rewrite Hp1 in Hx. rewrite Forall_forall in Hle.
    specialize (Hle _ Hx). lia.
Qed.

Lemma NoDup_map_In_inj {A B : Type} (f : A -> B) (l : list A) (x y : A) :
  NoDup (map f l) -> In x l -> In y l -> f x = f y -> x = y.
Proof.
  induction l as [|a l IH]; intros Hnd Hx Hy E; [contradiction|].
  cbn [map] in Hnd. apply NoDup_cons_iff in Hnd. destruct Hnd as [Ha Hnd].
  destruct Hx as [->|Hx], Hy as [->|Hy].
  - reflexivity.
  - exfalso. apply Ha. rewrite E. now apply in_map.
  - exfalso. apply Ha. rewrite <- E. now apply in_map.
  - now apply IH.
Qed.

(** X12: the cancel of a pending request takes that request out of the pool
    and no other: afterwards the pending requests are those of before
    except the cancelled one. *)
Theorem Cancel_removes_request (ctx ctx' : Context) (send : SendToEthereum) :
  poolInv (ctx_store ctx) ->
  In send (pending (ctx_store ctx)) ->
  Cancel ctx send = KOk ctx' tt ->
  forall x, In x (pending (ctx_store ctx'))
            <-> In x (pending (ctx_store ctx)) /\ x <> send.
Proof.
  intros [[Hs Hok] [Hle Hnd]] Hin HX x.
  apply Cancel_KOk in HX. rewrite HX.
  unfold DeleteUnbatchedSendToEthereum, store_Delete.
  rewrite Forall_forall in Hok.
  assert (Hkey : forall y k, In (k, VSend y) (ctx_store ctx) ->
                             k = Key (Id y) (Erc20Fee y) /\ 0 <= Id y < 2 ^ 64).
  { intros y k Hy. exact (Hok _ Hy). }
  rewrite !pending_In. split.
  - intros [k Hk]. apply filter_In in Hk. destruct Hk as [Hk Hb].
    cbn [fst] in Hb. split; [now exists k|].
    intros ->. destruct (Hkey _ _ Hk) as [-> _].
    assert (E : bytes_eqb (Key (Id send) (Erc20Fee send))
                          (Key (Id send) (Erc20Fee send)) = true)
      by now apply bytes_eqb_eq.
    rewrite E in Hb. discriminate Hb.
  - intros [[k Hk] Hne]. exists k. apply filter_In. split; [exact Hk|].
    cbn [fst]. destruct (Hkey _ _ Hk) as [-> Hrx].
    apply pending_In in Hin. destruct Hin as [ks Hks].
    destruct (Hkey _ _ Hks) as [_ Hrs].
    rewrite bytes_eqb_neq; [reflexivity|].
    intro E. apply key_inj_id in E; [|assumption..].
    apply Hne.
    apply (NoDup_map_In_inj Id (pending (ctx_store ctx)));
      [exact Hnd | | | now symmetry].
    + apply pending_In. eexists. exact Hk.
    + apply pending_In. now exists ks.
Qed.

(** X13: [CancelSendToEthereum] never consults the pool: on two contexts
    with the same bank and the same answer of the asset lookup for the
    request's contract it ends the same way, with the refund, with the same
    error or with the same panic, and leaves the same bank, whatever the
    two stores hold. A request that is not pending is refunded like one
    that is. *)
Theorem Cancel_never_reads_pool (ctx : Context) (st' : KVStore)
        (send : SendToEthereum) :
  fst (ERC20ToDenomLookup st' (Contract (Erc20Token send)))
  = fst (ERC20ToDenomLookup (ctx_store ctx) (Contract (Erc20Token send))) ->
  match Cancel ctx send,
        Cancel {| ctx_store := st'; ctx_bank := ctx_bank ctx |} send with
  | KOk c1 _, KOk c2 _ => ctx_bank c1 = ctx_bank c2
  | KErr c1 e1, KErr c2 e2 => e1 = e2 /\ ctx_bank c1 = ctx_bank c2
  | KPanic e1, KPanic e2 => e1 = e2
  | _, _ => False
  end.
Proof.
  intro H. unfold CancelSendToEthereum. cbn [ctx_store ctx_bank]. rewrite H.
  destruct (NewCoins _) as [cs|e|e]; [|reflexivity|reflexivity].
  destruct (if negb _ then _ else _) as [bank1|e|e];
    [|split; reflexivity|split; reflexivity].
  destruct (SendCoinsFromModuleToAccount bank1 ModuleName (Sender send) cs)
    as [bank2|e|e]; [reflexivity | split; reflexivity | split; reflexivity].
Qed.

(** X14: a submit goes through whenever the two coins have one
    denomination, the asset is known, the total is positive and covered by
    the sender's balance (the module account not overdrawn): it returns the
    counter's next id and the request is pending afterwards. *)
Theorem Create_succeeds (ctx : Context) (sender receiver : string)
        (amount fee : Coin) (isCO : bool) (tc : bytes) :
  Forall entryOk (ctx_store ctx) ->
  Denom amount = Denom fee ->
  DenomToERC20Lookup (ctx_store ctx) (Denom amount) = Ret (isCO, tc) ->
  0 < CoinAmount amount + CoinAmount fee ->
  CoinAmount amount + CoinAmount fee <= ctx_bank ctx sender (Denom amount) ->
  0 <= ctx_bank ctx ModuleName (Denom amount) ->
  exists ctx',
    Create ctx sender receiver amount fee
    = KOk ctx' (wrap64 (lastId (ctx_store ctx) + 1))
    /\ In (request_of (wrap64 (lastId (ctx_store ctx) + 1))
                      sender receiver amount fee tc)
          (pending (ctx_store ctx')).
Proof.
  intros Hok Hd HL Hpos Hbal Hmod.
  unfold CreateSendToEthereum, Coin_Add.
  rewrite Hd, String.eqb_refl. cbn [Denom]. rewrite <- Hd, HL.
  unfold SendCoinsFromAccountToModule.
  rewrite SendCoins_single_ok by (cbn [Denom CoinAmount]; assumption).
  cbn [Denom CoinAmount].
  set (total := {| Denom := Denom amount;
                   CoinAmount := CoinAmount amount + CoinAmount fee |}).
  set (bank1 := credit (credit (ctx_bank ctx) sender
                               {| Denom := Denom amount;
                                  CoinAmount := - (CoinAmount amount + CoinAmount fee) |})
                       ModuleName total).
  assert (Hb : exists bank2,
             (if negb isCO then BurnCoins bank1 ModuleName [total] else Ret bank1)
             = Ret bank2).
  { destruct isCO; cbn [negb]; [now exists bank1|].
    unfold BurnCoins. cbn [coins_valid forallb total CoinAmount andb].
    destruct (Z.ltb_spec 0 (CoinAmount amount + CoinAmount fee)) as [_|Hn]; [|lia].
    cbn [negb subCoins]. unfold total at 1 2. cbn [Denom CoinAmount].
    assert (Hm : CoinAmount amount + CoinAmount fee <= bank1 ModuleName (Denom amount)).
    { unfold bank1. rewrite credit_same. unfold total. cbn [Denom CoinAmount].
      rewrite String.eqb_refl.
      destruct (String.eqb_spec ModuleName sender) as [E|E].
      - rewrite E, credit_same. cbn [Denom CoinAmount].
        rewrite String.eqb_refl. lia.
      - rewrite credit_other by exact E. lia. }
    destruct (Z.ltb_spec (bank1 ModuleName (Denom amount))
                         (CoinAmount amount + CoinAmount fee)) as [Hn|_]; [lia|].
    eexists. reflexivity. }
  destruct Hb as [bank2 Hb]. rewrite Hb.
  rewrite (Increment_ok _ _ _ Hok).
  eexists. split; [reflexivity|].
  cbn [ctx_store]. unfold SetUnbatchedSendToEthereum.
  apply pending_In. eexists.
  match goal with
  | |- In (?k, _) (store_Set ?k' ?v ?st) =>
      pose proof (store_Get_Set_same k' v st) as G
  end.
  apply store_Get_In in G. exact G.
Qed.

(** X15: how a submit fails: the only error it returns is the asset
    lookup's, with nothing changed; a total that is not positive or not
    covered by the sender's balance makes it panic, as the bank's error is
    passed to [panic]. *)
Theorem Create_failure_modes (ctx : Context) (sender receiver : string)
        (amount fee : Coin) :
  (forall ctx' e,
      Create ctx sender receiver amount fee = KErr ctx' e ->
      ctx' = ctx
      /\ Denom amount = Denom fee
      /\ DenomToERC20Lookup (ctx_store ctx) (Denom amount) = Err e)
  /\ (forall isCO tc,
         Denom amount = Denom fee ->
         DenomToERC20Lookup (ctx_store ctx) (Denom amount) = Ret (isCO, tc) ->
         CoinAmount amount + CoinAmount fee <= 0
         \/ ctx_bank ctx sender (Denom amount) < CoinAmount amount + CoinAmount fee ->
         exists e, Create ctx sender receiver amount fee = KPanic e).
Proof.
  split.
  - intros ctx' e H. unfold CreateSendToEthereum, Coin_Add in H.
    destruct (String.eqb_spec (Denom amount) (Denom fee)) as [Hd|]; [|discriminate].
    cbn [Denom] in H.
    destruct (DenomToERC20Lookup (ctx_store ctx) (Denom amount))
      as [[isCO tc]|e'|e'] eqn:EL; try discriminate.
    + destruct (SendCoinsFromAccountToModule (ctx_bank ctx) sender ModuleName _)
        as [bank1|e1|e1]; try discriminate.
      destruct (if negb isCO then _ else _) as [bank2|e2|e2]; try discriminate.
      destruct (IncrementLastSendToEthereumIDKey _ _) as [[s1 n]|e3|e3];
        discriminate.
    + injection H as <- <-. now repeat split.
  - intros isCO tc Hd HL Hbad.
    unfold CreateSendToEthereum, Coin_Add.
    rewrite Hd, String.eqb_refl. cbn [Denom]. rewrite <- Hd, HL.
    unfold SendCoinsFromAccountToModule, SendCoins.
    cbn [coins_valid forallb CoinAmount andb].
    destruct (Z.ltb_spec 0 (CoinAmount amount + CoinAmount fee)) as [Hp|Hn];
      cbn [negb]; [|eexists; reflexivity].
    cbn [subCoins Denom CoinAmount].
    destruct (Z.ltb_spec (ctx_bank ctx sender (Denom amount))
                         (CoinAmount amount + CoinAmount fee)) as [Hl|Hg];
      [eexists; reflexivity | lia].
Qed.

End PoolFurther.

Lemma GetUnbatchedSendToEthereums_all_witness :
  (Example.SendToEthereumKey <> Example.LastSendToEthereumIDKey
   /\ Forall (entry_ok Example.SendToEthereumKey Example.LastSendToEthereumIDKey)
             Example.store567)
  /\ GetUnbatchedSendToEthereums Example.SendToEthereumKey Example.store567
     = Ret (rev (pending Example.store567)).
Proof.
  split.
  - split; [discriminate | apply store567_ok].
  - apply (GetUnbatchedSendToEthereums_all
             Example.SendToEthereumKey Example.LastSendToEthereumIDKey
             Example.store567); [discriminate | apply store567_ok].
Defined.

Lemma IterateByContract_ties_by_id_witness :
  (pool_ok Example.SendToEthereumKey Example.LastSendToEthereumIDKey Example.store567
   /\ fees_in_range Example.store567
   /\ length (HexToAddress Example.nativeContract) = 20%nat)
  /\ exists s' visited,
      IterateUnbatchedSendToEthereumsByContract
        Example.SendToEthereumKey Example.store567
        (HexToAddress Example.nativeContract)
        (logged (fun (_ : SendToEthereum) (n : Z) => (n + 1, false))) (0, [])
      = Ret (s', visited)
      /\ fee_then_id_descending visited.
Proof.
  split.
  - split; [apply store567_ok | split; [apply store567_ok | reflexivity]].
  - apply (IterateByContract_ties_by_id
             Example.SendToEthereumKey Example.LastSendToEthereumIDKey
             Example.store567 (HexToAddress Example.nativeContract)
             (fun (_ : SendToEthereum) (n : Z) => (n + 1, false)) 0);
      [apply store567_ok | apply store567_ok | reflexivity].
Defined.

Lemma Create_Cancel_pool_restored_witness :
  (pool_inv Example.SendToEthereumKey Example.LastSendToEthereumIDKey
            (ctx_store Example.ctx0)
   /\ last_id Example.LastSendToEthereumIDKey (ctx_store Example.ctx0) < uint64_max
   /\ Example.DenomToERC20Lookup (ctx_store Example.ctx0)
        (Denom (Example.coin (Example.GravityDenom Example.voucherContract) 100))
      = Ret (false, HexToAddress Example.voucherContract)
   /\ Example.Create Example.ctx0 Example.alice Example.recipient
        (Example.coin (Example.GravityDenom Example.voucherContract) 100)
        (Example.coin (Example.GravityDenom Example.voucherContract) 5)
      = KOk Example.ctxVoucher1 1
   /\ Example.Cancel Example.ctxVoucher1
        (request_of 1 Example.alice Example.recipient
           (Example.coin (Example.GravityDenom Example.voucherContract) 100)
           (Example.coin (Example.GravityDenom Example.voucherContract) 5)
           (HexToAddress Example.voucherContract))
      = KOk Example.ctxVoucher2 tt)
  /\ (ctx_store Example.ctxVoucher2
      = store_Set [Example.LastSendToEthereumIDKey] (VRaw (be_bytes 8 1))
                  (ctx_store Example.ctx0)
      /\ pending (ctx_store Example.ctxVoucher2) = pending (ctx_store Example.ctx0)
      /\ last_id Example.LastSendToEthereumIDKey (ctx_store Example.ctxVoucher2)
         = last_id Example.LastSendToEthereumIDKey (ctx_store Example.ctx0) + 1).
Proof.
  split.
  - split; [apply pool_inv_nil|]. split; [reflexivity|].
    split; [vm_compute; reflexivity|].
    split; vm_compute; reflexivity.
  - apply (Create_Cancel_pool_restored
             Example.SendToEthereumKey Example.LastSendToEthereumIDKey
             Example.ModuleName Example.DenomToERC20Lookup
             Example.ERC20ToDenomLookup Example.GravityDenom
             Example.ctx0 Example.ctxVoucher1 Example.ctxVoucher2
             Example.alice Example.recipient
             (Example.coin (Example.GravityDenom Example.voucherContract) 100)
             (Example.coin (Example.GravityDenom Example.voucherContract) 5)
             1 false (HexToAddress Example.voucherContract));
      [apply pool_inv_nil | reflexivity | vm_compute; reflexivity
       | vm_compute; reflexivity | vm_compute; reflexivity].
Defined.

Lemma ctxVoucher1_pool_inv :
  pool_inv Example.SendToEthereumKey Example.LastSendToEthereumIDKey
           (ctx_store Example.ctxVoucher1).
Proof.
  apply (pool_inv_Create
           Example.SendToEthereumKey Example.LastSendToEthereumIDKey
           Example.ModuleName Example.DenomToERC20Lookup
           Example.ctx0 Example.ctxVoucher1 Example.alice Example.recipient
           (Example.coin (Example.GravityDenom Example.voucherContract) 100)
           (Example.coin (Example.GravityDenom Example.voucherContract) 5) 1);
    [apply pool_inv_nil | reflexivity | vm_compute; reflexivity].
Qed.

Lemma Cancel_removes_request_witness :
  (pool_inv Example.SendToEthereumKey Example.LastSendToEthereumIDKey
            (ctx_store Example.ctxVoucher1)
   /\ In Example.voucherRequest1 (pending (ctx_store Example.ctxVoucher1))
   /\ Example.Cancel Example.ctxVoucher1 Example.voucherRequest1
      = KOk Example.ctxVoucher2 tt)
  /\ forall x, In x (pending (ctx_store Example.ctxVoucher2))
               <-> In x (pending (ctx_store Example.ctxVoucher1))
                   /\ x <> Example.voucherRequest1.
Proof.
  split.
  - split; [apply ctxVoucher1_pool_inv|].
    split; [vm_compute; left; reflexivity | vm_compute; reflexivity].
  - apply (Cancel_removes_request
             Example.SendToEthereumKey Example.LastSendToEthereumIDKey
             Example.ModuleName Example.ERC20ToDenomLookup Example.GravityDenom
             Example.ctxVoucher1 Example.ctxVoucher2 Example.voucherRequest1);
      [apply ctxVoucher1_pool_inv | vm_compute; left; reflexivity
       | vm_compute; reflexivity].
Defined.

Lemma Cancel_never_reads_pool_witness :
  fst (Example.ERC20ToDenomLookup [] (Contract (Erc20Token Example.voucherRequest1)))
  = fst (Example.ERC20ToDenomLookup (ctx_store Example.ctxVoucher1)
           (Contract (Erc20Token Example.voucherRequest1)))
  /\ match Example.Cancel Example.ctxVoucher1 Example.voucherRequest1,
           Example.Cancel {| ctx_store := []; ctx_bank := ctx_bank Example.ctxVoucher1 |}
                          Example.voucherRequest1 with
     | KOk c1 _, KOk c2 _ => ctx_bank c1 = ctx_bank c2
     | KErr c1 e1, KErr c2 e2 => e1 = e2 /\ ctx_bank c1 = ctx_bank c2
     | KPanic e1, KPanic e2 => e1 = e2
     | _, _ => False
     end.
Proof.
  split; [reflexivity|].
  apply (Cancel_never_reads_pool
           Example.SendToEthereumKey Example.ModuleName
           Example.ERC20ToDenomLookup Example.GravityDenom
           Example.ctxVoucher1 [] Example.voucherRequest1).
  reflexivity.
Defined.

(** On the example the request is pending in the first context and absent
    from the second, and both calls refund. *)
Lemma Cancel_never_reads_pool_example :
  In Example.voucherRequest1 (pending (ctx_store Example.ctxVoucher1))
  /\ (exists c1, Example.Cancel Example.ctxVoucher1 Example.voucherRequest1
                 = KOk c1 tt)
  /\ (exists c2,
         Example.Cancel {| ctx_store := []; ctx_bank := ctx_bank Example.ctxVoucher1 |}
                        Example.voucherRequest1
         = KOk c2 tt).
Proof.
  split; [vm_compute; left; reflexivity|].
  split; eexists; vm_compute; reflexivity.
Qed.

Lemma Create_succeeds_witness :
  (Forall (entry_ok Example.SendToEthereumKey Example.LastSendToEthereumIDKey)
          (ctx_store Example.ctx0)
   /\ Denom (Example.coin (Example.GravityDenom Example.voucherContract) 100)
      = Denom (Example.coin (Example.GravityDenom Example.voucherContract) 5)
   /\ Example.DenomToERC20Lookup (ctx_store Example.ctx0)
        (Denom (Example.coin (Example.GravityDenom Example.voucherContract) 100))
      = Ret (false, HexToAddress Example.voucherContract)
   /\ 0 < 100 + 5
   /\ 100 + 5 <= ctx_bank Example.ctx0 Example.alice
                   (Example.GravityDenom Example.voucherContract)
   /\ 0 <= ctx_bank Example.ctx0 Example.ModuleName
             (Example.GravityDenom Example.voucherContract))
  /\ exists ctx',
      Example.Create Example.ctx0 Example.alice Example.recipient
        (Example.coin (Example.GravityDenom Example.voucherContract) 100)
        (Example.coin (Example.GravityDenom Example.voucherContract) 5)
      = KOk ctx' (wrap64 (last_id Example.LastSendToEthereumIDKey
                                  (ctx_store Example.ctx0) + 1))
      /\ In (request_of (wrap64 (last_id Example.LastSendToEthereumIDKey
                                         (ctx_store Example.ctx0) + 1))
               Example.alice Example.recipient
               (Example.coin (Example.GravityDenom Example.voucherContract) 100)
               (Example.coin (Example.GravityDenom Example.voucherContract) 5)
               (HexToAddress Example.voucherContract))
            (pending (ctx_store ctx')).
Proof.
  split.
  - split; [constructor|]. split; [reflexivity|].
    split; [vm_compute; reflexivity|]. split; [reflexivity|].
    split; vm_compute; discriminate.
  - apply (Create_succeeds
             Example.SendToEthereumKey Example.LastSendToEthereumIDKey
             Example.ModuleName Example.DenomToERC20Lookup
             Example.ctx0 Example.alice Example.recipient
             (Example.coin (Example.GravityDenom Example.voucherContract) 100)
             (Example.coin (Example.GravityDenom Example.voucherContract) 5)
             false (HexToAddress Example.voucherContract));
      [constructor | reflexivity | vm_compute; reflexivity | reflexivity
       | vm_compute; discriminate | vm_compute; discriminate].
Defined.

(** ** An address written by [Address.Hex] reads back *)

Lemma hex_digit_checksum (n : Z) (up : bool) :
  0 <= n < 16 ->
  hex_digit (if (57 <? byte_of_ascii (hex_char n)) && up
             then ascii_of_N (Z.to_N (byte_of_ascii (hex_char n) - 32))
             else hex_char n) = Some n.
Proof.
  intro H.
  assert (H16 : forall k : nat,
             (k < 16)%nat ->
             hex_digit (if (57 <? byte_of_ascii (hex_char (Z.of_nat k))) && up
                        then ascii_of_N
                               (Z.to_N (byte_of_ascii (hex_char (Z.of_nat k)) - 32))
                        else hex_char (Z.of_nat k)) = Some (Z.of_nat k)).
  { intros k Hk.
    do 16 (destruct k as [|k]; [destruct up; reflexivity|]). lia. }
  rewrite <- (Z2Nat.id n) by lia. apply H16. lia.
Qed.

Lemma decode_checksum (a : bytes) :
  forall (i : nat) (h : bytes),
    Forall (fun b => 0 <= b < 256) a ->
    hex_DecodeString (checksum_case i h (hex_lower a)) = (a, true).
Proof.
  induction a as [|b a IH]; intros i h Ha; [reflexivity|].
  apply Forall_cons_iff in Ha. destruct Ha as [Hb Ha].
  cbn [hex_lower checksum_case hex_DecodeString].
  assert (H1 : 0 <= b / 16 < 16).
  { split; [apply Z.div_pos; lia | apply Z.div_lt_upper_bound; lia]. }
  assert (H2 : 0 <= b mod 16 < 16) by (apply Z.mod_pos_bound; lia).
  rewrite (hex_digit_checksum _ _ H1), (hex_digit_checksum _ _ H2).
  rewrite (IH _ _ Ha). f_equal. f_equal.
  pose proof (Z.div_mod b 16). lia.
Qed.

Lemma length_checksum_case (s : string) :
  forall i h, String.length (checksum_case i h s) = String.length s.
Proof.
  induction s as [|c s IH]; intros i h; [reflexivity|].
  cbn [checksum_case String.length]. now rewrite IH.
Qed.

Lemma length_hex_lower (a : bytes) :
  String.length (hex_lower a) = (2 * length a)%nat.
Proof.
  induction a as [|b a IH]; [reflexivity|].
  cbn [hex_lower String.length length]. rewrite IH. lia.
Qed.

Lemma substring_all (s : string) : substring 0 (String.length s) s = s.
Proof.
  induction s as [|c s IH]; [reflexivity|].
  cbn [String.length substring]. now rewrite IH.
Qed.

Lemma HexToAddress_Address_Hex (a : bytes) :
  length a = 20%nat ->
  Forall (fun b => 0 <= b < 256) a ->
  HexToAddress (Address_Hex a) = a.
Proof.
  intros Hlen Ha. unfold HexToAddress, Address_Hex, FromHex.
  set (s := checksum_case 0 (Keccak.Keccak256 (bytes_of_string (hex_lower a)))
                          (hex_lower a)).
  change (has0xPrefix (String "0" (String "x" s))) with true. cbv iota.
  cbn [String.length Nat.sub substring].
  rewrite Nat.sub_0_r, substring_all.
  assert (Hs : String.length s = 40%nat).
  { unfold s. now rewrite length_checksum_case, length_hex_lower, Hlen. }
  rewrite Hs. cbn [Nat.odd Nat.even negb]. cbv iota.
  unfold s. rewrite decode_checksum by exact Ha. cbn [fst].
  unfold BytesToAddress, AddressLength. rewrite Hlen.
  cbn [Nat.sub skipn]. rewrite Hlen. reflexivity.
Qed.

Section PoolListing.

Variable SendToEthereumKey : Z.
Variable LastSendToEthereumIDKey : Z.
Variable ModuleName : string.
Variable DenomToERC20Lookup : KVStore -> string -> outcome (bool * bytes).

Local Abbreviation Key := (GetSendToEthereumKey SendToEthereumKey).
Local Abbreviation CounterKey := [LastSendToEthereumIDKey].
Local Abbreviation Create :=
  (CreateSendToEthereum SendToEthereumKey LastSendToEthereumIDKey ModuleName
                        DenomToERC20Lookup).
Local Abbreviation poolOk := (pool_ok SendToEthereumKey LastSendToEthereumIDKey).
Local Abbreviation entryOk := (entry_ok SendToEthereumKey LastSendToEthereumIDKey).

Lemma contract_entries_requests (st : KVStore) (contract : bytes) :
  Forall entryOk st ->
  length contract = 20%nat ->
  Forall (fun e => exists ste, snd e = VSend ste)
         (ReverseIterator ([SendToEthereumKey] ++ contract) st).
Proof.
  intros Hok Hlen. apply Forall_forall. intros [k v] Hin.
  unfold ReverseIterator in Hin. apply in_rev in Hin. apply filter_In in Hin.
  destruct Hin as [Hin Hp]. rewrite Forall_forall in Hok.
  specialize (Hok _ Hin). unfold entry_ok in Hok. cbn [fst snd] in Hok, Hp |- *.
  destruct v as [bz|ste]; [|now exists ste].
  destruct Hok as [-> _]. destruct contract as [|c r]; [discriminate Hlen|].
  cbn [app has_prefix] in Hp. rewrite andb_false_r in Hp. discriminate Hp.
Qed.

(** X16: on a store whose entries are as the keeper writes them, a request
    a submit has put in the pool is found by the per-contract iterator
    under the token contract the asset lookup returned, a 20-byte address:
    collecting what the iterator hands out over that contract gives a list
    with the new request in it, whatever the fee. *)
Theorem Create_then_iterated (ctx ctx' : Context) (sender receiver : string)
        (amount fee : Coin) (id : Z) (isCO : bool) (tc : bytes) :
  Forall entryOk (ctx_store ctx) ->
  length tc = 20%nat ->
  Forall (fun b => 0 <= b < 256) tc ->
  DenomToERC20Lookup (ctx_store ctx) (Denom amount) = Ret (isCO, tc) ->
  Create ctx sender receiver amount fee = KOk ctx' id ->
  exists l,
    IterateUnbatchedSendToEthereumsByContract
      SendToEthereumKey (ctx_store ctx') tc
      (fun ste out => (out ++ [ste], false)) []
    = Ret l
    /\ In (request_of id sender receiver amount fee tc) l.
Proof.
  intros Hok Hlen Hbytes HL HC.
  destruct (Create_store _ _ _ _ _ _ _ _ _ _ _ _ _ Hok HC HL) as [Hid Hst].
  assert (Hok' : Forall entryOk (ctx_store ctx')).
  { rewrite Hst. unfold SetUnbatchedSendToEthereum.
    apply Forall_store_Set.
    - unfold entry_ok. cbn [fst snd request_of Id Erc20Fee].
      split; [reflexivity|]. rewrite Hid. apply wrap64_range.
    - apply Forall_store_Set; [|exact Hok].
      unfold entry_ok. cbn [fst snd]. split; [reflexivity|].
      exists id. split; [rewrite Hid; apply wrap64_range | reflexivity]. }
  unfold IterateUnbatchedSendToEthereumsByContract.
  rewrite iterate_collect by now apply contract_entries_requests.
  eexists. split; [reflexivity|]. cbn [app].
  apply In_pending_ReverseIterator.
  exists (Key id (Erc20Fee (request_of id sender receiver amount fee tc))).
  split.
  - rewrite Hst. unfold SetUnbatchedSendToEthereum.
    cbn [request_of Id Erc20Fee].
    match goal with
    | |- In (?k, ?v) (store_Set ?k ?v ?st) =>
        pose proof (store_Get_Set_same k v st) as G
    end.
    apply store_Get_In in G. exact G.
  - unfold GetSendToEthereumKey.
    cbn [request_of Erc20Fee NewSDKIntERC20Token Contract].
    rewrite (HexToAddress_Address_Hex tc Hlen Hbytes).
    rewrite app_assoc. apply has_prefix_refl.
Qed.

End PoolListing.

Lemma Create_then_iterated_witness :
  (Forall (entry_ok Example.SendToEthereumKey Example.LastSendToEthereumIDKey)
          (ctx_store Example.ctx0)
   /\ length (HexToAddress Example.voucherContract) = 20%nat
   /\ Forall (fun b => 0 <= b < 256) (HexToAddress Example.voucherContract)
   /\ Example.DenomToERC20Lookup (ctx_store Example.ctx0)
        (Denom (Example.coin (Example.GravityDenom Example.voucherContract) 100))
      = Ret (false, HexToAddress Example.voucherContract)
   /\ Example.Create Example.ctx0 Example.alice Example.recipient
        (Example.coin (Example.GravityDenom Example.voucherContract) 100)
        (Example.coin (Example.GravityDenom Example.voucherContract) 5)
      = KOk Example.ctxVoucher1 1)
  /\ exists l,
      IterateUnbatchedSendToEthereumsByContract
        Example.SendToEthereumKey (ctx_store Example.ctxVoucher1)
        (HexToAddress Example.voucherContract)
        (fun ste out => (out ++ [ste], false)) []
      = Ret l
      /\ In (request_of 1 Example.alice Example.recipient
               (Example.coin (Example.GravityDenom Example.voucherContract) 100)
               (Example.coin (Example.GravityDenom Example.voucherContract) 5)
               (HexToAddress Example.voucherContract)) l.
Proof.
  assert (Hb : Forall (fun b => 0 <= b < 256) (HexToAddress Example.voucherContract)).
  { let v := eval vm_compute in (HexToAddress Example.voucherContract) in
    change (HexToAddress Example.voucherContract) with v.
    repeat (apply Forall_cons; [lia|]). apply Forall_nil. }
  split.
  - split; [constructor|]. split; [reflexivity|]. split; [exact Hb|].
    split; vm_compute; reflexivity.
  - apply (Create_then_iterated
             Example.SendToEthereumKey Example.LastSendToEthereumIDKey
             Example.ModuleName Example.DenomToERC20Lookup
             Example.ctx0 Example.ctxVoucher1 Example.alice Example.recipient
             (Example.coin (Example.GravityDenom Example.voucherContract) 100)
             (Example.coin (Example.GravityDenom Example.voucherContract) 5)
             1 false (HexToAddress Example.voucherContract));
      [constructor | reflexivity | exact Hb | vm_compute; reflexivity
       | vm_compute; reflexivity].
Defined.

(** ** The v2 upgrade *)

Section UpgradeFacts.

Variable ModuleName : string.
Variable NormalizeDenom : string -> string.
Variable ValidateDenom : string -> bool.
Variable RunMigrations : Bank -> VersionMap -> outcome (Bank * VersionMap).

Local Abbreviation normalize :=
  (normalizeGravityDenoms ModuleName NormalizeDenom ValidateDenom).
Local Abbreviation repair := (repairBalance ModuleName ValidateDenom).
Local Abbreviation repairs := (toRepair NormalizeDenom).

Lemma map_get_collect (supply : list Coin) :
  forall (m : list (string * string)) (k : string),
    map_get (fold_left (collectRepair NormalizeDenom) supply m) k
    = match repairs supply k with
      | Some v => Some v
      | None => map_get m k
      end.
Proof.
  induction supply as [|c supply IH]; intros m k; [reflexivity|].
  cbn [fold_left]. rewrite IH. unfold toRepair. cbn [existsb].
  destruct (existsb (fun c0 => String.eqb k (Denom c0)) supply) eqn:Ex.
  - rewrite orb_true_r. cbn [andb].
    destruct (negb (String.eqb (NormalizeDenom k) k)) eqn:En; [reflexivity|].
    unfold collectRepair, map_set.
    destruct (String.eqb_spec (NormalizeDenom (Denom c)) (Denom c)) as [E|E];
      cbn [negb]; [reflexivity|].
    cbn [map_get]. destruct (String.eqb_spec k (Denom c)) as [Ek|Ek];
      [|reflexivity].
    subst k. apply negb_false_iff in En. apply String.eqb_eq in En.
    contradiction.
  - rewrite orb_false_r. cbn [andb].
    unfold collectRepair, map_set.
    destruct (String.eqb_spec k (Denom c)) as [Ek|Ek]; cbn [andb].
    + subst k.
      destruct (String.eqb_spec (NormalizeDenom (Denom c)) (Denom c)) as [E|E];
        cbn [negb]; [reflexivity|].
      cbn [map_get]. now rewrite String.eqb_refl.
    + destruct (negb (String.eqb (NormalizeDenom (Denom c)) (Denom c)));
        [|reflexivity].
      cbn [map_get]. destruct (String.eqb_spec k (Denom c)); [contradiction|].
      reflexivity.
Qed.

Lemma map_get_repairs (supply : list Coin) (k : string) :
  map_get (fold_left (collectRepair NormalizeDenom) supply []) k = repairs supply k.
Proof.
  rewrite map_get_collect. cbn [map_get]. now destruct (repairs supply k).
Qed.

Lemma repairBalance_effect (bank bank' : Bank) (addr : string) (coin : Coin)
      (nd : string) :
  repair bank addr coin nd = Ret bank' ->
  forall a d,
    bank' a d
    = bank a d
      + ((if String.eqb a addr && String.eqb d nd then CoinAmount coin else 0)
         - (if String.eqb a addr && String.eqb d (Denom coin)
            then CoinAmount coin else 0)).
Proof.
  unfold repairBalance, NewCoins, NewCoin. intro H.
  destruct (Z.ltb_spec (CoinAmount coin) 0) as [Hn|Hn]; [discriminate|].
  destruct (Z.eqb_spec (CoinAmount coin) 0) as [Hz|Hz].
  - cbn in H. destruct (ValidateDenom nd); cbn in H; [|discriminate].
    rewrite Hz in H. cbn in H. injection H as <-. intros a d. rewrite Hz.
    destruct (_ && _), (_ && _); lia.
  - assert (Hpos : 0 < CoinAmount coin) by lia.
    unfold SendCoinsFromAccountToModule, SendCoinsFromModuleToAccount in H.
    destruct (SendCoins bank addr ModuleName [coin]) as [b1|e|e] eqn:E1;
      try discriminate.
    apply SendCoins_single in E1. destruct E1 as [_ [_ Hb1]].
    destruct (BurnCoins b1 ModuleName [coin]) as [b2|e|e] eqn:E2;
      try discriminate.
    apply BurnCoins_single in E2.
    destruct (ValidateDenom nd); cbn [negb] in H; [|discriminate].
    cbn [CoinAmount] in H.
    destruct (Z.ltb_spec (CoinAmount coin) 0) as [Hn'|_]; [lia|].
    destruct (Z.eqb_spec (CoinAmount coin) 0) as [Hz'|_]; [lia|].
    rewrite MintCoins_single in H by exact Hpos.
    destruct (SendCoins _ ModuleName addr _) as [b4|e|e] eqn:E4;
      try discriminate.
    apply SendCoins_single in E4. destruct E4 as [_ [_ Hb4]].
    injection H as <-. intros a d. subst b4 b2 b1.
    unfold credit. cbn [Denom CoinAmount].
    destruct (String.eqb_spec a addr), (String.eqb_spec a ModuleName),
      (String.eqb_spec d nd), (String.eqb_spec d (Denom coin));
      cbn [andb]; lia.
Qed.

Lemma repairBalances_effect (m : list (string * string))
      (r : string -> option string) (balances : list (string * Coin)) :
  (forall k, map_get m k = r k) ->
  forall bank bank',
    repairBalances ModuleName ValidateDenom m balances bank = Ret bank' ->
    forall a d, bank' a d = bank a d + moved r balances a d.
Proof.
  intro Hm. induction balances as [|[addr coin] rest IH]; intros bank bank' H a d.
  - cbn [repairBalances] in H. injection H as <-. cbn [moved]. lia.
  - cbn [repairBalances] in H. cbn [moved]. rewrite Hm in H.
    destruct (r (Denom coin)) as [nd|].
    + destruct (repair bank addr coin nd) as [b1|e|e] eqn:E; try discriminate.
      rewrite (IH _ _ H a d), (repairBalance_effect _ _ _ _ _ E a d). lia.
    + rewrite (IH _ _ H a d). lia.
Qed.

(** X17: what [normalizeGravityDenoms] does to the bank when it returns:
    for every balance the iterator hands out whose denomination is in the
    total supply and is not its own normalization, the amount leaves that
    denomination of the account and arrives in the normalized one; nothing
    else changes, for any account, the module account included. *)
Theorem normalizeGravityDenoms_effect (supply : list Coin)
        (balances : list (string * Coin)) (bank bank' : Bank) :
  normalize supply balances bank = Ret bank' ->
  forall a d, bank' a d = bank a d + moved (repairs supply) balances a d.
Proof.
  unfold normalizeGravityDenoms. apply repairBalances_effect.
  apply map_get_repairs.
Qed.

(** X18: when every denomination of the total supply is its own
    normalization, [normalizeGravityDenoms] returns with the bank as it
    was, whatever balances the iterator hands out: it moves nothing and
    does not panic. *)
Theorem normalizeGravityDenoms_noop (supply : list Coin)
        (balances : list (string * Coin)) (bank : Bank) :
  Forall (fun c => NormalizeDenom (Denom c) = Denom c) supply ->
  normalize supply balances bank = Ret bank.
Proof.
  intro Hn. unfold normalizeGravityDenoms.
  assert (Hr : forall k, repairs supply k = None).
  { intro k. unfold toRepair.
    destruct (existsb (fun c => String.eqb k (Denom c)) supply) eqn:Ex;
      [|reflexivity].
    apply existsb_exists in Ex. destruct Ex as [c [Hc Hk]].
    apply String.eqb_eq in Hk. rewrite Forall_forall in Hn.
    rewrite Hk, (Hn c Hc), String.eqb_refl. reflexivity. }
  induction balances as [|[addr coin] rest IH]; [reflexivity|].
  cbn [repairBalances]. rewrite map_get_repairs, Hr. exact IH.
Qed.

Lemma moved_none (balances : list (string * Coin)) (r : string -> option string)
      (a d : string) :
  (forall k nd, r k = Some nd -> nd <> d) ->
  Forall (fun e => (fst e, Denom (snd e)) <> (a, d)) balances ->
  moved r balances a d = 0.
Proof.
  intros Hin Hall. induction Hall as [|[addr coin] rest Hx Hall IH]; [reflexivity|].
  cbn [moved]. rewrite IH. cbn [fst snd] in Hx.
  destruct (r (Denom coin)) as [nd|] eqn:Er; [|reflexivity].
  specialize (Hin _ _ Er).
  destruct (String.eqb_spec a addr) as [Ea|Ea]; cbn [andb]; [|reflexivity].
  destruct (String.eqb_spec d nd) as [Ed|Ed]; [now subst|].
  destruct (String.eqb_spec d (Denom coin)) as [Ed'|Ed']; [|reflexivity].
  subst. contradiction.
Qed.

Lemma moved_out (balances : list (string * Coin)) (r : string -> option string)
      (a : string) (c : Coin) (nd : string) :
  (forall k nd', r k = Some nd' -> nd' <> Denom c) ->
  r (Denom c) = Some nd ->
  NoDup (map (fun e => (fst e, Denom (snd e))) balances) ->
  In (a, c) balances ->
  moved r balances a (Denom c) = - CoinAmount c.
Proof.
  intros Hin Hr Hnd HIn.
  induction balances as [|[addr coin] rest IH]; [contradiction|].
  cbn [map fst snd] in Hnd. apply NoDup_cons_iff in Hnd.
  destruct Hnd as [Hfirst Hnd]. cbn [moved].
  destruct HIn as [E|HIn].
  - injection E as -> ->.
    rewrite Hr, String.eqb_refl, String.eqb_refl. cbn [andb].
    destruct (String.eqb_spec (Denom c) nd) as [Ed|_];
      [exfalso; now apply (Hin _ _ Hr)|].
    rewrite moved_none; [lia | exact Hin |].
    apply Forall_forall. intros e He E. apply Hfirst.
    rewrite <- E. now apply (in_map (fun e => (fst e, Denom (snd e)))).
  - rewrite (IH Hnd HIn).
    assert (Hne : (addr, Denom coin) <> (a, Denom c)).
    { intro E. apply Hfirst. rewrite E.
      now apply (in_map (fun e => (fst e, Denom (snd e))) rest (a, c)). }
    destruct (r (Denom coin)) as [nd'|] eqn:Er; [|lia].
    pose proof (Hin _ _ Er) as Hne'.
    destruct (String.eqb_spec a addr) as [Ea|Ea]; cbn [andb]; [|lia].
    destruct (String.eqb_spec (Denom c) nd') as [Ed|_]; [now subst|].
    destruct (String.eqb_spec (Denom c) (Denom coin)) as [Ed'|_]; [|lia].
    exfalso. apply Hne. now rewrite Ea, Ed'.
Qed.

(** X19: the upgrade empties the denominations it repairs: when
    normalizing is idempotent and the iterator hands out every balance
    once, with the amount the account holds, then after
    [normalizeGravityDenoms] has returned each account whose balance was in
    a denomination of the supply that is not its own normalization holds
    nothing of it. *)
Theorem normalizeGravityDenoms_clears (supply : list Coin)
        (balances : list (string * Coin)) (bank bank' : Bank) :
  (forall d, NormalizeDenom (NormalizeDenom d) = NormalizeDenom d) ->
  NoDup (map (fun e => (fst e, Denom (snd e))) balances) ->
  Forall (fun e => CoinAmount (snd e) = bank (fst e) (Denom (snd e))) balances ->
  normalize supply balances bank = Ret bank' ->
  forall addr coin,
    In (addr, coin) balances ->
    In (Denom coin) (map Denom supply) ->
    NormalizeDenom (Denom coin) <> Denom coin ->
    bank' addr (Denom coin) = 0.
Proof.
  intros Hidem Hnd Hsnap H addr coin Hin Hsup Hne.
  unfold normalizeGravityDenoms in H.
  rewrite (repairBalances_effect _ (repairs supply) balances
             (map_get_repairs supply) bank bank' H).
  rewrite Forall_forall in Hsnap. specialize (Hsnap _ Hin). cbn [fst snd] in Hsnap.
  rewrite (moved_out balances (repairs supply) addr coin
                     (NormalizeDenom (Denom coin))); [lia | | | exact Hnd | exact Hin].
  - intros k nd' Hk E. unfold toRepair in Hk.
    destruct (_ && _) in Hk; [|discriminate]. injection Hk as <-.
    apply Hne. rewrite <- E. apply Hidem.
  - unfold toRepair.
    assert (Ex : existsb (fun c => String.eqb (Denom coin) (Denom c)) supply = true).
    { apply existsb_exists. apply in_map_iff in Hsup.
      destruct Hsup as [c [Hc Hc']]. exists c. split; [exact Hc'|].
      now apply String.eqb_eq. }
    rewrite Ex. destruct (String.eqb_spec (NormalizeDenom (Denom coin)) (Denom coin));
      [contradiction | reflexivity].
Qed.

Lemma fold_vm_set_other (modules : list (string * Z)) :
  forall (m : VersionMap) (n : string),
    ~ In n (map fst modules) ->
    fold_left (fun m e => vm_set m (fst e) (snd e)) modules m n = m n.
Proof.
  induction modules as [|e r IH]; intros m n Hn; [reflexivity|].
  cbn [fold_left]. rewrite IH.
  - unfold vm_set. destruct (String.eqb_spec n (fst e)) as [E|_]; [|reflexivity].
    exfalso. apply Hn. left. now symmetry.
  - intro H. apply Hn. now right.
Qed.

Lemma fold_vm_set_in (modules : list (string * Z)) :
  forall (m : VersionMap) (n : string) (v : Z),
    NoDup (map fst modules) ->
    In (n, v) modules ->
    fold_left (fun m e => vm_set m (fst e) (snd e)) modules m n = Some v.
Proof.
  induction modules as [|e r IH]; intros m n v Hnd Hin; [contradiction|].
  cbn [map] in Hnd. apply NoDup_cons_iff in Hnd. destruct Hnd as [Hfirst Hnd].
  cbn [fold_left]. destruct Hin as [->|Hin].
  - rewrite fold_vm_set_other by exact Hfirst.
    unfold vm_set. cbn [fst snd]. now rewrite String.eqb_refl.
  - now apply IH.
Qed.

(** X20: the upgrade handler runs the migrations on the bank
    [normalizeGravityDenoms] left, from a version map of its own making: the
    gravity module at version 1, whatever the module manager reports for it,
    and every other module at its consensus version; when the normalization
    panics no migration runs. *)
Theorem CreateUpgradeHandler_versions (modules : list (string * Z))
        (supply : list Coin) (balances : list (string * Coin)) (bank : Bank)
        (plan : string) (vm : VersionMap) :
  NoDup (map fst modules) ->
  exists fromVM : VersionMap,
    CreateUpgradeHandler ModuleName NormalizeDenom ValidateDenom RunMigrations
                         modules supply balances bank plan vm
    = match normalize supply balances bank with
      | Ret bank' => RunMigrations bank' fromVM
      | Err e | Panic e => Panic e
      end
    /\ fromVM ModuleName = Some 1
    /\ (forall n v, In (n, v) modules -> n <> ModuleName -> fromVM n = Some v)
    /\ (forall n, ~ In n (map fst modules) -> n <> ModuleName -> fromVM n = None).
Proof.
  intro Hnd. unfold CreateUpgradeHandler. eexists.
  split; [reflexivity|]. unfold vm_set at 1 3 5. split; [|split].
  - now rewrite String.eqb_refl.
  - intros n v Hin Hne. destruct (String.eqb_spec n ModuleName); [contradiction|].
    now apply fold_vm_set_in.
  - intros n Hin Hne. destruct (String.eqb_spec n ModuleName); [contradiction|].
    now rewrite fold_vm_set_other.
Qed.

End UpgradeFacts.

Lemma UpgradeExample_lower_idem (c : ascii) :
  UpgradeExample.lower (UpgradeExample.lower c) = UpgradeExample.lower c.
Proof.
  destruct c as [[] [] [] [] [] [] [] []]; vm_compute; reflexivity.
Qed.

Lemma UpgradeExample_idempotent (d : string) :
  UpgradeExample.NormalizeDenom (UpgradeExample.NormalizeDenom d)
  = UpgradeExample.NormalizeDenom d.
Proof.
  induction d as [|c d IH]; [reflexivity|].
  cbn [UpgradeExample.NormalizeDenom].
  now rewrite UpgradeExample_lower_idem, IH.
Qed.

Lemma normalizeGravityDenoms_effect_witness :
  normalizeGravityDenoms "gravity" UpgradeExample.NormalizeDenom
    UpgradeExample.ValidateDenom UpgradeExample.supply UpgradeExample.balances
    UpgradeExample.bank
  = Ret UpgradeExample.normalized
  /\ forall a d,
      UpgradeExample.normalized a d
      = UpgradeExample.bank a d
        + moved (toRepair UpgradeExample.NormalizeDenom UpgradeExample.supply)
                UpgradeExample.balances a d.
Proof.
  split; [vm_compute; reflexivity|].
  apply (normalizeGravityDenoms_effect
           "gravity" UpgradeExample.NormalizeDenom UpgradeExample.ValidateDenom
           UpgradeExample.supply UpgradeExample.balances
           UpgradeExample.bank UpgradeExample.normalized).
  vm_compute. reflexivity.
Defined.

Lemma normalizeGravityDenoms_noop_witness :
  Forall (fun c => UpgradeExample.NormalizeDenom (Denom c) = Denom c)
         [ {| Denom := "ufoo"; CoinAmount := 7 |} ]
  /\ normalizeGravityDenoms "gravity" UpgradeExample.NormalizeDenom
       UpgradeExample.ValidateDenom [ {| Denom := "ufoo"; CoinAmount := 7 |} ]
       UpgradeExample.balances UpgradeExample.bank
     = Ret UpgradeExample.bank.
Proof.
  split.
  - apply Forall_cons; [reflexivity | apply Forall_nil].
  - apply (normalizeGravityDenoms_noop
             "gravity" UpgradeExample.NormalizeDenom UpgradeExample.ValidateDenom
             [ {| Denom := "ufoo"; CoinAmount := 7 |} ]
             UpgradeExample.balances UpgradeExample.bank).
    apply Forall_cons; [reflexivity | apply Forall_nil].
Defined.

Lemma UpgradeExample_balances_NoDup :
  NoDup (map (fun e : string * Coin => (fst e, Denom (snd e)))
             UpgradeExample.balances).
Proof.
  apply NoDup_cons; [intros [E|[]]; discriminate E|].
  apply NoDup_cons; [intros [] | apply NoDup_nil].
Qed.

Lemma normalizeGravityDenoms_clears_witness :
  ((forall d, UpgradeExample.NormalizeDenom (UpgradeExample.NormalizeDenom d)
              = UpgradeExample.NormalizeDenom d)
   /\ NoDup (map (fun e : string * Coin => (fst e, Denom (snd e)))
                 UpgradeExample.balances)
   /\ Forall (fun e : string * Coin =>
                CoinAmount (snd e) = UpgradeExample.bank (fst e) (Denom (snd e)))
             UpgradeExample.balances
   /\ normalizeGravityDenoms "gravity" UpgradeExample.NormalizeDenom
        UpgradeExample.ValidateDenom UpgradeExample.supply UpgradeExample.balances
        UpgradeExample.bank
      = Ret UpgradeExample.normalized
   /\ In (UpgradeExample.bob, {| Denom := UpgradeExample.oldDenom; CoinAmount := 30 |})
         UpgradeExample.balances
   /\ In (Denom {| Denom := UpgradeExample.oldDenom; CoinAmount := 30 |})
         (map Denom UpgradeExample.supply)
   /\ UpgradeExample.NormalizeDenom
        (Denom {| Denom := UpgradeExample.oldDenom; CoinAmount := 30 |})
      <> Denom {| Denom := UpgradeExample.oldDenom; CoinAmount := 30 |})
  /\ UpgradeExample.normalized UpgradeExample.bob
       (Denom {| Denom := UpgradeExample.oldDenom; CoinAmount := 30 |}) = 0.
Proof.
  assert (Hsnap : Forall (fun e : string * Coin =>
                            CoinAmount (snd e)
                            = UpgradeExample.bank (fst e) (Denom (snd e)))
                         UpgradeExample.balances).
  { apply Forall_cons; [reflexivity|].
    apply Forall_cons; [reflexivity | apply Forall_nil]. }
  split.
  - split; [exact UpgradeExample_idempotent|].
    split; [exact UpgradeExample_balances_NoDup|].
    split; [exact Hsnap|]. split; [vm_compute; reflexivity|].
    split; [left; reflexivity|]. split; [left; reflexivity | discriminate].
  - apply (normalizeGravityDenoms_clears
             "gravity" UpgradeExample.NormalizeDenom UpgradeExample.ValidateDenom
             UpgradeExample.supply UpgradeExample.balances
             UpgradeExample.bank UpgradeExample.normalized
             UpgradeExample_idempotent UpgradeExample_balances_NoDup Hsnap);
      [vm_compute; reflexivity | left; reflexivity | left; reflexivity
       | discriminate].
Defined.

Lemma CreateUpgradeHandler_versions_witness :
  NoDup (map fst [("bank", 2); ("gravity", 3)])
  /\ exists fromVM : VersionMap,
      CreateUpgradeHandler "gravity" UpgradeExample.NormalizeDenom
        UpgradeExample.ValidateDenom (fun b m => Ret (b, m))
        [("bank", 2); ("gravity", 3)] UpgradeExample.supply
        UpgradeExample.balances UpgradeExample.bank "v2" (fun _ => None)
      = match normalizeGravityDenoms "gravity" UpgradeExample.NormalizeDenom
                UpgradeExample.ValidateDenom UpgradeExample.supply
                UpgradeExample.balances UpgradeExample.bank with
        | Ret bank' => Ret (bank', fromVM)
        | Err e | Panic e => Panic e
        end
      /\ fromVM "gravity" = Some 1
      /\ (forall n v, In (n, v) [("bank", 2); ("gravity", 3)] ->
                      n <> "gravity" -> fromVM n = Some v)
      /\ (forall n, ~ In n (map fst [("bank", 2); ("gravity", 3)]) ->
                    n <> "gravity" -> fromVM n = None).
Proof.
  assert (Hnd : NoDup (map fst [("bank", 2); ("gravity", 3)])).
  { apply NoDup_cons; [intros [E|[]]; discriminate E|].
    apply NoDup_cons; [intros [] | apply NoDup_nil]. }
  split; [exact Hnd|].
  apply (CreateUpgradeHandler_versions
           "gravity" UpgradeExample.NormalizeDenom UpgradeExample.ValidateDenom
           (fun b m => Ret (b, m)) [("bank", 2); ("gravity", 3)]
           UpgradeExample.supply UpgradeExample.balances UpgradeExample.bank
           "v2" (fun _ => None) Hnd).
Defined.
